(** * Poll management: voter extraction, CSV persistence and poll marking

    A shallow embedding of the TypeScript sources (the App component, the
    remote vision-model service and the local text/OCR service) together
    with the properties stated about them.

    Conventions of the embedding
    - a JavaScript string is the list of its UTF-16 code units ([jsstring]);
    - a JavaScript [number] that holds a page index or a timestamp is an
      integer or NaN ([number]); coordinates are rationals ([Q]);
    - [undefined] and [null] are [None];
    - a function that can throw returns an [outcome];
    - React state is passed explicitly ([AppState]). *)

From Stdlib Require Import Ascii String.
From Stdlib Require Import List ZArith NArith QArith Lia Lqa Bool Permutation.
Import ListNotations.

Set Implicit Arguments.
Close Scope Q_scope.

(* ================================================================== *)
(** * JavaScript strings and numbers *)
(* ================================================================== *)

Module JS.

Local Open Scope N_scope.

(** A character is a UTF-16 code unit; a string is the list of them. *)
Abbreviation char := N (only parsing).
Abbreviation jsstring := (list N) (only parsing).

(** An ASCII literal of the source as a [jsstring]. *)
Fixpoint lit (s : string) : jsstring :=
  match s with
  | EmptyString => []
  | String a r => N_of_ascii a :: lit r
  end.

Definition chr (a : ascii) : char := N_of_ascii a.

(** [===] on strings. *)
Fixpoint streq (a b : jsstring) : bool :=
  match a, b with
  | [], [] => true
  | x :: a', y :: b' => N.eqb x y && streq a' b'
  | _, _ => false
  end.

(** ECMAScript LineTerminator: LF, CR, LS, PS. *)
Definition isLineTerminator (c : char) : bool :=
  N.eqb c 10 || N.eqb c 13 || N.eqb c 8232 || N.eqb c 8233.

(** ECMAScript WhiteSpace or LineTerminator: what [\s] matches and what
    [String.prototype.trim] removes. *)
Definition isWhiteSpace (c : char) : bool :=
  N.eqb c 9 || N.eqb c 10 || N.eqb c 11 || N.eqb c 12 || N.eqb c 13 ||
  N.eqb c 32 || N.eqb c 160 || N.eqb c 5760 ||
  (N.leb 8192 c && N.leb c 8202) ||
  N.eqb c 8232 || N.eqb c 8233 || N.eqb c 8239 || N.eqb c 8287 ||
  N.eqb c 12288 || N.eqb c 65279.

Fixpoint trimStart (s : jsstring) : jsstring :=
  match s with
  | [] => []
  | c :: r => if isWhiteSpace c then trimStart r else s
  end.

Definition trimEnd (s : jsstring) : jsstring := rev (trimStart (rev s)).

Definition trim (s : jsstring) : jsstring := trimEnd (trimStart s).

(** [Array.prototype.join]. *)
Fixpoint join (sep : jsstring) (l : list jsstring) : jsstring :=
  match l with
  | [] => []
  | [x] => x
  | x :: r => x ++ sep ++ join sep r
  end.

(** [s.includes(c)] for a one-character needle. *)
Definition includesChar (c : char) (s : jsstring) : bool :=
  existsb (N.eqb c) s.

(** [s.replace(/c/g, r)] for a one-character pattern. *)
Definition replaceChar (c : char) (r : jsstring) (s : jsstring) : jsstring :=
  flat_map (fun x => if N.eqb x c then r else [x]) s.

(** [s.split(/\r\n|\n|\r/)]. *)
Fixpoint splitLines (s : jsstring) : list jsstring :=
  match s with
  | [] => [[]]
  | c :: r =>
      if N.eqb c 13 then
        match r with
        | d :: r' => if N.eqb d 10 then [] :: splitLines r' else [] :: splitLines r
        | [] => [] :: splitLines r
        end
      else if N.eqb c 10 then [] :: splitLines r
      else match splitLines r with
           | l :: ls => (c :: l) :: ls
           | [] => [[c]]
           end
  end.

(** [toUpperCase] on the characters whose upper case is an ASCII letter:
    a-z, dotless i (U+0131) and long s (U+017F).  Every other mapping of
    the Unicode tables yields a non-ASCII character or a multi-letter
    expansion, and is left as it is here; the source only compares the
    result with the word YES. *)
Definition upperChar (c : char) : char :=
  if N.leb 97 c && N.leb c 122 then c - 32
  else if N.eqb c 305 then 73
  else if N.eqb c 383 then 83
  else c.

Definition toUpperCase (s : jsstring) : jsstring := map upperChar s.

(** Numbers that are page indices and timestamps: integers, or NaN. *)
Inductive number := NaN | Int (z : Z).

Definition isDigit (c : char) : bool := N.leb 48 c && N.leb c 57.

Definition hexVal (c : char) : option N :=
  if isDigit c then Some (c - 48)
  else if N.leb 97 c && N.leb c 102 then Some (c - 87)
  else if N.leb 65 c && N.leb c 70 then Some (c - 55)
  else None.

(** The longest prefix of digits in [radix], read most significant first;
    [None] when that prefix is empty. *)
Fixpoint readDigits (radix : N) (acc : option N) (s : jsstring) : option N :=
  match s with
  | [] => acc
  | c :: r =>
      match hexVal c with
      | Some d =>
          if N.ltb d radix
          then readDigits radix (Some (match acc with Some a => a * radix + d | None => d end)) r
          else acc
      | None => acc
      end
  end.

(** [parseInt(s)] with no radix argument: leading white space, a sign,
    an optional 0x prefix, then digits; NaN when there is no digit. *)
Definition parseInt (s : jsstring) : number :=
  let s1 := trimStart s in
  let '(neg, s2) :=
    match s1 with
    | c :: r => if N.eqb c 45 then (true, r) else if N.eqb c 43 then (false, r) else (false, s1)
    | [] => (false, s1)
    end in
  let '(radix, s3) :=
    match s2 with
    | z :: x :: r => if N.eqb z 48 && (N.eqb x 120 || N.eqb x 88) then (16%N, r) else (10%N, s2)
    | _ => (10%N, s2)
    end in
  match readDigits radix None s3 with
  | Some n => Int (if neg then - Z.of_N n else Z.of_N n)
  | None => NaN
  end.

(** Decimal digits of a natural number, most significant first. *)
Fixpoint digitsFuel (fuel : nat) (n : N) (acc : jsstring) : jsstring :=
  match fuel with
  | O => acc
  | S f =>
      let acc' := (48 + n mod 10)%N :: acc in
      if N.eqb (n / 10) 0 then acc' else digitsFuel f (n / 10) acc'
  end.

Definition natToString (n : N) : jsstring :=
  digitsFuel (S (N.to_nat (N.log2 n))) n [].

(** [String(x)] for a number below 10^21 in magnitude. *)
Definition numberToString (x : number) : jsstring :=
  match x with
  | NaN => lit "NaN"
  | Int z => if Z.ltb z 0 then 45%N :: natToString (Z.to_N (- z)) else natToString (Z.to_N z)
  end.

(** Truthiness of a number: neither 0 nor NaN. *)
Definition numberTruthy (x : number) : bool :=
  match x with
  | NaN => false
  | Int z => negb (Z.eqb z 0)
  end.

(** The result of a call that may throw [new Error(message)]. *)
Inductive outcome (A : Type) :=
| Returned (a : A)
| Thrown (message : jsstring).

Arguments Returned {A} a.
Arguments Thrown {A} message.

End JS.

Import JS.

(* ================================================================== *)
(** * The data model ([types.ts]) *)
(* ================================================================== *)

Record Voter := mkVoter {
  sl_no : jsstring;
  epic_no : jsstring;
  name_en : jsstring;
  name_te : jsstring;
  relative_name : jsstring;
  house_no : jsstring;
  age : jsstring;
  gender : jsstring;
  assembly_name : jsstring;
  parliament_name : jsstring;
  polling_station_no : jsstring;
  photoBase64 : option jsstring;
  originalPage : option number;
  isVoted : bool;
  votedParty : option jsstring;
  timestamp : option number
}.

Record ProcessingStatus := mkStatus {
  total : number;
  current : number;
  message : jsstring;
  isProcessing : bool
}.

Inductive View := UPLOAD | DASHBOARD.

(** The React state of the App component that the modelled handlers touch. *)
Record AppState := mkApp {
  voters : list Voter;
  status : ProcessingStatus;
  view : View
}.

Definition setVoters (f : list Voter -> list Voter) (st : AppState) : AppState :=
  mkApp (f (voters st)) (status st) (view st).

Definition setStatus (f : ProcessingStatus -> ProcessingStatus) (st : AppState) : AppState :=
  mkApp (voters st) (f (status st)) (view st).

Definition setView (v : View) (st : AppState) : AppState :=
  mkApp (voters st) (status st) v.

(* ================================================================== *)
(** * Poll marking ([updateVoter]) *)
(* ================================================================== *)

Definition updateVoter (updatedVoter : Voter) (st : AppState) : AppState :=
  setVoters
    (fun prevVoters =>
       map (fun v => if streq (epic_no v) (epic_no updatedVoter) then updatedVoter else v)
           prevVoters)
    st.

Definition addVoter (newVoter : Voter) (st : AppState) : AppState :=
  setVoters (fun prev => prev ++ [newVoter]) st.

(* ================================================================== *)
(** * Tabular export and import (App component) *)
(* ================================================================== *)

Module Csv.

Local Open Scope N_scope.

Definition quote : char := 34.
Definition comma : char := 44.
Definition semicolon : char := 59.

(** The first [replace] of a finished field (pattern: a double quote at
    the start of the string or one at its end, global): a quote at the
    very start and a quote at the very end are removed. *)
Definition stripOuterQuotes (s : jsstring) : jsstring :=
  let s1 := match s with
            | c :: r => if N.eqb c quote then r else s
            | [] => []
            end in
  match rev s1 with
  | c :: r => if N.eqb c quote then rev r else s1
  | [] => s1
  end.

(** The second [replace] of a finished field: every pair of adjacent
    double quotes, scanning from the left, becomes one double quote. *)
Fixpoint unescapeQuotes (s : jsstring) : jsstring :=
  match s with
  | [] => []
  | c :: r =>
      match r with
      | d :: r' =>
          if N.eqb c quote && N.eqb d quote
          then quote :: unescapeQuotes r'
          else c :: unescapeQuotes r
      | [] => [c]
      end
  end.

(** The expression pushed onto [result] for a finished field. *)
Definition finishField (current : jsstring) : jsstring :=
  trim (unescapeQuotes (stripOuterQuotes current)).

(** The [for] loop of [parseCSVLine], with its three mutable variables. *)
Fixpoint parseCSVLoop (delimiter : char) (str : jsstring)
         (result : list jsstring) (current : jsstring) (inQuotes : bool)
  : list jsstring :=
  match str with
  | [] => result ++ [finishField current]
  | c :: rest =>
      if N.eqb c quote then
        parseCSVLoop delimiter rest result current (negb inQuotes)
      else if N.eqb c delimiter && negb inQuotes then
        parseCSVLoop delimiter rest (result ++ [finishField current]) [] inQuotes
      else
        parseCSVLoop delimiter rest result (current ++ [c]) inQuotes
  end.

Definition parseCSVLine (str : jsstring) (delimiter : char) : list jsstring :=
  parseCSVLoop delimiter str [] [] false.

Definition BOM : jsstring := [65279].

Definition headers : list jsstring :=
  [ lit "Serial No"; lit "EPIC No"; lit "Name (English)"; lit "Name (Telugu)";
    lit "Relation Name"; lit "House No"; lit "Age"; lit "Gender"; lit "Assembly";
    lit "Parliament"; lit "Polling Station"; lit "Voted?"; lit "Party";
    lit "Page No"; lit "Timestamp" ].

(** The template of a text column: the value with every double quote
    doubled, between two double quotes. *)
Definition quoted (x : jsstring) : jsstring :=
  [quote] ++ replaceChar quote [quote; quote] x ++ [quote].

(** How [join] prints an optional number: [undefined] prints as the
    empty string. *)
Definition optNumberToString (x : option number) : jsstring :=
  match x with
  | Some n => numberToString n
  | None => []
  end.

(** One element of [rows]. *)
Definition row (v : Voter) : jsstring :=
  join [comma]
    [ sl_no v;
      epic_no v;
      quoted (name_en v);
      quoted (name_te v);
      quoted (relative_name v);
      quoted (house_no v);
      age v;
      gender v;
      quoted (assembly_name v);
      quoted (parliament_name v);
      quoted (polling_station_no v);
      (if isVoted v then lit "YES" else lit "NO");
      match votedParty v with Some p => p | None => [] end;
      optNumberToString (originalPage v);
      match timestamp v with
      | Some t => if numberTruthy t then numberToString t else []
      | None => []
      end ].

Definition generateCSVContent (votersData : list Voter) : jsstring :=
  BOM ++ join [10] (join [comma] headers :: map row votersData).

Inductive Source := API | FILE | HISTORY.

(** [cols[i]] or else the empty string: a missing column reads as the
    empty string. *)
Definition col (cols : list jsstring) (i : nat) : jsstring := nth i cols [].

(** The record pushed for a data line with at least three columns. *)
Definition voterOfCols (cols : list jsstring) : Voter :=
  {| sl_no := col cols 0;
     epic_no := col cols 1;
     name_en := col cols 2;
     name_te := col cols 3;
     relative_name := col cols 4;
     house_no := col cols 5;
     age := col cols 6;
     gender := col cols 7;
     assembly_name := col cols 8;
     parliament_name := col cols 9;
     polling_station_no := col cols 10;
     isVoted := streq (toUpperCase (col cols 11)) (lit "YES");
     votedParty :=
       (let p := col cols 12 in
        if negb (streq p []) && negb (streq p (lit "null")) then Some p else None);
     originalPage :=
       (match col cols 13 with
        | [] => Some (Int 0)
        | c => Some (parseInt c)
        end);
     photoBase64 := None;
     timestamp := None |}.

Definition nonBlank (line : jsstring) : bool :=
  Nat.ltb 0 (length (trim line)).

Definition processCSVText (text : jsstring) (source : Source) (st : AppState)
  : AppState * outcome (list Voter) :=
  let text := match text with
              | c :: r => if N.eqb c 65279 then r else text
              | [] => text
              end in
  let lines := filter nonBlank (splitLines text) in
  if Nat.ltb (length lines) 2 then
    (st, Thrown (lit "Data appears to be empty or missing headers."))
  else
    let firstLine := hd [] lines in
    let delimiter := if includesChar semicolon firstLine then semicolon else comma in
    let dataLines := tl lines in
    let loadedVoters :=
      flat_map (fun line =>
                  let cols := parseCSVLine line delimiter in
                  if Nat.ltb (length cols) 3 then [] else [voterOfCols cols])
               dataLines in
    if Nat.eqb (length loadedVoters) 0 then
      (st, Thrown (lit "No valid voter records parsed."))
    else
      let st1 := setVoters (fun _ => loadedVoters) st in
      let st2 := setStatus (fun _ =>
                   mkStatus (Int 0) (Int 0)
                     (match source with
                      | API => lit "Extraction Complete!"
                      | _ => lit "Data Loaded Successfully"
                      end)
                     false) st1 in
      let st3 := match source with
                 | FILE | HISTORY => setView DASHBOARD st2
                 | API => st2
                 end in
      (st3, Returned loadedVoters).

End Csv.

(* ================================================================== *)
(** * Regular expressions (backtracking semantics of ECMAScript) *)
(* ================================================================== *)

Module Regex.

Local Open Scope N_scope.

(** The constructs the source patterns use.  Quantifiers other than the
    star are written with [times], [plus] and [atLeast] below; none of
    the patterns has a capture group under a quantifier. *)
Inductive re :=
| Eps
| Cls (p : char -> bool)
| Seq (a b : re)
| Alt (a b : re)
| Star (greedy : bool) (a : re)
| Grp (a : re)
| Bos
| Eos.

(** A way to match: the captures closed so far and the input left. *)
Abbreviation state := (list (list N) * list N)%type (only parsing).

(** Iteration of a quantified atom.  Every way to continue is listed in
    the order the backtracking matcher tries them: a greedy star tries
    one more iteration first, a lazy one tries to stop first.  An
    iteration that consumes nothing is rejected, as RepeatMatcher does. *)
Fixpoint star (step : list jsstring -> jsstring -> list state) (greedy : bool)
         (fuel : nat) (caps : list jsstring) (s : jsstring) : list state :=
  match fuel with
  | O => [(caps, s)]
  | S f =>
      let more :=
        flat_map (fun x =>
                    if Nat.ltb (length (snd x)) (length s)
                    then star step greedy f (fst x) (snd x)
                    else [])
                 (step caps s) in
      if greedy then more ++ [(caps, s)] else (caps, s) :: more
  end.

(** All the ways [r] matches a prefix of [s], in backtracking order;
    [n] is the length of the whole input, for the start anchor. *)
Fixpoint run (n : nat) (r : re) (caps : list jsstring) (s : jsstring) : list state :=
  match r with
  | Eps => [(caps, s)]
  | Cls p => match s with
             | c :: t => if p c then [(caps, t)] else []
             | [] => []
             end
  | Seq a b => flat_map (fun x => run n b (fst x) (snd x)) (run n a caps s)
  | Alt a b => run n a caps s ++ run n b caps s
  | Star g a => star (run n a) g (length s) caps s
  | Grp a => map (fun x => (fst x ++ [firstn (length s - length (snd x)) s], snd x))
                 (run n a caps s)
  | Bos => if Nat.eqb (length s) n then [(caps, s)] else []
  | Eos => match s with
           | [] => [(caps, s)]
           | _ => []
           end
  end.

(** The result of [RegExp.prototype.exec] without the g flag: the text
    before the match, the matched text, and the captures. *)
Record MatchResult := mkMatch {
  before : jsstring;
  matched : jsstring;
  groups : list jsstring
}.

(** The leftmost start position at which [r] matches, tried from [s]
    on; [pre] is the input already skipped, in reverse. *)
Fixpoint execFrom (n : nat) (r : re) (pre : jsstring) (s : jsstring) : option MatchResult :=
  match run n r [] s with
  | x :: _ => Some (mkMatch (rev pre) (firstn (length s - length (snd x)) s) (fst x))
  | [] => match s with
          | [] => None
          | c :: t => execFrom n r (c :: pre) t
          end
  end.

Definition exec (r : re) (s : jsstring) : option MatchResult :=
  execFrom (length s) r [] s.

Definition test (r : re) (s : jsstring) : bool :=
  match exec r s with Some _ => true | None => false end.

(** [match[i]] for a capture group, numbered from 1. *)
Definition group (i : nat) (m : MatchResult) : jsstring :=
  nth (i - 1) (groups m) [].

(** [s.replace(r, '')] for a pattern without the g flag. *)
Definition removeFirst (r : re) (s : jsstring) : jsstring :=
  match exec r s with
  | Some m => before m ++ skipn (length (before m) + length (matched m)) s
  | None => s
  end.

(** ** Pattern notation *)

Definition chr (a : ascii) : char := N_of_ascii a.

(** Canonicalize of a pattern under the i flag, on ASCII. *)
Definition canon (c : char) : char :=
  if N.leb 97 c && N.leb c 122 then c - 32 else c.

Definition fail : re := Cls (fun _ => false).

(** An ASCII character, case-sensitively. *)
Definition ch (a : ascii) : re := Cls (fun c => N.eqb c (chr a)).

(** An ASCII character under the i flag. *)
Definition chI (a : ascii) : re := Cls (fun c => N.eqb (canon c) (canon (chr a))).

Fixpoint word (s : string) : re :=
  match s with
  | EmptyString => Eps
  | String a r => Seq (ch a) (word r)
  end.

Fixpoint wordI (s : string) : re :=
  match s with
  | EmptyString => Eps
  | String a r => Seq (chI a) (wordI r)
  end.

Fixpoint alts (l : list re) : re :=
  match l with
  | [] => fail
  | [x] => x
  | x :: r => Alt x (alts r)
  end.

Fixpoint times (k : nat) (r : re) : re :=
  match k with
  | O => Eps
  | S k' => Seq r (times k' r)
  end.

Definition plus (greedy : bool) (r : re) : re := Seq r (Star greedy r).

Definition atLeast (k : nat) (r : re) : re := Seq (times k r) (Star true r).

(** The dot: any character but a line terminator. *)
Definition dot : re := Cls (fun c => negb (isLineTerminator c)).

Definition isUpperAZ (c : char) : bool := N.leb 65 c && N.leb c 90.
Definition isLowerAZ (c : char) : bool := N.leb 97 c && N.leb c 122.
Definition isLetter (c : char) : bool := isUpperAZ c || isLowerAZ c.

End Regex.

(* ================================================================== *)
(** * Local extraction: digital text layer and image OCR *)
(* ================================================================== *)

Definition Qltb (a b : Q) : bool := negb (Qle_bool b a).

Definition Qabs' (a : Q) : Q := if Qle_bool 0 a then a else Qopp a.

Module OcrService.

Import Regex.

Local Open Scope N_scope.

Definition isColon (c : char) : bool := N.eqb c (chr ":").
Definition isDash (c : char) : bool := N.eqb c (chr "-").
Definition isPeriod (c : char) : bool := N.eqb c (chr ".").
Definition isSlash (c : char) : bool := N.eqb c (chr "/").

(** The class between the relation word and the word Name in RELATIVE:
    an apostrophe, the three characters U+00E2, U+20AC and U+2122 that
    the source file holds there, and white space; under the i flag
    U+00E2 also stands for its capital U+00C2. *)
Definition isRelationFiller (c : char) : bool :=
  N.eqb c 39 || N.eqb c 226 || N.eqb c 194 || N.eqb c 8364 || N.eqb c 8482
  || isWhiteSpace c.

Module PATTERNS.

Definition NAME : re :=
  Seq (wordI "Name")
 (Seq (plus true (Cls (fun c => isColon c || isWhiteSpace c || isDash c || isPeriod c)))
 (Seq (Grp (plus false dot))
      (alts [wordI "Father"; wordI "Husband"; wordI "Mother"; wordI "Guardian";
             wordI "House"; wordI "Age"; wordI "Gender"; wordI "Sex";
             wordI "Elector"; wordI "Photo"; Eos]))).

Definition RELATIVE : re :=
  Seq (alts [wordI "Father"; wordI "Husband"; wordI "Mother"; wordI "Guardian"])
 (Seq (Star true (Cls isRelationFiller))
 (Seq (wordI "Name")
 (Seq (plus true (Cls (fun c => isColon c || isWhiteSpace c || isDash c || isPeriod c)))
 (Seq (Grp (plus false dot))
      (alts [wordI "House"; wordI "Age"; wordI "Gender"; wordI "Sex";
             wordI "Elector"; wordI "Photo"; Eos]))))).

Definition HOUSE : re :=
  Seq (alts [wordI "House"; wordI "No"; wordI "H.No"; wordI "Ho"])
 (Seq (plus true (Cls (fun c => isWhiteSpace c || isDash c || isPeriod c || isColon c)))
 (Seq (Grp (plus false (Cls (fun c => isDigit c || isDash c || isSlash c
                                      || isLetter c || isWhiteSpace c))))
      (alts [wordI "Age"; wordI "Gender"; wordI "Sex"; Eos]))).

Definition AGE_GENDER : re :=
  Seq (alts [wordI "Age"; wordI "Aqe"])
 (Seq (Star true (Cls (fun c => isColon c || isWhiteSpace c || isDash c)))
 (Seq (Grp (plus true (Cls isDigit)))
 (Seq (Star true (Cls (fun c => isWhiteSpace c || N.eqb c 9)))
 (Seq (alts [wordI "Gender"; wordI "Sex"])
 (Seq (Star true (Cls (fun c => isColon c || isWhiteSpace c || isDash c)))
      (Grp (plus true (Cls isLetter)))))))).

Definition EPIC : re :=
  Grp (Alt (Seq (times 3 (Cls isUpperAZ))
                (times 7 (Cls (fun c => N.eqb c (chr "O") || isDigit c))))
           (Seq (atLeast 3 (Cls isUpperAZ))
           (Seq (atLeast 5 (Cls isDigit))
                (Star true (Cls (fun c => isUpperAZ c || isDigit c)))))).

End PATTERNS.

(** The serial-number pattern: digits at the very start. *)
Definition SL_NO : re := Seq Bos (Grp (plus true (Cls isDigit))).

(** The two header patterns. *)
Definition ASSEMBLY : re :=
  Seq (wordI "Assembly")
 (Seq (Star false dot)
 (Seq (wordI "Constituency")
 (Seq (Star true (Cls (fun c => isColon c || isWhiteSpace c || isDash c)))
      (Grp (plus true (Cls (fun c => isLetter c || isWhiteSpace c))))))).

Definition POLLING_STATION : re :=
  Seq (wordI "Polling")
 (Seq (Star false dot)
 (Seq (wordI "Station")
 (Seq (Star true (Cls (fun c => isColon c || isWhiteSpace c || isDash c)))
      (Grp (plus true (Cls (fun c => isDigit c || isLetter c || isWhiteSpace c
                                     || isDash c || isPeriod c))))))).

(** [m ? m[i].trim() : dflt]. *)
Definition trimmedGroup (i : nat) (dflt : jsstring) (m : option MatchResult) : jsstring :=
  match m with
  | Some r => trim (group i r)
  | None => dflt
  end.

(** [m ? m[i] : dflt]. *)
Definition rawGroup (i : nat) (dflt : jsstring) (m : option MatchResult) : jsstring :=
  match m with
  | Some r => group i r
  | None => dflt
  end.

(** The normalised id of an anchor text: the match of EPIC with every
    capital O replaced by the digit 0, or the empty string. *)
Definition epicOf (text : jsstring) : jsstring :=
  match exec PATTERNS.EPIC text with
  | Some m => replaceChar (chr "O") [chr "0"] (matched m)
  | None => []
  end.

(** The fields both strategies read off the flattened text of a card. *)
Record CardFields := mkFields {
  f_sl_no : jsstring;
  f_name_en : jsstring;
  f_relative_name : jsstring;
  f_house_no : jsstring;
  f_age : jsstring;
  f_gender : jsstring
}.

Definition extractFields (fullCardText : jsstring) : CardFields :=
  let nameMatch := exec PATTERNS.NAME fullCardText in
  let relativeMatch := exec PATTERNS.RELATIVE fullCardText in
  let houseMatch := exec PATTERNS.HOUSE fullCardText in
  let ageGenderMatch := exec PATTERNS.AGE_GENDER fullCardText in
  let slNoMatch := exec SL_NO fullCardText in
  {| f_sl_no := rawGroup 1 [] slNoMatch;
     f_name_en := trimmedGroup 1 (lit "Unknown") nameMatch;
     f_relative_name := trimmedGroup 1 [] relativeMatch;
     f_house_no := trimmedGroup 1 [] houseMatch;
     f_age := rawGroup 1 [] ageGenderMatch;
     f_gender := rawGroup 2 [] ageGenderMatch |}.

(** The object literal pushed onto [voters] by both strategies. *)
Definition voterOfCard (fullCardText epic assembly pollingStation : jsstring)
           (photo : option jsstring) (page : number) : Voter :=
  let f := extractFields fullCardText in
  {| sl_no := f_sl_no f;
     epic_no := epic;
     name_en := f_name_en f;
     name_te := [];
     relative_name := f_relative_name f;
     house_no := f_house_no f;
     age := f_age f;
     gender := f_gender f;
     assembly_name := assembly;
     parliament_name := [];
     polling_station_no := pollingStation;
     photoBase64 := photo;
     originalPage := Some page;
     isVoted := false;
     votedParty := None;
     timestamp := None |}.

(** [s.replace(/\s+/g, ' ')]. *)
Fixpoint collapseSpaces (inRun : bool) (s : jsstring) : jsstring :=
  match s with
  | [] => []
  | c :: r =>
      if isWhiteSpace c
      then (if inRun then collapseSpaces true r else 32 :: collapseSpaces true r)
      else c :: collapseSpaces false r
  end.


(** ** Strategy 1: the text layer of the PDF *)

(** A text item of the PDF text-position stream: [str], [transform[4]],
    [transform[5]], [width] and [height]. *)
Record TextItem := mkTextItem {
  str : jsstring;
  transform4 : Q;
  transform5 : Q;
  width : Q;
  height : Q
}.

(** An element of [items]. *)
Record Item := mkItem {
  text : jsstring;
  x : Q;
  y : Q;
  w : Q;
  h : Q
}.

(** [Math.max(...l)]; [None] stands for the -Infinity of the empty list. *)
Fixpoint maxList (l : list Q) : option Q :=
  match l with
  | [] => None
  | a :: r => match maxList r with
              | Some m => Some (if Qle_bool a m then m else a)
              | None => Some a
              end
  end.

(** The search window around an anchor. *)
Record Region := mkRegion {
  xMin : Q;
  xMax : Q;
  yMin : Q;
  yMax : Q
}.

Definition regionOf (epicItem : Item) : Region :=
  {| xMin := (x epicItem - 200)%Q;
     xMax := (x epicItem + 200)%Q;
     yMin := (y epicItem - 120)%Q;
     yMax := (y epicItem + 60)%Q |}.

Definition inRegion (region : Region) (i : Item) : bool :=
  Qle_bool (xMin region) (x i) && Qle_bool (x i) (xMax region) &&
  Qle_bool (yMin region) (y i) && Qle_bool (y i) (yMax region).

(** The comparator of the card sort: rows top to bottom (larger y
    first) when more than 5 apart, else left to right. *)
Definition cardOrder (a b : Item) : Q :=
  if Qltb 5 (Qabs' (y a - y b)) then (y b - y a)%Q else (x a - x b)%Q.

Section Strategies.

(** [Array.prototype.sort] with a comparator.  The comparators of the
    source compare within a tolerance band and are not transitive, so
    the order an engine produces is its own; what every engine
    guarantees is that the result is a rearrangement of the array. *)
Variable sortBy : forall A : Type, (A -> A -> Q) -> list A -> list A.

(** [decodeURIComponent]; it throws a URIError on a malformed escape. *)
Variable decodeURIComponent : jsstring -> outcome jsstring.

Fixpoint decodeItems (textItems : list TextItem) : outcome (list Item) :=
  match textItems with
  | [] => Returned []
  | t :: r =>
      match decodeURIComponent (str t) with
      | Thrown e => Thrown e
      | Returned s =>
          match decodeItems r with
          | Thrown e => Thrown e
          | Returned l =>
              Returned (mkItem s (transform4 t) (transform5 t) (width t) (height t) :: l)
          end
      end
  end.

Definition headerItems (items : list Item) : list Item :=
  match maxList (map y items) with
  | Some pageHeight => filter (fun i => Qltb (pageHeight * (9 # 10)) (y i)) items
  | None => []
  end.

Definition epicItems (items : list Item) : list Item :=
  filter (fun i => test PATTERNS.EPIC (text i)) items.

(** The tokens of the card of an anchor, before and after the sort. *)
Definition cardItems (items : list Item) (epicItem : Item) : list Item :=
  filter (inRegion (regionOf epicItem)) items.

Definition sortedCardItems (items : list Item) (epicItem : Item) : list Item :=
  sortBy cardOrder (cardItems items epicItem).

Definition fullCardText (items : list Item) (epicItem : Item) : jsstring :=
  collapseSpaces false (join [32] (map text (sortedCardItems items epicItem))).

(** The body of the strategy once the items are decoded. *)
Definition votersOfItems (items : list Item) (pageNum : number) : list Voter :=
  let headerText := join [32] (map text (headerItems items)) in
  let assembly := trimmedGroup 1 [] (exec ASSEMBLY headerText) in
  let pollingStation := trimmedGroup 1 [] (exec POLLING_STATION headerText) in
  map (fun epicItem =>
         voterOfCard (fullCardText items epicItem) (epicOf (text epicItem))
                     assembly pollingStation None pageNum)
      (epicItems items).

Definition extractVotersFromDigitalText (textItems : list TextItem) (pageNum : number)
  : outcome (list Voter) :=
  match decodeItems textItems with
  | Thrown e => Thrown e
  | Returned items => Returned (votersOfItems items pageNum)
  end.

(** ** Strategy 2: OCR of the rendered page *)

Record BBox := mkBBox { x0 : Q; y0 : Q; x1 : Q; y1 : Q }.

(** A word of the OCR engine. *)
Record Word := mkWord { wtext : jsstring; bbox : BBox }.

Definition headerLimit : Q := 150.

Definition cardRegion (epicWord : Word) : BBox :=
  {| x0 := (x0 (bbox epicWord) - 250)%Q;
     x1 := (x1 (bbox epicWord) + 100)%Q;
     y0 := (y0 (bbox epicWord) - 20)%Q;
     y1 := (y1 (bbox epicWord) + 140)%Q |}.

Definition inCard (region : BBox) (wd : Word) : bool :=
  Qle_bool (x0 region) (x0 (bbox wd)) &&
  Qle_bool (x1 (bbox wd)) (x1 region) &&
  Qle_bool (y0 region) (y0 (bbox wd)) &&
  Qle_bool (y1 (bbox wd)) (y1 region).

(** The comparator of the OCR card sort: top to bottom when more than
    10 apart, else left to right. *)
Definition wordOrder (a b : Word) : Q :=
  if Qltb 10 (Qabs' (y0 (bbox a) - y0 (bbox b)))
  then (y0 (bbox a) - y0 (bbox b))%Q
  else (x0 (bbox a) - x0 (bbox b))%Q.

(** The image preprocessing (binarisation on a canvas); its promise
    never rejects. *)
Variable preprocessImage : jsstring -> jsstring.

(** The OCR engine as one call: create the worker, set its parameters,
    recognise the data URL, terminate.  [Thrown] when any of these
    rejects; [Returned None] when the result has no [words] array. *)
Variable recognize : jsstring -> outcome (option (list Word)).

(** The photo crop on a canvas; its promise never rejects. *)
Variable cropImage : jsstring -> list Q -> jsstring.

(** [s.split(',')]. *)
Fixpoint splitOn (c : char) (s : jsstring) : list jsstring :=
  match s with
  | [] => [[]]
  | d :: r =>
      if N.eqb d c then [] :: splitOn c r
      else match splitOn c r with
           | l :: ls => (d :: l) :: ls
           | [] => [[d]]
           end
  end.

(** [s.split(',')[1]]. *)
Definition afterComma (s : jsstring) : option jsstring :=
  nth_error (splitOn 44 s) 1.

Definition dataUrl (finalImage : option jsstring) : jsstring :=
  lit "data:image/jpeg;base64," ++
  match finalImage with Some s => s | None => lit "undefined" end.

Definition epics (words : list Word) : list Word :=
  filter (fun wd => test PATTERNS.EPIC (wtext wd)) words.

Definition cardWords (words : list Word) (epicWord : Word) : list Word :=
  filter (inCard (cardRegion epicWord)) words.

Definition sortedCardWords (words : list Word) (epicWord : Word) : list Word :=
  sortBy wordOrder (cardWords words epicWord).

Definition photoBox (region : BBox) : list Q :=
  let cardWidth := (x1 region - x0 region)%Q in
  let pX := (x1 region - cardWidth * (35 # 100))%Q in
  [ (y0 region + 30)%Q; pX; (y1 region - 10)%Q; x1 region ].

(** The loop over the anchors; an anchor whose normalised id is empty
    is skipped. *)
Definition votersOfWords (base64Image : jsstring) (words : list Word)
           (pageNumber : number) (includePhotos : bool) : list Voter :=
  let fullPageText :=
    join [32] (map wtext (filter (fun wd => Qltb (y1 (bbox wd)) headerLimit) words)) in
  let assembly := trimmedGroup 1 [] (exec ASSEMBLY fullPageText) in
  let pollingStation := trimmedGroup 1 [] (exec POLLING_STATION fullPageText) in
  flat_map
    (fun epicWord =>
       let epicNo := epicOf (wtext epicWord) in
       match epicNo with
       | [] => []
       | _ =>
           let fullCardText := join [32] (map wtext (sortedCardWords words epicWord)) in
           let photo :=
             if includePhotos
             then Some (cropImage base64Image (photoBox (cardRegion epicWord)))
             else None in
           [voterOfCard fullCardText epicNo assembly pollingStation photo pageNumber]
       end)
    (epics words).

(** The body of the [try] block. *)
Definition ocrTryBody (base64Image : jsstring) (pageNumber : number)
           (includePhotos : bool) : outcome (list Voter) :=
  let enhancedImageBase64 := preprocessImage base64Image in
  let finalImage := afterComma enhancedImageBase64 in
  match recognize (dataUrl finalImage) with
  | Thrown e => Thrown e
  | Returned None => Thrown (lit "TypeError")
  | Returned (Some words) =>
      Returned (votersOfWords base64Image words pageNumber includePhotos)
  end.

(** The whole function: the [catch] clause logs and returns the empty
    array. *)
Definition extractVotersFromImage (base64Image : jsstring) (pageNumber : number)
           (includePhotos : bool) : outcome (list Voter) :=
  match ocrTryBody base64Image pageNumber includePhotos with
  | Returned vs => Returned vs
  | Thrown _ => Returned []
  end.

End Strategies.

End OcrService.

(* ================================================================== *)
(** * Remote extraction with a vision model *)
(* ================================================================== *)

Module GeminiService.

Import Regex.

Local Open Scope N_scope.

Definition FALLBACK_MODELS : list jsstring :=
  [ lit "gemini-3-pro-preview"; lit "gemini-2.5-flash"; lit "gemini-2.0-flash" ].

(** [VoterRawData]; a property the model left out is [None]. *)
Record VoterRawData := mkRaw {
  r_sl_no : option jsstring;
  r_epic_no : option jsstring;
  r_name_en : option jsstring;
  r_name_te : option jsstring;
  r_relative_name : option jsstring;
  r_house_no : option jsstring;
  r_age : option jsstring;
  r_gender : option jsstring;
  r_assembly_name : option jsstring;
  r_parliament_name : option jsstring;
  r_polling_station_no : option jsstring;
  photo_box_2d : option (list Q)
}.

(** An element of the parsed array: [null], on which a property access
    throws a TypeError, or an object.  A number, string or boolean
    element has none of the properties read and stands as the object
    with every property left out. *)
Inductive RawElem :=
| RNull
| RObj (r : VoterRawData).

(** What [JSON.parse] gives, as far as the code tells the cases apart:
    a SyntaxError, an array, an object whose [voters] property is an
    array, any other object, or a primitive or [null]. *)
Inductive Parsed :=
| SyntaxError
| PArray (l : list RawElem)
| PVoters (l : list RawElem)
| PObject (r : VoterRawData)
| POther.

Fixpoint indexOf (c : char) (s : jsstring) : option nat :=
  match s with
  | [] => None
  | d :: r => if N.eqb d c then Some O
              else match indexOf c r with
                   | Some i => Some (S i)
                   | None => None
                   end
  end.

Definition lastIndexOf (c : char) (s : jsstring) : option nat :=
  match indexOf c (rev s) with
  | Some i => Some (length s - 1 - i)%nat
  | None => None
  end.

(** [s.substring(a, b)] for [a <= b]. *)
Definition substring (a b : nat) (s : jsstring) : jsstring :=
  firstn (b - a) (skipn a s).

(** The three patterns that strip a code fence. *)
Definition FENCE_JSON : re :=
  Seq Bos (Seq (word "```json") (Star true (Cls isWhiteSpace))).
Definition FENCE_OPEN : re :=
  Seq Bos (Seq (word "```") (Star true (Cls isWhiteSpace))).
Definition FENCE_CLOSE : re :=
  Seq (Star true (Cls isWhiteSpace)) (Seq (word "```") Eos).

(** The text handed to [JSON.parse]. *)
Definition extractJson (responseText : option jsstring) : jsstring :=
  let jsonString := match responseText with
                    | Some (c :: r) => c :: r
                    | _ => lit "[]"
                    end in
  match indexOf (chr "[") jsonString, lastIndexOf (chr "]") jsonString with
  | Some firstBracket, Some lastBracket =>
      if Nat.ltb firstBracket lastBracket
      then substring firstBracket (lastBracket + 1) jsonString
      else removeFirst FENCE_CLOSE (removeFirst FENCE_OPEN (removeFirst FENCE_JSON jsonString))
  | _, _ =>
      removeFirst FENCE_CLOSE (removeFirst FENCE_OPEN (removeFirst FENCE_JSON jsonString))
  end.

(** [x] or else the empty string. *)
Definition orEmpty (x : option jsstring) : jsstring :=
  match x with Some s => s | None => [] end.

Definition maxRetries : nat := 6.
Definition baseDelay : Q := 1500.

(** What the function does that the outside can see. *)
Inductive Event :=
| Request (model : jsstring)
| Sleep (ms : Q).

Section Service.

(** [process.env.API_KEY]. *)
Variable apiKey : option jsstring.

(** The remote call of the attempt with the given index, on the given
    model: it rejects, or resolves with a response whose [text] may be
    [undefined]. *)
Variable generateContent : nat -> jsstring -> outcome (option jsstring).

Variable JSON_parse : jsstring -> Parsed.

(** The photo crop on a canvas; its promise never rejects. *)
Variable cropImage : jsstring -> list Q -> jsstring.

(** The value [Math.random()] returns in the [catch] clause of the
    attempt with the given index. *)
Variable random : nat -> Q.

Definition voterOfRaw (base64Image : jsstring) (pageNumber : number)
           (includePhotos : bool) (raw : VoterRawData) : Voter :=
  {| sl_no := orEmpty (r_sl_no raw);
     epic_no := orEmpty (r_epic_no raw);
     name_en := orEmpty (r_name_en raw);
     name_te := orEmpty (r_name_te raw);
     relative_name := orEmpty (r_relative_name raw);
     house_no := orEmpty (r_house_no raw);
     age := orEmpty (r_age raw);
     gender := orEmpty (r_gender raw);
     assembly_name := orEmpty (r_assembly_name raw);
     parliament_name := orEmpty (r_parliament_name raw);
     polling_station_no := orEmpty (r_polling_station_no raw);
     photoBase64 :=
       (match photo_box_2d raw with
        | Some box =>
            if includePhotos && Nat.eqb (length box) 4
            then Some (cropImage base64Image box)
            else None
        | None => None
        end);
     originalPage := Some pageNumber;
     isVoted := false;
     votedParty := None;
     timestamp := None |}.

(** [Promise.all(rawData.map(...))]: a [null] element makes its
    callback throw, and the whole [await] with it. *)
Fixpoint processRaw (base64Image : jsstring) (pageNumber : number)
         (includePhotos : bool) (rawData : list RawElem) : outcome (list Voter) :=
  match rawData with
  | [] => Returned []
  | RNull :: _ => Thrown (lit "TypeError")
  | RObj raw :: rest =>
      match processRaw base64Image pageNumber includePhotos rest with
      | Returned vs => Returned (voterOfRaw base64Image pageNumber includePhotos raw :: vs)
      | Thrown e => Thrown e
      end
  end.

(** The body of the [try] block of one attempt. *)
Definition attemptBody (base64Image : jsstring) (pageNumber : number)
           (includePhotos : bool) (attempt : nat) (currentModel : jsstring)
  : outcome (list Voter) :=
  match generateContent attempt currentModel with
  | Thrown e => Thrown e
  | Returned responseText =>
      match JSON_parse (extractJson responseText) with
      | SyntaxError => Thrown (lit "JSON Parse Failed")
      | PArray l => processRaw base64Image pageNumber includePhotos l
      | PVoters l => processRaw base64Image pageNumber includePhotos l
      | PObject r => processRaw base64Image pageNumber includePhotos [RObj r]
      | POther => Returned []
      end
  end.

(** The [while] loop; [fuel] bounds the iterations left, [trace] is
    what has been observed so far. *)
Fixpoint attemptLoop (fuel : nat) (base64Image : jsstring) (pageNumber : number)
         (includePhotos : bool) (attempt : nat) (trace : list Event)
  : list Event * list Voter :=
  match fuel with
  | O => (trace, [])
  | S f =>
      if Nat.ltb attempt maxRetries then
        let currentModel :=
          nth (attempt mod length FALLBACK_MODELS) FALLBACK_MODELS [] in
        match attemptBody base64Image pageNumber includePhotos attempt currentModel with
        | Returned processedVoters => (trace ++ [Request currentModel], processedVoters)
        | Thrown _ =>
            let attempt' := S attempt in
            if Nat.leb maxRetries attempt' then (trace ++ [Request currentModel], [])
            else
              let delay := (baseDelay * inject_Z (Z.of_nat attempt') + random attempt * 500)%Q in
              attemptLoop f base64Image pageNumber includePhotos attempt'
                          (trace ++ [Request currentModel; Sleep delay])
        end
      else (trace, [])
  end.

Definition extractVotersFromImage (base64Image : jsstring) (pageNumber : number)
           (includePhotos : bool) : list Event * outcome (list Voter) :=
  match apiKey with
  | Some (_ :: _) =>
      let r := attemptLoop (S maxRetries) base64Image pageNumber includePhotos 0 [] in
      (fst r, Returned (snd r))
  | _ =>
      ([], Thrown (lit "API Key is missing. Please check your environment configuration."))
  end.

End Service.

End GeminiService.

(* ================================================================== *)
(** * The local fallback of the App component *)
(* ================================================================== *)

Module LocalFallback.

(** What a run lets one observe: a page task starts, a page task is
    over. *)
Inductive Event :=
| Start (pageNum : nat)
| Done (pageNum : nat).

Record Run := mkRun {
  allVoters : list Voter;
  votersState : list Voter;
  trace : list Event;
  batches : list (list nat)
}.

Section Coordinator.

(** Rendering a page to an image; it may reject. *)
Variable getPdfPageAsBase64 : nat -> outcome jsstring.

(** The per-page extractor the component imports. *)
Variable extractVotersFromImage : jsstring -> number -> bool -> outcome (list Voter).

(** The order in which the tasks of a batch come to their end; the
    host decides it.  It is a rearrangement of the batch. *)
Variable completion : list nat -> list nat.

(** The records a page task appends, none when it fails. *)
Definition pageVoters (pageNum : nat) : list Voter :=
  match getPdfPageAsBase64 pageNum with
  | Thrown _ => []
  | Returned base64 =>
      match extractVotersFromImage base64 (Int (Z.of_nat pageNum)) false with
      | Thrown _ => []
      | Returned vs => vs
      end
  end.

(** [Array.from({ length: totalPages }, (_, i) => i + 1).slice(2)]. *)
Definition initialQueue (totalPages : nat) : list nat :=
  skipn 2 (map (fun i => i + 1)%nat (seq 0 totalPages)).

(** The end of one page task: the append to [allVoters] and to the
    [voters] state (skipped for an empty result). *)
Definition finishTask (r : Run) (pageNum : nat) : Run :=
  let vs := pageVoters pageNum in
  if Nat.ltb 0 (length vs)
  then mkRun (allVoters r ++ vs) (votersState r ++ vs) (trace r ++ [Done pageNum]) (batches r)
  else mkRun (allVoters r) (votersState r) (trace r ++ [Done pageNum]) (batches r).

(** The [while] loop of [processBatch]: [splice] takes the batch off
    the queue, every task of the batch is started, and the loop goes
    on when all of them are over.  [None]: out of fuel. *)
Fixpoint processBatch (fuel : nat) (concurrency : nat) (pageQueue : list nat) (r : Run)
  : option Run :=
  match pageQueue with
  | [] => Some r
  | _ :: _ =>
      match fuel with
      | O => None
      | S f =>
          let batch := firstn concurrency pageQueue in
          let pageQueue' := skipn concurrency pageQueue in
          let started := mkRun (allVoters r) (votersState r)
                               (trace r ++ map Start batch) (batches r ++ [batch]) in
          processBatch f concurrency pageQueue'
                       (fold_left finishTask (completion batch) started)
      end
  end.

Definition processPdfLocally (fuel : nat) (totalPages concurrency : nat)
           (voters0 : list Voter) : option Run :=
  processBatch fuel concurrency (initialQueue totalPages) (mkRun [] voters0 [] []).

End Coordinator.

End LocalFallback.

(* ================================================================== *)
(** * The cloud conversion endpoint ([uploadPdfToCloud]) *)
(* ================================================================== *)

Module CloudService.

(** What the code reads of a [fetch] response: [ok], [status],
    [statusText], and the promise of [text()], which may reject. *)
Record Response := mkResponse {
  ok : bool;
  status : number;
  statusText : jsstring;
  text : outcome jsstring
}.

(** [fetchResult] is the outcome of the POST of the file: the [fetch]
    promise rejects, or resolves with a response. *)
Definition uploadPdfToCloud (fetchResult : outcome Response) : outcome jsstring :=
  match fetchResult with
  | Thrown e => Thrown e
  | Returned response =>
      if negb (ok response) then
        let errorText := match text response with
                         | Returned t => t
                         | Thrown _ => statusText response
                         end in
        Thrown (lit "Cloud Engine Error (" ++ numberToString (status response)
                ++ lit "): " ++ errorText)
      else text response
  end.

End CloudService.

(* ================================================================== *)
(** * The storage service ([syncFileToCloud]) *)
(* ================================================================== *)

Module StorageService.

(** The class the file-name pattern negates: ASCII letters, digits, the
    period and the hyphen. *)
Definition isSafeChar (c : char) : bool :=
  Regex.isLetter c || isDigit c || N.eqb c 46 || N.eqb c 45.

(** [pdfFile.name.replace(/[^a-zA-Z0-9.-]/g, '_')]. *)
Definition safeFileName (name : jsstring) : jsstring :=
  flat_map (fun c => if isSafeChar c then [c] else [95%N]) name.

(** [voters[0]?.assembly_name] or else the word Unknown. *)
Definition assemblyOf (voters : list Voter) : jsstring :=
  match voters with
  | v :: _ => match assembly_name v with
              | [] => lit "Unknown"
              | a => a
              end
  | [] => lit "Unknown"
  end.

(** The two storage paths of an upload. *)
Definition pdfPath (userId : jsstring) (timestamp : number) (name : jsstring) : jsstring :=
  lit "user_uploads/" ++ userId ++ lit "/" ++ numberToString timestamp ++ lit "_"
  ++ safeFileName name.

Definition csvPath (userId : jsstring) (timestamp : number) (name : jsstring) : jsstring :=
  lit "user_uploads/" ++ userId ++ lit "/" ++ numberToString timestamp ++ lit "_"
  ++ safeFileName name ++ lit ".csv".

End StorageService.

(* ================================================================== *)
(** * The dashboard *)
(* ================================================================== *)

Module Dashboard.

Definition ITEMS_PER_PAGE : nat := 20.

(** [l.slice(a, b)] for indices that are not negative. *)
Definition slice (A : Type) (a b : nat) (l : list A) : list A :=
  firstn (b - a) (skipn a l).

(** The page shown; [page] is the page number of the component state,
    which starts at 1. *)
Definition paginatedVoters (filteredVoters : list Voter) (page : nat) : list Voter :=
  slice ((page - 1) * ITEMS_PER_PAGE) (page * ITEMS_PER_PAGE) filteredVoters.

(** [Math.ceil(filteredVoters.length / ITEMS_PER_PAGE)]; the quotient of
    a length by 20 is rounded up without error. *)
Definition totalPages (filteredVoters : list Voter) : nat :=
  (length filteredVoters + (ITEMS_PER_PAGE - 1)) / ITEMS_PER_PAGE.

(** The value of [a] in the demographics callback: the age bucket of a
    record. *)
Definition ageBucket (age : jsstring) : jsstring :=
  match parseInt age with
  | NaN => lit "Unknown"
  | Int ageVal =>
      if Z.ltb ageVal 30 then lit "18-29"
      else if Z.ltb ageVal 45 then lit "30-45"
      else if Z.ltb ageVal 60 then lit "46-60"
      else lit "60+"
  end.

(** The record [handleVoteToggle] hands to [onUpdateVoter]; [now] is the
    value of [Date.now()]. *)
Definition toggled (now : number) (voter : Voter) : Voter :=
  {| sl_no := sl_no voter; epic_no := epic_no voter; name_en := name_en voter;
     name_te := name_te voter; relative_name := relative_name voter;
     house_no := house_no voter; age := age voter; gender := gender voter;
     assembly_name := assembly_name voter; parliament_name := parliament_name voter;
     polling_station_no := polling_station_no voter;
     photoBase64 := photoBase64 voter;
     originalPage := originalPage voter;
     isVoted := negb (isVoted voter);
     votedParty := (if negb (isVoted voter) then votedParty voter else None);
     timestamp := Some now |}.

(** The record [handlePartySelect] hands to [onUpdateVoter]. *)
Definition withParty (now : number) (voter : Voter) (party : jsstring) : Voter :=
  {| sl_no := sl_no voter; epic_no := epic_no voter; name_en := name_en voter;
     name_te := name_te voter; relative_name := relative_name voter;
     house_no := house_no voter; age := age voter; gender := gender voter;
     assembly_name := assembly_name voter; parliament_name := parliament_name voter;
     polling_station_no := polling_station_no voter;
     photoBase64 := photoBase64 voter;
     originalPage := originalPage voter;
     isVoted := true;
     votedParty := Some party;
     timestamp := Some now |}.

(** The two handlers, with [onUpdateVoter] bound to [updateVoter] as the
    App component binds it. *)
Definition handleVoteToggle (now : number) (voter : Voter) (st : AppState) : AppState :=
  updateVoter (toggled now voter) st.

Definition handlePartySelect (now : number) (voter : Voter) (party : jsstring)
           (st : AppState) : AppState :=
  updateVoter (withParty now voter party) st.

Record Party := mkParty { name : jsstring; color : jsstring }.

Definition addParty (parties : list Party) : list Party :=
  parties ++ [mkParty (lit "New Party") (lit "#000000")].

(** [newP.splice(index, 1)] on a copy, for an index that is not
    negative. *)
Definition removeParty (index : nat) (parties : list Party) : list Party :=
  firstn index parties ++ skipn (S index) parties.

End Dashboard.

(* ================================================================== *)
(** * The upload handlers of the App component *)
(* ================================================================== *)

Module App.

Section Handlers.

(** The uploaded file, and what the platform does with it: the POST to
    the conversion endpoint and the reading of its text. *)
Variable File : Type.
Variable fetchUpload : File -> outcome CloudService.Response.
Variable fileText : File -> outcome jsstring.

(** [setStatus(prev => ({ ...prev, message }))]. *)
Definition setMessage (m : jsstring) (st : AppState) : AppState :=
  setStatus (fun prev => mkStatus (total prev) (current prev) m (isProcessing prev)) st.

(** The [catch] clause of [handleFileUpload]: the message, and the timer
    that starts the local engine, given by its delay. *)
Definition switchToLocal (st : AppState) : AppState * option nat :=
  (setMessage (lit "Switching to Local Engine...") st, Some 1500%nat).

(** [handleFileUpload]; the second component is the delay of the timer
    for [processPdfLocally] when one is set. *)
Definition handleFileUpload (file : option File) (st : AppState)
  : AppState * option nat :=
  match file with
  | None => (st, None)
  | Some f =>
      let st1 := setVoters (fun _ => []) st in
      let st2 := setStatus (fun _ =>
                   mkStatus (Int 0) (Int 0) (lit "Connecting to Cloud Engine...") true) st1 in
      match CloudService.uploadPdfToCloud (fetchUpload f) with
      | Thrown _ => switchToLocal st2
      | Returned csvResponse =>
          let st3 := setMessage (lit "Processing Response Data...") st2 in
          match Csv.processCSVText csvResponse Csv.API st3 with
          | (st4, Returned _) => (st4, None)
          | (st4, Thrown _) => switchToLocal st4
          end
      end
  end.

Definition handleDataFileSelect (file : option File) (st : AppState) : AppState :=
  match file with
  | None => st
  | Some f =>
      let st1 := setStatus (fun _ =>
                   mkStatus (Int 0) (Int 0) (lit "Reading Local CSV...") true) st in
      let failed (st' : AppState) (message : jsstring) :=
        setStatus (fun _ =>
          mkStatus (Int 0) (Int 0) (lit "Error loading CSV: " ++ message) false) st' in
      match fileText f with
      | Thrown e => failed st1 e
      | Returned text =>
          match Csv.processCSVText text Csv.FILE st1 with
          | (st2, Returned _) => st2
          | (st2, Thrown e) => failed st2 e
          end
      end
  end.

End Handlers.

End App.

(* ================================================================== *)
(** * Vocabulary of the statements *)
(* ================================================================== *)

(** A record as the import can give it back: without photo. *)
Definition forgetPhoto (v : Voter) : Voter :=
  {| sl_no := sl_no v; epic_no := epic_no v; name_en := name_en v;
     name_te := name_te v; relative_name := relative_name v;
     house_no := house_no v; age := age v; gender := gender v;
     assembly_name := assembly_name v; parliament_name := parliament_name v;
     polling_station_no := polling_station_no v;
     photoBase64 := None;
     originalPage := originalPage v; isVoted := isVoted v;
     votedParty := votedParty v; timestamp := timestamp v |}.

(** ... and without the time of the poll mark. *)
Definition forgetTimestamp (v : Voter) : Voter :=
  {| sl_no := sl_no v; epic_no := epic_no v; name_en := name_en v;
     name_te := name_te v; relative_name := relative_name v;
     house_no := house_no v; age := age v; gender := gender v;
     assembly_name := assembly_name v; parliament_name := parliament_name v;
     polling_station_no := polling_station_no v;
     photoBase64 := photoBase64 v;
     originalPage := originalPage v; isVoted := isVoted v;
     votedParty := votedParty v; timestamp := None |}.


(** Text without a line break, without a double quote, without a comma. *)
Definition noLineBreak (s : jsstring) : Prop :=
  Forall (fun c => c <> 10%N /\ c <> 13%N) s.

Definition noQuote (s : jsstring) : Prop := Forall (fun c => c <> Csv.quote) s.










(** ** Sample data *)

(** A record after a poll mark: voted, with party and time. *)
Definition markedVoter : Voter :=
  {| sl_no := lit "12"; epic_no := lit "ABC1204567";
     name_en := lit "OM PRAKASH, K"; name_te := [];
     relative_name := lit "RAM"; house_no := lit "1-2/A";
     age := lit "45"; gender := lit "Male";
     assembly_name := lit "Kodad"; parliament_name := lit "Nalgonda";
     polling_station_no := lit "17";
     photoBase64 := None;
     originalPage := Some (Int 3);
     isVoted := true; votedParty := Some (lit "INC");
     timestamp := Some (Int 1700000000000) |}.

(** A second record that shares the id of the first. *)
Definition twinVoter : Voter :=
  {| sl_no := lit "13"; epic_no := lit "ABC1204567";
     name_en := lit "SITA"; name_te := [];
     relative_name := lit "RAM"; house_no := lit "1-2/A";
     age := lit "41"; gender := lit "Female";
     assembly_name := lit "Kodad"; parliament_name := lit "Nalgonda";
     polling_station_no := lit "17";
     photoBase64 := None;
     originalPage := Some (Int 3);
     isVoted := false; votedParty := None;
     timestamp := None |}.

Definition idleStatus : ProcessingStatus := mkStatus (Int 0) (Int 0) [] false.

Definition emptyApp : AppState := mkApp [] idleStatus UPLOAD.

(** The state the import leaves after a success. *)
Definition afterImport (source : Csv.Source) (loaded : list Voter) (st : AppState) : AppState :=
  let st2 := setStatus (fun _ =>
               mkStatus (Int 0) (Int 0)
                 (match source with
                  | Csv.API => lit "Extraction Complete!"
                  | _ => lit "Data Loaded Successfully"
                  end) false)
               (setVoters (fun _ => loaded) st) in
  match source with
  | Csv.FILE | Csv.HISTORY => setView DASHBOARD st2
  | Csv.API => st2
  end.

(** What may follow the header in a file without data: white space and
    line breaks only. *)
Definition blankText (tail : jsstring) : Prop :=
  Forall (fun c => isWhiteSpace c = true) tail.

(** [t] is what is left of [s] after a prefix; [a] is a contiguous part
    of [b]. *)
Definition suffixOf (t s : jsstring) : Prop := exists pre, s = pre ++ t.

Definition infixOf (a b : jsstring) : Prop := exists l r, b = l ++ a ++ r.

(** Two lists of matcher states that leave the same inputs, in the same
    order. *)
Definition sameRests (l l' : list (list jsstring * jsstring)) : Prop :=
  map snd l = map snd l'.

(** ** The Name label *)

(** The text begins with the four letters of the word Name, in any
    letter case. *)
Definition startsWithName (t : jsstring) : bool :=
  match t with
  | c1 :: c2 :: c3 :: c4 :: _ =>
      N.eqb (Regex.canon c1) 78 && N.eqb (Regex.canon c2) 65 &&
      N.eqb (Regex.canon c3) 77 && N.eqb (Regex.canon c4) 69
  | _ => false
  end.

(** ** Geometry of the search window *)

(** How far a window reaches from its anchor on each side.  In the text
    layer the anchor is the point (x, y) and y grows upwards; in the
    OCR result the anchor is a box and y grows downwards. *)
Record Offsets := mkOffsets {
  toLeft : Q;
  toRight : Q;
  above : Q;
  below : Q
}.

Definition digitalOffsets (epicItem : OcrService.Item) : Offsets :=
  let r := OcrService.regionOf epicItem in
  {| toLeft := (OcrService.x epicItem - OcrService.xMin r)%Q;
     toRight := (OcrService.xMax r - OcrService.x epicItem)%Q;
     above := (OcrService.yMax r - OcrService.y epicItem)%Q;
     below := (OcrService.y epicItem - OcrService.yMin r)%Q |}.

Definition ocrOffsets (epicWord : OcrService.Word) : Offsets :=
  let r := OcrService.cardRegion epicWord in
  let b := OcrService.bbox epicWord in
  {| toLeft := (OcrService.x0 b - OcrService.x0 r)%Q;
     toRight := (OcrService.x1 r - OcrService.x1 b)%Q;
     above := (OcrService.y0 b - OcrService.y0 r)%Q;
     below := (OcrService.y1 r - OcrService.y1 b)%Q |}.

(** A window that reaches deeper above or below its anchor than to its
    left or right, in the weakest sense: one of the two vertical reaches
    exceeds one of the two horizontal ones. *)
Definition deeperThanWide (o : Offsets) : Prop :=
  (toLeft o < above o \/ toLeft o < below o \/
   toRight o < above o \/ toRight o < below o)%Q.

(** Two windows that overlap at most along an edge: the anchors are at
    least a window width, or a window height, apart. *)
Definition apart (r1 r2 : OcrService.Region) : Prop :=
  (OcrService.xMax r1 <= OcrService.xMin r2 \/ OcrService.xMax r2 <= OcrService.xMin r1 \/
   OcrService.yMax r1 <= OcrService.yMin r2 \/ OcrService.yMax r2 <= OcrService.yMin r1)%Q.

Definition apartBoxes (r1 r2 : OcrService.BBox) : Prop :=
  (OcrService.x1 r1 <= OcrService.x0 r2 \/ OcrService.x1 r2 <= OcrService.x0 r1 \/
   OcrService.y1 r1 <= OcrService.y0 r2 \/ OcrService.y1 r2 <= OcrService.y0 r1)%Q.

(** A token of the text layer clearly inside a window: its box, from
    (x, y) to (x + w, y + h), lies strictly inside. *)
Definition clearlyInside (r : OcrService.Region) (i : OcrService.Item) : Prop :=
  (0 <= OcrService.w i /\ 0 <= OcrService.h i /\
   OcrService.xMin r < OcrService.x i /\ OcrService.x i + OcrService.w i < OcrService.xMax r /\
   OcrService.yMin r < OcrService.y i /\ OcrService.y i + OcrService.h i < OcrService.yMax r)%Q.

(** The box of a token of the text layer lies within a window. *)
Definition boxWithin (r : OcrService.Region) (i : OcrService.Item) : Prop :=
  (OcrService.xMin r <= OcrService.x i /\ OcrService.x i + OcrService.w i <= OcrService.xMax r /\
   OcrService.yMin r <= OcrService.y i /\ OcrService.y i + OcrService.h i <= OcrService.yMax r)%Q.

(** An OCR word clearly inside a card region. *)
Definition wordClearlyInside (r : OcrService.BBox) (wd : OcrService.Word) : Prop :=
  let b := OcrService.bbox wd in
  (OcrService.x0 b <= OcrService.x1 b /\ OcrService.y0 b <= OcrService.y1 b /\
   OcrService.x0 r < OcrService.x0 b /\ OcrService.x1 b < OcrService.x1 r /\
   OcrService.y0 r < OcrService.y0 b /\ OcrService.y1 b < OcrService.y1 r)%Q.

Definition wordWithin (r : OcrService.BBox) (wd : OcrService.Word) : Prop :=
  let b := OcrService.bbox wd in
  (OcrService.x0 r <= OcrService.x0 b /\ OcrService.x1 b <= OcrService.x1 r /\
   OcrService.y0 r <= OcrService.y0 b /\ OcrService.y1 b <= OcrService.y1 r)%Q.

(** A stable insertion sort by a comparator: one sort every engine
    agrees with when the comparator is consistent. *)
Fixpoint insertBy (A : Type) (cmp : A -> A -> Q) (a : A) (l : list A) : list A :=
  match l with
  | [] => [a]
  | b :: r => if Qltb 0 (cmp a b) then b :: insertBy cmp a r else a :: l
  end.

Definition insertionSort (A : Type) (cmp : A -> A -> Q) (l : list A) : list A :=
  fold_right (insertBy cmp) [] l.

(** ** Batches of the local fallback *)

(** A queue cut into successive batches of [c] pages. *)
Fixpoint chunks (fuel c : nat) (l : list nat) : list (list nat) :=
  match l with
  | [] => []
  | _ :: _ =>
      match fuel with
      | O => []
      | S f => firstn c l :: chunks f c (skipn c l)
      end
  end.

(** What one sees of a batch: all its tasks start, then they come to
    their end in the order the host decides. *)
Definition batchTrace (completion : list nat -> list nat) (b : list nat)
  : list LocalFallback.Event :=
  map LocalFallback.Start b ++ map LocalFallback.Done (completion b).

(** ** A sample page *)

(** Three anchors of the text layer, each with one token of its card. *)
Definition anchorA : OcrService.Item := OcrService.mkItem (lit "ABC1234567") 300 700 60 10.
Definition anchorB : OcrService.Item := OcrService.mkItem (lit "XYZ7654321") 800 700 60 10.
Definition anchorC : OcrService.Item := OcrService.mkItem (lit "PQR12O4567") 300 400 60 10.
Definition tokenA : OcrService.Item := OcrService.mkItem (lit "Name") 250 680 40 10.
Definition tokenB : OcrService.Item := OcrService.mkItem (lit "Age") 820 650 30 10.
Definition tokenC : OcrService.Item := OcrService.mkItem (lit "House") 310 380 50 10.

Definition sampleItems : list OcrService.Item :=
  [anchorA; tokenA; anchorB; tokenB; anchorC; tokenC].

(** The same page as the OCR engine gives it. *)
Definition wordA : OcrService.Word :=
  OcrService.mkWord (lit "ABC1234567") (OcrService.mkBBox 600 100 700 120).
Definition wordB : OcrService.Word :=
  OcrService.mkWord (lit "XYZ7654321") (OcrService.mkBBox 1200 100 1300 120).
Definition wordC : OcrService.Word :=
  OcrService.mkWord (lit "PQR12O4567") (OcrService.mkBBox 600 400 700 420).
Definition nearA : OcrService.Word :=
  OcrService.mkWord (lit "Name") (OcrService.mkBBox 400 150 480 170).
Definition nearB : OcrService.Word :=
  OcrService.mkWord (lit "Age") (OcrService.mkBBox 1000 150 1080 170).
Definition nearC : OcrService.Word :=
  OcrService.mkWord (lit "House") (OcrService.mkBBox 400 450 480 470).

Definition sampleWords : list OcrService.Word :=
  [wordA; nearA; wordB; nearB; wordC; nearC].

(** ** A sample remote service *)

Definition emptyRaw : GeminiService.VoterRawData :=
  GeminiService.mkRaw None None None None None None None None None None None None.

(** Two replies that are not JSON, then an array of one empty object. *)
Definition sampleGenerate (attempt : nat) (model : jsstring) : outcome (option jsstring) :=
  Returned (Some (if Nat.ltb attempt 2 then lit "[oops" else lit "Here it is: [{}] done")).

Definition sampleParse (s : jsstring) : GeminiService.Parsed :=
  if streq s (lit "[{}]") then GeminiService.PArray [GeminiService.RObj emptyRaw]
  else GeminiService.SyntaxError.

Definition noCrop (img : jsstring) (box : list Q) : jsstring := [].

Definition halfJitter (attempt : nat) : Q := 1 # 2.

(** A renderer and an extractor for the local fallback: every page
    renders, and yields one record. *)
Definition sampleRender (pageNum : nat) : outcome jsstring := Returned [].

Definition sampleExtract (img : jsstring) (page : number) (photos : bool)
  : outcome (list Voter) := Returned [markedVoter].

(** ** The retry schedule *)

(** The model of an attempt, and the pause after its failure. *)
Definition modelOf (attempt : nat) : jsstring :=
  nth (attempt mod length GeminiService.FALLBACK_MODELS) GeminiService.FALLBACK_MODELS [].

Definition delayAfter (random : nat -> Q) (attempt : nat) : Q :=
  (GeminiService.baseDelay * inject_Z (Z.of_nat (S attempt)) + random attempt * 500)%Q.

(** Case analysis on the comparisons of a character with constants. *)
Ltac char_cases :=
  repeat match goal with
         | |- context [N.eqb ?a ?b] => destruct (N.eqb_spec a b); try lia
         | |- context [N.leb ?a ?b] => destruct (N.leb_spec a b); try lia
         | |- context [N.ltb ?a ?b] => destruct (N.ltb_spec a b); try lia
         end.



(** ** Beyond the stated properties *)

(** The stored collection never holds an un-voted record with a party. *)
Definition partyOnlyWhenVoted (st : AppState) : Prop :=
  forall v, In v (voters st) -> isVoted v = false -> votedParty v = None.

(** A second poll mark for the samples. *)
Definition laterMark : Voter :=
  Dashboard.withParty (Int 1700000000500) twinVoter (lit "BRS").

(** A record with another id. *)
Definition otherVoter : Voter :=
  {| sl_no := lit "14"; epic_no := lit "XYZ7654321";
     name_en := lit "LAKSHMI"; name_te := [];
     relative_name := lit "RAJU"; house_no := lit "3-4";
     age := lit "45"; gender := lit "Female";
     assembly_name := lit "Kodad"; parliament_name := lit "Nalgonda";
     polling_station_no := lit "17";
     photoBase64 := None;
     originalPage := Some (Int 3);
     isVoted := false; votedParty := None;
     timestamp := None |}.

(** A response that is not OK although its body is a good table. *)
Definition refusal : CloudService.Response :=
  CloudService.mkResponse false (Int 500) (lit "Internal Server Error")
    (Returned (Csv.generateCSVContent [markedVoter])).

(** A column as the line parser leaves it: without a double quote and
    without white space at either end. *)
Definition cleanColumn (c : jsstring) : Prop := noQuote c /\ trim c = c.

(** The text columns of a record. *)
Definition textColumns (v : Voter) : list jsstring :=
  [ sl_no v; epic_no v; name_en v; name_te v; relative_name v; house_no v;
    age v; gender v; assembly_name v; parliament_name v; polling_station_no v ].

(** The three line endings the import splits on. *)
Definition lineEnding (sep : jsstring) : Prop :=
  sep = [10%N] \/ sep = [13%N] \/ sep = [13%N; 10%N].

(** The text the import splits: the text without a leading byte-order
    mark. *)
Definition withoutBOM (text : jsstring) : jsstring :=
  match text with
  | c :: r => if N.eqb c 65279 then r else text
  | [] => text
  end.

(** ** Shape of a pattern *)

(** A pattern without a capture group. *)
Fixpoint groupless (r : Regex.re) : bool :=
  match r with
  | Regex.Grp _ => false
  | Regex.Seq a b | Regex.Alt a b => groupless a && groupless b
  | Regex.Star _ a => groupless a
  | _ => true
  end.

(** Every character class of the pattern lies within [p]. *)
Fixpoint within (p : char -> bool) (r : Regex.re) : Prop :=
  match r with
  | Regex.Cls q => forall c, q c = true -> p c = true
  | Regex.Seq a b | Regex.Alt a b => within p a /\ within p b
  | Regex.Star _ a | Regex.Grp a => within p a
  | _ => True
  end.

(** The class of the house-number group. *)
Definition isHouseChar (c : char) : bool :=
  isDigit c || OcrService.isDash c || OcrService.isSlash c || Regex.isLetter c
  || isWhiteSpace c.

(** Texts whose characters all satisfy [p]. *)
Definition allOf (p : char -> bool) (s : jsstring) : Prop :=
  Forall (fun c => p c = true) s.

(** A record as the local strategies push it for a page: unmarked,
    stamped with the page, with an id that is not empty. *)
Definition freshRecord (page : number) (v : Voter) : Prop :=
  isVoted v = false /\ votedParty v = None /\ timestamp v = None /\
  originalPage v = Some page /\ name_te v = [] /\ parliament_name v = [] /\
  epic_no v <> [].

(** The records share the header fields of their page. *)
Definition sameHeader (vs : list Voter) : Prop :=
  forall v v', In v vs -> In v' vs ->
               assembly_name v = assembly_name v' /\
               polling_station_no v = polling_station_no v'.

(** The trace of [k] failed attempts from attempt [a] on: for each one
    the request and the pause after it. *)
Definition failedRounds (random : nat -> Q) (a k : nat) : list GeminiService.Event :=
  flat_map (fun i => [GeminiService.Request (modelOf i);
                      GeminiService.Sleep (delayAfter random i)])
           (seq a k).

(** The pauses of a trace, added up, and its requests, counted. *)
Fixpoint totalSleep (tr : list GeminiService.Event) : Q :=
  match tr with
  | [] => 0
  | GeminiService.Sleep d :: r => (d + totalSleep r)%Q
  | GeminiService.Request _ :: r => totalSleep r
  end.

Fixpoint requests (tr : list GeminiService.Event) : nat :=
  match tr with
  | [] => 0
  | GeminiService.Request _ :: r => S (requests r)
  | GeminiService.Sleep _ :: r => requests r
  end.

(** A text without its double quotes. *)
Definition withoutQuotes (s : jsstring) : jsstring :=
  filter (fun c => negb (N.eqb c Csv.quote)) s.

(* ================================================================== *)
(** * Properties *)
(* ================================================================== *)

(** ** Strings *)

Lemma streq_true_iff (a b : jsstring) : streq a b = true <-> a = b.
Proof.
  revert b; induction a as [|x a IH]; intros [|y b]; simpl; split; intro H;
    try reflexivity; try discriminate.
  - apply andb_true_iff in H as [Hx Hr]. apply N.eqb_eq in Hx.
    apply IH in Hr. congruence.
  - injection H as -> ->. rewrite N.eqb_refl. simpl. apply IH. reflexivity.
Qed.

Lemma streq_false_iff (a b : jsstring) : streq a b = false <-> a <> b.
Proof.
  rewrite <- streq_true_iff. destruct (streq a b); split; congruence.
Qed.

(** ** Poll marking *)

Lemma updateVoter_nth (u : Voter) (st : AppState) (i : nat) :
  nth_error (voters (updateVoter u st)) i =
  option_map (fun v => if streq (epic_no v) (epic_no u) then u else v)
             (nth_error (voters st) i).
Proof.
  unfold updateVoter, setVoters; simpl. apply nth_error_map.
Qed.

(** C9.  [updateVoter] keeps the number and the order of the stored
    records; at every position the record is replaced by the updated
    record when its [epic_no] equals the updated record's, and is left
    as it was otherwise.  Hence every record that shares the [epic_no]
    (which may be empty or duplicated) is overwritten by one update,
    and the rest of the state is untouched. *)
Theorem updateVoter_overwrites_every_match (u : Voter) (st : AppState) :
  length (voters (updateVoter u st)) = length (voters st) /\
  (forall i v, nth_error (voters st) i = Some v -> epic_no v = epic_no u ->
               nth_error (voters (updateVoter u st)) i = Some u) /\
  (forall i v, nth_error (voters st) i = Some v -> epic_no v <> epic_no u ->
               nth_error (voters (updateVoter u st)) i = Some v) /\
  status (updateVoter u st) = status st /\
  view (updateVoter u st) = view st.
Proof.
  repeat split.
  - unfold updateVoter, setVoters; simpl. apply length_map.
  - intros i v Hi He. rewrite updateVoter_nth, Hi. simpl.
    apply streq_true_iff in He. rewrite He. reflexivity.
  - intros i v Hi He. rewrite updateVoter_nth, Hi. simpl.
    apply streq_false_iff in He. rewrite He. reflexivity.
Qed.

(** ** Lines *)

Lemma splitLines_nonempty (s : jsstring) : splitLines s <> [].
Proof.
  induction s as [|c r IH]; simpl; [discriminate|].
  destruct (N.eqb c 13).
  - destruct r as [|d r']; [discriminate|]. destruct (N.eqb d 10); discriminate.
  - destruct (N.eqb c 10); [discriminate|].
    destruct (splitLines r); discriminate.
Qed.

Lemma splitLines_cons (c : char) (r : jsstring) :
  c <> 10%N -> c <> 13%N ->
  splitLines (c :: r) = match splitLines r with
                        | l :: ls => (c :: l) :: ls
                        | [] => [[c]]
                        end.
Proof.
  intros H10 H13. apply N.eqb_neq in H10, H13.
  simpl. rewrite H13, H10. reflexivity.
Qed.

Lemma splitLines_single (s : jsstring) :
  noLineBreak s -> splitLines s = [s].
Proof.
  induction 1 as [|c r [H10 H13] _ IH]; [reflexivity|].
  rewrite splitLines_cons by assumption. rewrite IH. reflexivity.
Qed.

Lemma splitLines_line (a b : jsstring) :
  noLineBreak a -> splitLines (a ++ 10%N :: b) = a :: splitLines b.
Proof.
  induction 1 as [|c r [H10 H13] _ IH]; [reflexivity|].
  rewrite <- app_comm_cons. rewrite splitLines_cons by assumption.
  rewrite IH. reflexivity.
Qed.


(** ** Trimming *)

Lemma trimStart_head (c : char) (s : jsstring) :
  isWhiteSpace c = false -> trimStart (c :: s) = c :: s.
Proof. intro H; simpl; rewrite H; reflexivity. Qed.


Lemma trimStart_length (s : jsstring) : (length (trimStart s) <= length s)%nat.
Proof.
  induction s as [|c r IH]; simpl; [lia|]. destruct (isWhiteSpace c); simpl; lia.
Qed.

(** A trimmed text that is not empty is not blank. *)
Lemma nonBlank_trimmed (s : jsstring) :
  trim s = s -> s <> [] -> Csv.nonBlank s = true.
Proof.
  intros Ht Hne. unfold Csv.nonBlank. rewrite Ht.
  destruct s; [congruence|reflexivity].
Qed.

Lemma trimStart_app_keep (a b : jsstring) :
  trimStart a <> [] -> trimStart (a ++ b) = trimStart a ++ b.
Proof.
  induction a as [|c r IH]; simpl; intro H; [congruence|].
  destruct (isWhiteSpace c); [apply IH; assumption|reflexivity].
Qed.


(** ** Reading one exported row *)


Lemma stripOuterQuotes_noQuote (s : jsstring) :
  noQuote s -> Csv.stripOuterQuotes s = s.
Proof.
  intro H. unfold Csv.stripOuterQuotes.
  assert (E : match s with
              | [] => []
              | c :: r => if N.eqb c Csv.quote then r else s
              end = s).
  { destruct H as [|c r Hc _]; [reflexivity|].
    apply N.eqb_neq in Hc. rewrite Hc. reflexivity. }
  rewrite E. apply Forall_rev in H. unfold noQuote in H.
  destruct (rev s) as [|c r]; [reflexivity|].
  inversion H as [|? ? Hc _]; subst. apply N.eqb_neq in Hc. rewrite Hc. reflexivity.
Qed.

Lemma unescapeQuotes_noQuote (s : jsstring) :
  noQuote s -> Csv.unescapeQuotes s = s.
Proof.
  induction 1 as [|c r Hc _ IH]; [reflexivity|].
  apply N.eqb_neq in Hc.
  destruct r as [|d r']; [reflexivity|].
  change (Csv.unescapeQuotes (c :: d :: r'))
    with (if N.eqb c Csv.quote && N.eqb d Csv.quote
          then Csv.quote :: Csv.unescapeQuotes r'
          else c :: Csv.unescapeQuotes (d :: r')).
  rewrite Hc. simpl andb. cbv iota. rewrite IH. reflexivity.
Qed.


(** Characters that are neither a quote nor a separator outside quotes
    are appended to the current field. *)
Lemma parseCSVLoop_chars (d : char) (p rest : jsstring) (res : list jsstring)
      (cur : jsstring) (inQ : bool) :
  Forall (fun c => c <> Csv.quote /\ (inQ = true \/ c <> d)) p ->
  Csv.parseCSVLoop d (p ++ rest) res cur inQ = Csv.parseCSVLoop d rest res (cur ++ p) inQ.
Proof.
  intro H. revert cur.
  induction H as [|c p [Hq Hd] _ IH]; intro cur.
  - rewrite app_nil_r. reflexivity.
  - simpl. apply N.eqb_neq in Hq. rewrite Hq.
    assert (E : N.eqb c d && negb inQ = false).
    { destruct Hd as [-> | Hd]; [apply andb_false_r|].
      apply N.eqb_neq in Hd. rewrite Hd. reflexivity. }
    rewrite E, IH, <- app_assoc. reflexivity.
Qed.






(** ** Printing and reading page numbers *)

Lemma isDigit_range (c : char) : isDigit c = true <-> (48 <= c <= 57)%N.
Proof.
  unfold isDigit. rewrite andb_true_iff, !N.leb_le. tauto.
Qed.

Lemma digit_not_space (c : char) : isDigit c = true -> isWhiteSpace c = false.
Proof.
  rewrite isDigit_range. intro H. unfold isWhiteSpace. char_cases; reflexivity.
Qed.

Lemma digitsFuel_digits (fuel : nat) (n : N) (acc : jsstring) :
  Forall (fun c => isDigit c = true) acc ->
  Forall (fun c => isDigit c = true) (digitsFuel fuel n acc).
Proof.
  revert n acc. induction fuel as [|f IH]; intros n acc Hacc; cbn [digitsFuel]; [assumption|].
  assert (Hd : isDigit (48 + n mod 10) = true).
  { apply isDigit_range. pose proof (N.mod_upper_bound n 10 ltac:(lia)).
    remember (n mod 10)%N as m. lia. }
  destruct (N.eqb (n / 10) 0); [constructor; assumption|].
  apply IH. constructor; assumption.
Qed.

Lemma natToString_digits (n : N) : Forall (fun c => isDigit c = true) (natToString n).
Proof. apply digitsFuel_digits. constructor. Qed.

Lemma digitsFuel_nonempty (fuel : nat) (n : N) (acc : jsstring) :
  acc <> [] -> digitsFuel fuel n acc <> [].
Proof.
  revert n acc. induction fuel as [|f IH]; intros n acc Hacc; cbn [digitsFuel]; [assumption|].
  destruct (N.eqb (n / 10) 0); [discriminate|]. apply IH. discriminate.
Qed.

Lemma natToString_nonempty (n : N) : natToString n <> [].
Proof.
  unfold natToString. cbn [digitsFuel]. destruct (N.eqb (n / 10) 0); [discriminate|].
  apply digitsFuel_nonempty. discriminate.
Qed.

Lemma readDigits_digit (o : option N) (d : N) (s : jsstring) :
  (d < 10)%N ->
  readDigits 10 o ((48 + d)%N :: s) =
  readDigits 10 (Some (match o with Some a => a * 10 + d | None => d end)%N) s.
Proof.
  intro Hd. cbn [readDigits].
  assert (E : hexVal (48 + d) = Some d).
  { unfold hexVal, isDigit.
    replace (N.leb 48 (48 + d)) with true by (symmetry; apply N.leb_le; lia).
    replace (N.leb (48 + d) 57) with true by (symmetry; apply N.leb_le; lia).
    cbn [andb]. f_equal. lia. }
  rewrite E.
  replace (N.ltb d 10) with true by (symmetry; apply N.ltb_lt; lia).
  reflexivity.
Qed.

Lemma digitsFuel_S (fuel : nat) (n : N) (acc : jsstring) :
  digitsFuel (S fuel) n acc =
  if N.eqb (n / 10) 0 then (48 + n mod 10)%N :: acc
  else digitsFuel fuel (n / 10) ((48 + n mod 10)%N :: acc).
Proof. reflexivity. Qed.

Lemma readDigits_digitsFuel (fuel : nat) (n : N) (acc : jsstring) :
  (n < 2 ^ N.of_nat (S fuel))%N ->
  readDigits 10 None (digitsFuel (S fuel) n acc) = readDigits 10 (Some n) acc.
Proof.
  revert n acc. induction fuel as [|f IH]; intros n acc Hn;
    rewrite digitsFuel_S;
    pose proof (N.mod_upper_bound n 10 ltac:(lia)) as Hm;
    pose proof (N.div_mod n 10 ltac:(lia)) as Hdm;
    remember (n mod 10)%N as m; remember (n / 10)%N as q;
    destruct (N.eqb_spec q 0) as [Hz|Hz];
    try (rewrite readDigits_digit by assumption; f_equal; f_equal; lia).
  - change (2 ^ N.of_nat 1)%N with 2%N in Hn. lia.
  - rewrite IH.
    + rewrite readDigits_digit by assumption. f_equal. f_equal. lia.
    + rewrite Nat2N.inj_succ, N.pow_succ_r' in Hn.
      remember (2 ^ N.of_nat (S f))%N as b. lia.
Qed.

Lemma readDigits_natToString (n : N) : readDigits 10 None (natToString n) = Some n.
Proof.
  unfold natToString. rewrite readDigits_digitsFuel; [reflexivity|].
  rewrite Nat2N.inj_succ, N2Nat.id.
  destruct (N.eq_dec n 0) as [->|Hn]; [reflexivity|].
  apply N.log2_spec. lia.
Qed.

Lemma parseInt_natToString (n : N) : parseInt (natToString n) = Int (Z.of_N n).
Proof.
  pose proof (natToString_digits n) as Hd.
  pose proof (natToString_nonempty n) as Hne.
  pose proof (readDigits_natToString n) as Hr.
  unfold parseInt.
  destruct (natToString n) as [|c s]; [congruence|].
  inversion Hd as [|? ? Hc Hs]; subst.
  rewrite trimStart_head by (apply digit_not_space; assumption).
  apply isDigit_range in Hc.
  replace (N.eqb c 45) with false by (symmetry; apply N.eqb_neq; lia).
  replace (N.eqb c 43) with false by (symmetry; apply N.eqb_neq; lia).
  destruct s as [|x r].
  - rewrite Hr. reflexivity.
  - inversion Hs as [|? ? Hx _]; subst. apply isDigit_range in Hx.
    replace (N.eqb x 120) with false by (symmetry; apply N.eqb_neq; lia).
    replace (N.eqb x 88) with false by (symmetry; apply N.eqb_neq; lia).
    rewrite andb_false_r. rewrite Hr. reflexivity.
Qed.



(** ** The export read back *)















Lemma noLineBreak_check (s : jsstring) :
  forallb (fun c => negb (N.eqb c 10) && negb (N.eqb c 13)) s = true -> noLineBreak s.
Proof.
  rewrite forallb_forall. intro H. apply Forall_forall. intros c Hc.
  specialize (H c Hc). apply andb_true_iff in H as [H1 H2].
  apply negb_true_iff in H1, H2. apply N.eqb_neq in H1, H2. tauto.
Qed.

Lemma header_line :
  noLineBreak (join [Csv.comma] Csv.headers) /\
  Csv.nonBlank (join [Csv.comma] Csv.headers) = true /\
  includesChar Csv.semicolon (join [Csv.comma] Csv.headers) = false.
Proof.
  split; [apply noLineBreak_check|split]; vm_compute; reflexivity.
Qed.










(** Why the columns have to be clean for the round trip: white space at
    the ends of a column is trimmed away, a comma in a column written
    without quotes starts a new column, the party null is read as no
    party, and a record without page is read back with page 0. *)
Example import_normalises_columns :
  Csv.parseCSVLine (Csv.quoted (lit " A ")) Csv.comma = [lit "A"] /\
  Csv.parseCSVLine (join [Csv.comma] [lit "4,5"; lit "M"]) Csv.comma
  = [lit "4"; lit "5"; lit "M"] /\
  votedParty (Csv.voterOfCols (Csv.parseCSVLine
     (Csv.row (mkVoter [] [] [] [] [] [] [] [] [] [] [] None (Some (Int 3)) true
                       (Some (lit "null")) None)) Csv.comma)) = None /\
  originalPage (Csv.voterOfCols (Csv.parseCSVLine
     (Csv.row (mkVoter [] [] [] [] [] [] [] [] [] [] [] None None false None None))
     Csv.comma)) = Some (Int 0).
Proof. repeat split; vm_compute; reflexivity. Qed.

(** A double quote inside a text column is written doubled by the
    export; the import drops every double quote it reads, so the quote
    does not come back. *)
Example import_drops_quotes :
  Csv.parseCSVLine (Csv.quoted [65; 34; 66]%N) Csv.comma = [[65; 66]%N].
Proof. reflexivity. Qed.

(** ** Rejection of a file without data *)

Lemma processCSVText_cases (text : jsstring) (source : Csv.Source) (st : AppState) :
  (exists vs, vs <> [] /\
              Csv.processCSVText text source st = (afterImport source vs st, Returned vs)) \/
  Csv.processCSVText text source st
  = (st, Thrown (lit "Data appears to be empty or missing headers.")) \/
  Csv.processCSVText text source st
  = (st, Thrown (lit "No valid voter records parsed.")).
Proof.
  unfold Csv.processCSVText.
  match goal with |- context [Nat.ltb ?n 2] => destruct (Nat.ltb n 2) end;
    [right; left; reflexivity|].
  match goal with |- context [Nat.eqb (length ?l) 0] => remember l as loaded end.
  destruct loaded as [|v vs]; [right; right; reflexivity|].
  left. exists (v :: vs). split; [discriminate|]. cbn [length Nat.eqb].
  unfold afterImport. destruct source; reflexivity.
Qed.

Lemma few_lines_rejected (text : jsstring) (source : Csv.Source) (st : AppState) :
  (length (filter Csv.nonBlank
             (splitLines match text with
                         | c :: r => if N.eqb c 65279 then r else text
                         | [] => text
                         end)) < 2)%nat ->
  Csv.processCSVText text source st
  = (st, Thrown (lit "Data appears to be empty or missing headers.")).
Proof.
  intro H. apply Nat.ltb_lt in H. unfold Csv.processCSVText. rewrite H. reflexivity.
Qed.

Lemma splitLines_app_head (h t : jsstring) :
  noLineBreak h ->
  splitLines (h ++ t) = match splitLines t with
                        | l0 :: ls => (h ++ l0) :: ls
                        | [] => [h]
                        end.
Proof.
  induction 1 as [|c r [H10 H13] _ IH].
  - simpl. destruct (splitLines t) eqn:E; [|reflexivity].
    exfalso. exact (splitLines_nonempty t E).
  - rewrite <- app_comm_cons. rewrite splitLines_cons by assumption. rewrite IH.
    destruct (splitLines t) as [|l0 ls] eqn:E; reflexivity.
Qed.

Lemma blank_not_nonBlank (l : jsstring) : blankText l -> Csv.nonBlank l = false.
Proof.
  intro H. unfold Csv.nonBlank, trim.
  assert (E : trimStart l = []).
  { induction H as [|c r Hc _ IH]; [reflexivity|]. simpl. rewrite Hc. exact IH. }
  rewrite E. reflexivity.
Qed.

Lemma splitLines_blank (n : nat) :
  forall t, (length t <= n)%nat -> blankText t -> Forall blankText (splitLines t).
Proof.
  induction n as [|n IH]; intros t Hlen Ht.
  - destruct t; [|simpl in Hlen; lia]. repeat constructor.
  - destruct t as [|c r]; [repeat constructor|].
    inversion Ht as [|? ? Hc Hr]; subst. simpl in Hlen.
    assert (IHr : Forall blankText (splitLines r)) by (apply IH; [lia|exact Hr]).
    cbn [splitLines]. destruct (N.eqb c 13).
    + destruct r as [|d r']; [exact (Forall_cons _ (Forall_nil _) IHr)|].
      destruct (N.eqb d 10); [|exact (Forall_cons _ (Forall_nil _) IHr)].
      constructor; [constructor|]. apply IH; [simpl in Hlen; lia|].
      inversion Hr; assumption.
    + destruct (N.eqb c 10); [exact (Forall_cons _ (Forall_nil _) IHr)|].
      destruct (splitLines r) as [|l ls]; [repeat constructor; exact Hc|].
      inversion IHr as [|? ? Hl Hls]; subst.
      constructor; [constructor; assumption|exact Hls].
Qed.

Lemma header_only_lines (h tail : jsstring) :
  noLineBreak h -> blankText tail ->
  (length (filter Csv.nonBlank (splitLines (h ++ tail))) < 2)%nat.
Proof.
  intros Hh Ht. rewrite splitLines_app_head by exact Hh.
  pose proof (@splitLines_blank (length tail) tail (le_n _) Ht) as Hb.
  assert (Hnone : forall ls, Forall blankText ls -> filter Csv.nonBlank ls = []).
  { induction 1 as [|l ls Hl _ IH]; [reflexivity|].
    simpl. rewrite (blank_not_nonBlank Hl). exact IH. }
  destruct (splitLines tail) as [|l0 ls].
  - cbn [filter]. destruct (Csv.nonBlank h); simpl; lia.
  - inversion Hb as [|? ? _ Hls]; subst. cbn [filter]. rewrite (Hnone ls Hls).
    destruct (Csv.nonBlank (h ++ l0)); simpl; lia.
Qed.

(** C7.  A file that holds a header line and no data row (with or
    without the byte-order mark; after the header nothing but white
    space and line breaks) is rejected with the error that names the
    condition, Data appears to be empty or missing headers.  And no
    import is partial: either the text yields at least one voter row,
    and then the rows parsed are returned and are exactly the stored
    collection, or the call throws and leaves the state as it was. *)
Theorem import_rejects_header_only_and_is_all_or_nothing
        (source : Csv.Source) (st : AppState) :
  (forall header tail : jsstring,
      noLineBreak header -> blankText tail ->
      Csv.processCSVText (header ++ tail) source st
      = (st, Thrown (lit "Data appears to be empty or missing headers.")) /\
      Csv.processCSVText (Csv.BOM ++ header ++ tail) source st
      = (st, Thrown (lit "Data appears to be empty or missing headers."))) /\
  (forall text : jsstring,
      (exists vs, vs <> [] /\
                  snd (Csv.processCSVText text source st) = Returned vs /\
                  voters (fst (Csv.processCSVText text source st)) = vs) \/
      (exists msg, Csv.processCSVText text source st = (st, Thrown msg))).
Proof.
  split.
  - intros header tail Hh Ht. split.
    + apply few_lines_rejected.
      destruct header as [|c r].
      * cbn [app]. destruct tail as [|c r]; [vm_compute; lia|].
        destruct (N.eqb c 65279).
        -- apply (@header_only_lines [] r); [constructor|inversion Ht; assumption].
        -- apply (@header_only_lines [] (c :: r)); [constructor|exact Ht].
      * cbn [app]. destruct (N.eqb c 65279).
        -- apply header_only_lines; [|exact Ht]. inversion Hh; assumption.
        -- apply (@header_only_lines (c :: r) tail); assumption.
    + apply few_lines_rejected. unfold Csv.BOM. cbn [app].
      change (N.eqb 65279 65279) with true. cbv iota.
      apply header_only_lines; assumption.
  - intro text.
    destruct (processCSVText_cases text source st) as [(vs & Hne & ->)|[-> | ->]].
    + left. exists vs. split; [exact Hne|]. split; [reflexivity|].
      unfold afterImport. destruct source; reflexivity.
    + right. eexists. reflexivity.
    + right. eexists. reflexivity.
Qed.

(* ================================================================== *)
(** * The matcher *)
(* ================================================================== *)

Section Matcher.

Import Regex.

Lemma suffixOf_refl (s : jsstring) : suffixOf s s.
Proof. exists []. reflexivity. Qed.

Lemma suffixOf_trans (a b c : jsstring) : suffixOf a b -> suffixOf b c -> suffixOf a c.
Proof.
  intros [p ->] [q ->]. exists (q ++ p). apply app_assoc.
Qed.

Lemma suffixOf_length (t s : jsstring) : suffixOf t s -> (length t <= length s)%nat.
Proof. intros [p ->]. rewrite length_app. lia. Qed.

Lemma suffixOf_cons (c : char) (t s : jsstring) : suffixOf t s -> suffixOf t (c :: s).
Proof. intros [p ->]. exists (c :: p). reflexivity. Qed.

Lemma suffixOf_firstn (t s : jsstring) :
  suffixOf t s -> s = firstn (length s - length t) s ++ t.
Proof.
  intros [p ->]. rewrite length_app.
  replace (length p + length t - length t)%nat with (length p + 0)%nat by lia.
  rewrite firstn_app_2. simpl. rewrite app_nil_r. reflexivity.
Qed.

Lemma infixOf_suffix (a t s : jsstring) : infixOf a t -> suffixOf t s -> infixOf a s.
Proof.
  intros (l & r & ->) [p ->]. exists (p ++ l), r. rewrite <- app_assoc. reflexivity.
Qed.

(** *** What a match leaves is a suffix of the input *)

Lemma star_S (step : list jsstring -> jsstring -> list state) (g : bool)
      (f : nat) (c : list jsstring) (s : jsstring) :
  star step g (S f) c s =
  if g
  then flat_map (fun y => if Nat.ltb (length (snd y)) (length s)
                          then star step g f (fst y) (snd y) else [])
                (step c s) ++ [(c, s)]
  else (c, s) :: flat_map (fun y => if Nat.ltb (length (snd y)) (length s)
                                    then star step g f (fst y) (snd y) else [])
                          (step c s).
Proof. reflexivity. Qed.

Lemma star_suffix (step : list jsstring -> jsstring -> list state) (g : bool) :
  (forall c s x, In x (step c s) -> suffixOf (snd x) s) ->
  forall fuel c s x, In x (star step g fuel c s) -> suffixOf (snd x) s.
Proof.
  intros Hstep. induction fuel as [|f IH]; intros c s x Hx.
  - destruct Hx as [<-|[]]. apply suffixOf_refl.
  - rewrite star_S in Hx.
    assert (Hcases : x = (c, s) \/
                     In x (flat_map (fun y => if Nat.ltb (length (snd y)) (length s)
                                              then star step g f (fst y) (snd y) else [])
                                    (step c s))).
    { destruct g.
      - apply in_app_or in Hx as [Hx|[<-|[]]]; auto.
      - destruct Hx as [<-|Hx]; auto. }
    destruct Hcases as [->|Hin]; [apply suffixOf_refl|].
    apply in_flat_map in Hin as (y & Hy & Hxy).
    destruct (Nat.ltb (length (snd y)) (length s)); [|contradiction].
    eapply suffixOf_trans; [eapply IH; exact Hxy|eapply Hstep; exact Hy].
Qed.

Lemma run_suffix (n : nat) (r : re) :
  forall c s x, In x (run n r c s) -> suffixOf (snd x) s.
Proof.
  induction r as [|p|a IHa b IHb|a IHa b IHb|g a IHa|a IHa| |]; intros c s x Hx; cbn [run] in Hx.
  - destruct Hx as [<-|[]]. apply suffixOf_refl.
  - destruct s as [|ch t]; [contradiction|]. destruct (p ch); [|contradiction].
    destruct Hx as [<-|[]]. exists [ch]. reflexivity.
  - apply in_flat_map in Hx as (y & Hy & Hxy).
    eapply suffixOf_trans; [eapply IHb; exact Hxy|eapply IHa; exact Hy].
  - apply in_app_or in Hx as [Hx|Hx]; [eapply IHa|eapply IHb]; exact Hx.
  - eapply star_suffix; [exact IHa|exact Hx].
  - apply in_map_iff in Hx as (y & <- & Hy). simpl. eapply IHa; exact Hy.
  - destruct (Nat.eqb (length s) n); [|contradiction].
    destruct Hx as [<-|[]]. apply suffixOf_refl.
  - destruct s; [|contradiction]. destruct Hx as [<-|[]]. apply suffixOf_refl.
Qed.

(** *** The captures of a match are parts of the input *)

Lemma star_caps (step : list jsstring -> jsstring -> list state) (g : bool) :
  (forall c s x, In x (step c s) -> suffixOf (snd x) s) ->
  (forall c s x, In x (step c s) ->
                 exists new, fst x = c ++ new /\ Forall (fun k => infixOf k s) new) ->
  forall fuel c s x, In x (star step g fuel c s) ->
                     exists new, fst x = c ++ new /\ Forall (fun k => infixOf k s) new.
Proof.
  intros Hsuf Hstep. induction fuel as [|f IH]; intros c s x Hx.
  - destruct Hx as [<-|[]]. exists []. rewrite app_nil_r. split; [reflexivity|constructor].
  - rewrite star_S in Hx.
    assert (Hcases : x = (c, s) \/
                     In x (flat_map (fun y => if Nat.ltb (length (snd y)) (length s)
                                              then star step g f (fst y) (snd y) else [])
                                    (step c s))).
    { destruct g.
      - apply in_app_or in Hx as [Hx|[<-|[]]]; auto.
      - destruct Hx as [<-|Hx]; auto. }
    destruct Hcases as [->|Hin].
    { exists []. rewrite app_nil_r. split; [reflexivity|constructor]. }
    apply in_flat_map in Hin as (y & Hy & Hxy).
    destruct (Nat.ltb (length (snd y)) (length s)); [|contradiction].
    destruct (Hstep _ _ _ Hy) as (n1 & E1 & F1).
    destruct (IH _ _ _ Hxy) as (n2 & E2 & F2).
    exists (n1 ++ n2). split; [rewrite E2, E1, app_assoc; reflexivity|].
    apply Forall_app; split; [exact F1|].
    eapply Forall_impl; [|exact F2]. intros k Hk.
    eapply infixOf_suffix; [exact Hk|eapply Hsuf; exact Hy].
Qed.

Lemma run_caps (n : nat) (r : re) :
  forall c s x, In x (run n r c s) ->
                exists new, fst x = c ++ new /\ Forall (fun k => infixOf k s) new.
Proof.
  assert (Hnil : forall (c : list jsstring) (s : jsstring),
             exists new, fst (c, s) = c ++ new /\ Forall (fun k => infixOf k s) new).
  { intros c s. exists []. rewrite app_nil_r. split; [reflexivity|constructor]. }
  induction r as [|p|a IHa b IHb|a IHa b IHb|g a IHa|a IHa| |]; intros c s x Hx; cbn [run] in Hx.
  - destruct Hx as [<-|[]]. apply Hnil.
  - destruct s as [|ch t]; [contradiction|]. destruct (p ch); [|contradiction].
    destruct Hx as [<-|[]]. exists []. rewrite app_nil_r. split; [reflexivity|constructor].
  - apply in_flat_map in Hx as (y & Hy & Hxy).
    destruct (IHa _ _ _ Hy) as (n1 & E1 & F1).
    destruct (IHb _ _ _ Hxy) as (n2 & E2 & F2).
    exists (n1 ++ n2). split; [rewrite E2, E1, app_assoc; reflexivity|].
    apply Forall_app; split; [exact F1|].
    eapply Forall_impl; [|exact F2]. intros k Hk.
    eapply infixOf_suffix; [exact Hk|eapply run_suffix; exact Hy].
  - apply in_app_or in Hx as [Hx|Hx]; [eapply IHa|eapply IHb]; exact Hx.
  - eapply star_caps; [apply run_suffix|exact IHa|exact Hx].
  - apply in_map_iff in Hx as (y & <- & Hy). simpl.
    destruct (IHa _ _ _ Hy) as (n1 & E1 & F1).
    exists (n1 ++ [firstn (length s - length (snd y)) s]).
    split; [rewrite E1, app_assoc; reflexivity|].
    apply Forall_app; split; [exact F1|]. constructor; [|constructor].
    exists [], (snd y). simpl. apply suffixOf_firstn. eapply run_suffix; exact Hy.
  - destruct (Nat.eqb (length s) n); [|contradiction].
    destruct Hx as [<-|[]]. apply Hnil.
  - destruct s; [|contradiction]. destruct Hx as [<-|[]]. apply Hnil.
Qed.

(** *** Whether and where a pattern matches does not depend on the
    captures already made *)

Lemma sameRests_flat_map (f : state -> list state) (l l' : list state) :
  sameRests l l' ->
  (forall c c' s, sameRests (f (c, s)) (f (c', s))) ->
  sameRests (flat_map f l) (flat_map f l').
Proof.
  unfold sameRests. revert l'.
  induction l as [|[c s] l IH]; intros [|[c' s'] l'] H Hf; try discriminate; [reflexivity|].
  simpl in H. injection H as Hs Hl. subst s'.
  cbn [flat_map]. rewrite !map_app. f_equal; [apply Hf|apply IH; assumption].
Qed.

Lemma star_sameRests (step : list jsstring -> jsstring -> list state) (g : bool) :
  (forall c c' s, sameRests (step c s) (step c' s)) ->
  forall fuel c c' s, sameRests (star step g fuel c s) (star step g fuel c' s).
Proof.
  intros Hstep. induction fuel as [|f IH]; intros c c' s; [reflexivity|].
  rewrite !star_S.
  assert (Hmore : sameRests
            (flat_map (fun y => if Nat.ltb (length (snd y)) (length s)
                                then star step g f (fst y) (snd y) else []) (step c s))
            (flat_map (fun y => if Nat.ltb (length (snd y)) (length s)
                                then star step g f (fst y) (snd y) else []) (step c' s))).
  { apply sameRests_flat_map; [apply Hstep|].
    intros d d' t. simpl. destruct (Nat.ltb (length t) (length s)); [apply IH|reflexivity]. }
  unfold sameRests in *. destruct g.
  - rewrite !map_app, Hmore. reflexivity.
  - cbn [map snd]. rewrite Hmore. reflexivity.
Qed.

Lemma run_sameRests (n : nat) (r : re) :
  forall c c' s, sameRests (run n r c s) (run n r c' s).
Proof.
  induction r as [|p|a IHa b IHb|a IHa b IHb|g a IHa|a IHa| |]; intros c c' s; cbn [run].
  - reflexivity.
  - destruct s as [|ch t]; [reflexivity|]. destruct (p ch); reflexivity.
  - apply sameRests_flat_map; [apply IHa|]. intros d d' t. apply IHb.
  - unfold sameRests. rewrite !map_app, (IHa c c' s), (IHb c c' s). reflexivity.
  - apply star_sameRests. exact IHa.
  - unfold sameRests. rewrite !map_map. simpl. apply IHa.
  - destruct (Nat.eqb (length s) n); reflexivity.
  - destruct s; reflexivity.
Qed.

Lemma run_nonempty_caps (n : nat) (r : re) (c c' : list jsstring) (s : jsstring) :
  run n r c s <> [] -> run n r c' s <> [].
Proof.
  intros H E. apply H. pose proof (run_sameRests n r c c' s) as K.
  unfold sameRests in K. rewrite E in K. simpl in K.
  destruct (run n r c s); [reflexivity|discriminate].
Qed.

End Matcher.

(* ================================================================== *)
(** * Where a pattern matches *)
(* ================================================================== *)

Section Exec.

Import Regex.

Lemma suffixOf_cons_inv (c : char) (t s : jsstring) :
  suffixOf t (c :: s) -> t = c :: s \/ suffixOf t s.
Proof.
  intros [[|d p] E]; simpl in E.
  - left. symmetry. exact E.
  - right. injection E as -> ->. exists p. reflexivity.
Qed.

Lemma suffixOf_nil_inv (t : jsstring) : suffixOf t [] -> t = [].
Proof.
  intros [p E]. symmetry in E. apply app_eq_nil in E. tauto.
Qed.

Lemma execFrom_None (n : nat) (r : re) (s : jsstring) :
  forall pre, execFrom n r pre s = None <->
              (forall t, suffixOf t s -> run n r [] t = []).
Proof.
  induction s as [|c s IH]; intro pre; cbn [execFrom].
  - destruct (run n r [] []) as [|x l] eqn:E.
    + split; [|reflexivity]. intros _ t Ht. apply suffixOf_nil_inv in Ht. subst t. exact E.
    + split; [discriminate|]. intro H. specialize (H [] (suffixOf_refl [])). congruence.
  - destruct (run n r [] (c :: s)) as [|x l] eqn:E.
    + rewrite IH. split.
      * intros H t Ht. apply suffixOf_cons_inv in Ht as [->|Ht]; [exact E|apply H; exact Ht].
      * intros H t Ht. apply H. apply suffixOf_cons. exact Ht.
    + split; [discriminate|]. intro H. specialize (H _ (suffixOf_refl (c :: s))). congruence.
Qed.

Lemma execFrom_Some (n : nat) (r : re) (s : jsstring) :
  forall pre m, execFrom n r pre s = Some m ->
                exists t x l, suffixOf t s /\ run n r [] t = x :: l /\
                              matched m = firstn (length t - length (snd x)) t /\
                              groups m = fst x.
Proof.
  induction s as [|c s IH]; intros pre m; cbn [execFrom].
  - destruct (run n r [] []) as [|x l] eqn:E; [discriminate|].
    intro H. injection H as <-. exists [], x, l. simpl.
    repeat split; [apply suffixOf_refl|exact E].
  - destruct (run n r [] (c :: s)) as [|x l] eqn:E.
    + intro H. destruct (IH _ _ H) as (t & y & l' & Ht & Hr & Hm & Hg).
      exists t, y, l'. repeat split; try assumption. apply suffixOf_cons. exact Ht.
    + intro H. injection H as <-. exists (c :: s), x, l.
      repeat split; [apply suffixOf_refl|exact E].
Qed.

Lemma execFrom_head (n : nat) (r : re) (pre s : jsstring) (x : list jsstring * jsstring)
      (l : list (list jsstring * jsstring)) :
  run n r [] s = x :: l ->
  execFrom n r pre s = Some (mkMatch (rev pre) (firstn (length s - length (snd x)) s) (fst x)).
Proof.
  intro E. destruct s; cbn [execFrom]; rewrite E; reflexivity.
Qed.

Lemma run_Seq_In (n : nat) (a b : re) (c : list jsstring) (s : jsstring)
      (x : list jsstring * jsstring) :
  In x (run n (Seq a b) c s) <->
  exists y, In y (run n a c s) /\ In x (run n b (fst y) (snd y)).
Proof.
  change (run n (Seq a b) c s) with (flat_map (fun y => run n b (fst y) (snd y)) (run n a c s)).
  apply in_flat_map.
Qed.

Lemma run_Seq_mono (n : nat) (a b b' : re) :
  (forall c s x, In x (run n b c s) -> In x (run n b' c s)) ->
  forall c s x, In x (run n (Seq a b) c s) -> In x (run n (Seq a b') c s).
Proof.
  intros H c s x Hx. apply run_Seq_In in Hx as (y & Hy & Hxy).
  apply run_Seq_In. exists y. split; [exact Hy|apply H; exact Hxy].
Qed.

Lemma run_Alt_In (n : nat) (a b : re) (c : list jsstring) (s : jsstring)
      (x : list jsstring * jsstring) :
  In x (run n (Alt a b) c s) <-> In x (run n a c s) \/ In x (run n b c s).
Proof.
  change (run n (Alt a b) c s) with (run n a c s ++ run n b c s). apply in_app_iff.
Qed.

(** A character class repeated a fixed number of times reads exactly
    that many characters of the class. *)
Lemma run_times_Cls (n : nat) (p : char -> bool) (l rest : jsstring) :
  Forall (fun x => p x = true) l ->
  forall c, run n (times (length l) (Cls p)) c (l ++ rest) = [(c, rest)].
Proof.
  induction 1 as [|x l Hx _ IH]; intro c; [reflexivity|].
  change (run n (times (length (x :: l)) (Cls p)) c ((x :: l) ++ rest))
    with (flat_map (fun y => run n (times (length l) (Cls p)) (fst y) (snd y))
                   (if p x then [(c, l ++ rest)] else [])).
  rewrite Hx. cbn [flat_map fst snd]. rewrite IH. reflexivity.
Qed.

End Exec.

(* ================================================================== *)
(** * The field extractor *)
(* ================================================================== *)

Section Fields.

Import Regex OcrService.

(** Wherever RELATIVE matches, NAME matches too: after the relation
    word RELATIVE asks for what NAME asks for, with fewer ways to end. *)
Lemma relative_needs_name (s : jsstring) :
  exec PATTERNS.NAME s = None -> exec PATTERNS.RELATIVE s = None.
Proof.
  unfold exec. intro H. rewrite execFrom_None in H. apply execFrom_None. intros t Ht.
  destruct (run (length s) PATTERNS.RELATIVE [] t) as [|x l] eqn:E; [reflexivity|exfalso].
  assert (Hx : In x (run (length s) PATTERNS.RELATIVE [] t)) by (rewrite E; left; reflexivity).
  unfold PATTERNS.RELATIVE in Hx.
  apply run_Seq_In in Hx as (y & Hy & Hx).
  apply run_Seq_In in Hx as (z & Hz & Hx).
  assert (Hname : In x (run (length s) PATTERNS.NAME (fst z) (snd z))).
  { unfold PATTERNS.NAME. revert Hx.
    apply run_Seq_mono. apply run_Seq_mono. apply run_Seq_mono.
    intros c u w Hw. cbn [alts] in Hw |- *.
    do 4 (apply run_Alt_In; right). exact Hw. }
  assert (Hs : suffixOf (snd z) s).
  { eapply suffixOf_trans; [eapply run_suffix; exact Hz|].
    eapply suffixOf_trans; [eapply run_suffix; exact Hy|exact Ht]. }
  specialize (H _ Hs).
  apply (@run_nonempty_caps (length s) PATTERNS.NAME (fst z) [] (snd z)); [|exact H].
  intro K. rewrite K in Hname. contradiction.
Qed.

Lemma run_Cls_Seq (n : nat) (p : char -> bool) (r : re) (c : list jsstring)
      (t : jsstring) (y : list jsstring * jsstring) :
  In y (run n (Seq (Cls p) r) c t) ->
  exists ch t', t = ch :: t' /\ p ch = true /\ In y (run n r c t').
Proof.
  intro H. apply run_Seq_In in H as (z & Hz & Hy). cbn [run] in Hz.
  destruct t as [|ch t']; [contradiction|].
  destruct (p ch) eqn:E; [|contradiction].
  destruct Hz as [<-|[]]. exists ch, t'. repeat split; assumption.
Qed.

(** NAME matches only where the word Name stands. *)
Lemma name_needs_label (line : jsstring) :
  (forall t, suffixOf t line -> startsWithName t = false) ->
  exec PATTERNS.NAME line = None.
Proof.
  intro H. unfold exec. apply execFrom_None. intros t Ht.
  destruct (run (length line) PATTERNS.NAME [] t) as [|x l] eqn:E; [reflexivity|exfalso].
  assert (Hx : In x (run (length line) PATTERNS.NAME [] t)) by (rewrite E; left; reflexivity).
  unfold PATTERNS.NAME in Hx. apply run_Seq_In in Hx as (y & Hy & _).
  cbn [wordI] in Hy.
  apply run_Cls_Seq in Hy as (c1 & t1 & -> & H1 & Hy).
  apply run_Cls_Seq in Hy as (c2 & t2 & -> & H2 & Hy).
  apply run_Cls_Seq in Hy as (c3 & t3 & -> & H3 & Hy).
  apply run_Cls_Seq in Hy as (c4 & t4 & -> & H4 & _).
  specialize (H _ Ht). cbn [startsWithName] in H.
  change (N.eqb (canon c1) 78 = true) in H1. change (N.eqb (canon c2) 65 = true) in H2.
  change (N.eqb (canon c3) 77 = true) in H3. change (N.eqb (canon c4) 69 = true) in H4.
  rewrite H1, H2, H3, H4 in H. discriminate.
Qed.

(** C10.  For every flattened card text in which the NAME pattern
    finds no Name label (in particular for every text in which the
    word Name does not occur, in any letter case), the field extractor
    (a total function: no input makes it fail) gives the name Unknown
    and an empty relative name; every other field whose pattern does
    not match is the empty string; and the record built from the card
    carries these values. *)
Theorem no_name_label_gives_unknown (line : jsstring) :
  exec PATTERNS.NAME line = None \/
  (forall t, suffixOf t line -> startsWithName t = false) ->
  f_name_en (extractFields line) = lit "Unknown" /\
  f_relative_name (extractFields line) = [] /\
  (exec PATTERNS.HOUSE line = None -> f_house_no (extractFields line) = []) /\
  (exec PATTERNS.AGE_GENDER line = None ->
   f_age (extractFields line) = [] /\ f_gender (extractFields line) = []) /\
  (exec SL_NO line = None -> f_sl_no (extractFields line) = []) /\
  (forall epic assembly pollingStation photo page,
      name_en (voterOfCard line epic assembly pollingStation photo page) = lit "Unknown" /\
      relative_name (voterOfCard line epic assembly pollingStation photo page) = []).
Proof.
  intro H0.
  assert (H : exec PATTERNS.NAME line = None).
  { destruct H0 as [H|H]; [exact H|apply name_needs_label; exact H]. }
  clear H0. pose proof (relative_needs_name line H) as Hr.
  unfold voterOfCard, extractFields; cbn [f_name_en f_relative_name f_house_no f_age
    f_gender f_sl_no name_en relative_name].
  rewrite H, Hr. cbn [trimmedGroup].
  repeat split; try reflexivity.
  - intros ->. reflexivity.
  - rewrite H0. reflexivity.
  - rewrite H0. reflexivity.
  - intros ->. reflexivity.
Qed.

(** ** The normalised id *)

Lemma replaceChar_map (c r : char) (s : jsstring) :
  replaceChar c [r] s = map (fun x => if N.eqb x c then r else x) s.
Proof.
  unfold replaceChar. induction s as [|x s IH]; [reflexivity|].
  simpl. rewrite IH. destruct (N.eqb x c); reflexivity.
Qed.

Lemma epicOf_matched (text : jsstring) (m : MatchResult) :
  exec PATTERNS.EPIC text = Some m ->
  epicOf text = map (fun x => if N.eqb x 79 then 48%N else x) (matched m).
Proof.
  intro H. unfold epicOf. rewrite H. apply replaceChar_map.
Qed.

(** EPIC reads a text of three capitals and seven characters that are
    digits or the capital O as a whole. *)
Lemma exec_EPIC_strict (letters digits : jsstring) :
  length letters = 3%nat -> Forall (fun c => isUpperAZ c = true) letters ->
  length digits = 7%nat ->
  Forall (fun c => (N.eqb c (chr "O") || isDigit c) = true) digits ->
  exec PATTERNS.EPIC (letters ++ digits)
  = Some (mkMatch [] (letters ++ digits) [letters ++ digits]).
Proof.
  intros Hl Hu Hd Ho. unfold exec.
  pose proof (@run_times_Cls (length (letters ++ digits)) _ letters digits Hu []) as R1.
  pose proof (@run_times_Cls (length (letters ++ digits)) _ digits [] Ho []) as R2.
  rewrite Hl in R1. rewrite Hd, app_nil_r in R2.
  erewrite execFrom_head.
  2:{ unfold PATTERNS.EPIC.
      change (run ?n (Grp (Alt (Seq ?a ?b) ?c)) [] ?s)
        with (map (fun x => (fst x ++ [firstn (length s - length (snd x)) s], snd x))
                  (flat_map (fun y => run n b (fst y) (snd y)) (run n a [] s) ++ run n c [] s)).
      rewrite R1. cbn [flat_map fst snd]. rewrite R2. cbn [app map fst snd]. reflexivity. }
  cbn [fst snd rev length]. rewrite Nat.sub_0_r, firstn_all. reflexivity.
Qed.

End Fields.

Section Names.

Import Regex OcrService.

Lemma infixOf_trans (a b c : jsstring) : infixOf a b -> infixOf b c -> infixOf a c.
Proof.
  intros (l & r & ->) (l' & r' & ->). exists (l' ++ l), (r ++ r').
  rewrite <- !app_assoc. reflexivity.
Qed.

Lemma trimStart_suffix (s : jsstring) : suffixOf (trimStart s) s.
Proof.
  induction s as [|c s IH]; simpl; [apply suffixOf_refl|].
  destruct (isWhiteSpace c); [apply suffixOf_cons; exact IH|apply suffixOf_refl].
Qed.

Lemma trim_infix (s : jsstring) : infixOf (trim s) s.
Proof.
  unfold trim, trimEnd.
  destruct (trimStart_suffix s) as [p Hp].
  destruct (trimStart_suffix (rev (trimStart s))) as [q Hq].
  exists p, (rev q).
  apply (f_equal (@rev N)) in Hq. rewrite rev_involutive, rev_app_distr in Hq.
  rewrite <- Hq. exact Hp.
Qed.

(** The captures of a match are parts of the text matched against. *)
Lemma exec_groups_infix (r : re) (s : jsstring) (m : MatchResult) :
  exec r s = Some m -> Forall (fun k => infixOf k s) (groups m).
Proof.
  unfold exec. intro H.
  apply execFrom_Some in H as (t & x & l & Ht & Hr & _ & Hg).
  assert (Hx : In x (run (length s) r [] t)) by (rewrite Hr; left; reflexivity).
  apply run_caps in Hx as (new & E & F). simpl in E. rewrite Hg, E.
  eapply Forall_impl; [|exact F]. intros k Hk.
  eapply infixOf_suffix; [exact Hk|exact Ht].
Qed.

Lemma group_infix (r : re) (s : jsstring) (m : MatchResult) (i : nat) :
  exec r s = Some m -> infixOf (group i m) s.
Proof.
  intro H. apply exec_groups_infix in H. unfold group.
  destruct (nth_in_or_default (i - 1) (groups m) []) as [Hin| ->].
  - rewrite Forall_forall in H. apply H. exact Hin.
  - exists [], s. reflexivity.
Qed.

Lemma trimmedGroup_infix (r : re) (s dflt : jsstring) (i : nat) :
  trimmedGroup i dflt (exec r s) = dflt \/ infixOf (trimmedGroup i dflt (exec r s)) s.
Proof.
  destruct (exec r s) as [m|] eqn:E; [right|left; reflexivity].
  simpl. eapply infixOf_trans; [apply trim_infix|]. eapply group_infix; exact E.
Qed.

(** What the match of EPIC consumes is never empty. *)
Lemma run_EPIC_consumes (n : nat) (c : list jsstring) (s : jsstring)
      (x : list jsstring * jsstring) :
  In x (run n PATTERNS.EPIC c s) -> (length (snd x) < length s)%nat.
Proof.
  unfold PATTERNS.EPIC. intro Hx.
  change (run n (Grp ?a) c s)
    with (map (fun x => (fst x ++ [firstn (length s - length (snd x)) s], snd x))
              (run n a c s)) in Hx.
  apply in_map_iff in Hx as (y & <- & Hy). simpl.
  assert (Hfirst : forall (p : char -> bool) (rest : re) (z : list jsstring * jsstring),
             In z (run n (Seq (Cls p) rest) c s) -> (length (snd z) < length s)%nat).
  { intros p rest z Hz. apply run_Seq_In in Hz as (w & Hw & Hz).
    apply run_suffix in Hz. apply suffixOf_length in Hz.
    cbn [run] in Hw. destruct s as [|ch t]; [contradiction|].
    destruct (p ch); [|contradiction]. destruct Hw as [<-|[]]. simpl in *. lia. }
  apply run_Alt_In in Hy as [Hy|Hy].
  - apply run_Seq_In in Hy as (w & Hw & Hy).
    apply run_suffix in Hy. apply suffixOf_length in Hy.
    apply Hfirst in Hw. lia.
  - apply run_Seq_In in Hy as (w & Hw & Hy).
    apply run_suffix in Hy. apply suffixOf_length in Hy.
    unfold atLeast in Hw. apply run_Seq_In in Hw as (w' & Hw' & Hw).
    apply run_suffix in Hw. apply suffixOf_length in Hw.
    apply Hfirst in Hw'. lia.
Qed.

Lemma exec_EPIC_nonempty (text : jsstring) (m : MatchResult) :
  exec PATTERNS.EPIC text = Some m -> matched m <> [].
Proof.
  unfold exec. intro H.
  apply execFrom_Some in H as (t & x & l & Ht & Hr & Hm & _).
  assert (Hx : In x (run (length text) PATTERNS.EPIC [] t)) by (rewrite Hr; left; reflexivity).
  apply run_EPIC_consumes in Hx. rewrite Hm.
  destruct t as [|ch t']; [simpl in Hx; lia|].
  destruct (length (ch :: t') - length (snd x))%nat eqn:E; [lia|]. discriminate.
Qed.

Lemma epicOf_nonempty (text : jsstring) :
  test PATTERNS.EPIC text = true -> epicOf text <> [].
Proof.
  unfold test, epicOf. destruct (exec PATTERNS.EPIC text) as [m|] eqn:E; [|discriminate].
  intros _. apply exec_EPIC_nonempty in E. rewrite replaceChar_map.
  destruct (matched m); [congruence|discriminate].
Qed.

Lemma voterOfCard_names (line epic assembly pollingStation : jsstring)
      (photo : option jsstring) (page : number) :
  let v := voterOfCard line epic assembly pollingStation photo page in
  epic_no v = epic /\
  (name_en v = lit "Unknown" \/ infixOf (name_en v) line) /\
  (relative_name v = [] \/ infixOf (relative_name v) line).
Proof.
  cbv zeta. unfold voterOfCard, extractFields.
  cbn [epic_no name_en relative_name f_name_en f_relative_name].
  split; [reflexivity|]. split; apply trimmedGroup_infix.
Qed.

(** C4.  Whenever the id pattern matches a text, the normalised id is
    the matched text with every capital O replaced by the digit 0 and
    every other character kept, so no capital O is left in it.  A text
    of three capitals and seven characters that are digits or O is
    matched whole, and its digit segment comes out as digits only; the
    raw text ABC12O4567 becomes ABC1204567.  The replacement touches the
    id alone: every record of either strategy has the normalised id of
    its anchor, and its name and relative name are the default or a
    contiguous part of the card text, character for character. *)
Theorem epic_replaces_O_in_id_only :
  (forall text m,
      exec PATTERNS.EPIC text = Some m ->
      epicOf text = map (fun x => if N.eqb x (chr "O") then chr "0" else x) (matched m) /\
      length (epicOf text) = length (matched m) /\
      ~ In (chr "O") (epicOf text)) /\
  (forall letters digits,
      length letters = 3%nat -> Forall (fun c => isUpperAZ c = true) letters ->
      length digits = 7%nat ->
      Forall (fun c => (N.eqb c (chr "O") || isDigit c) = true) digits ->
      epicOf (letters ++ digits)
      = map (fun x => if N.eqb x (chr "O") then chr "0" else x) letters
        ++ map (fun x => if N.eqb x (chr "O") then chr "0" else x) digits /\
      Forall (fun c => isDigit c = true)
             (map (fun x => if N.eqb x (chr "O") then chr "0" else x) digits)) /\
  epicOf (lit "ABC12O4567") = lit "ABC1204567" /\
  (forall (sortBy : forall A : Type, (A -> A -> Q) -> list A -> list A)
          (items : list Item) (pageNum : number) (v : Voter),
      In v (votersOfItems sortBy items pageNum) ->
      exists epicItem,
        In epicItem items /\ test PATTERNS.EPIC (text epicItem) = true /\
        epic_no v = epicOf (text epicItem) /\
        (name_en v = lit "Unknown"
         \/ infixOf (name_en v) (fullCardText sortBy items epicItem)) /\
        (relative_name v = []
         \/ infixOf (relative_name v) (fullCardText sortBy items epicItem))) /\
  (forall (sortBy : forall A : Type, (A -> A -> Q) -> list A -> list A)
          (cropImage : jsstring -> list Q -> jsstring) (base64Image : jsstring)
          (words : list Word) (pageNumber : number) (includePhotos : bool) (v : Voter),
      In v (votersOfWords sortBy cropImage base64Image words pageNumber includePhotos) ->
      exists epicWord,
        In epicWord words /\ test PATTERNS.EPIC (wtext epicWord) = true /\
        epic_no v = epicOf (wtext epicWord) /\
        (name_en v = lit "Unknown"
         \/ infixOf (name_en v)
                    (join [32%N] (map wtext (sortedCardWords sortBy words epicWord)))) /\
        (relative_name v = []
         \/ infixOf (relative_name v)
                    (join [32%N] (map wtext (sortedCardWords sortBy words epicWord))))).
Proof.
  split; [|split; [|split; [|split]]].
  - intros text m H. rewrite (epicOf_matched text H).
    split; [reflexivity|]. split; [apply length_map|].
    intro Hin. apply in_map_iff in Hin as (x & Hx & _).
    change (chr "O") with 79%N in Hx. change (chr "0") with 48%N in Hx.
    destruct (N.eqb x 79) eqn:E; [discriminate|].
    apply N.eqb_neq in E. congruence.
  - intros letters digits Hl Hu Hd Ho. split.
    + rewrite (epicOf_matched _ (exec_EPIC_strict Hl Hu Hd Ho)).
      cbn [matched]. apply map_app.
    + apply Forall_map. eapply Forall_impl; [|exact Ho].
      intros c Hc. cbv beta in Hc |- *. change (chr "O") with 79%N in *.
      destruct (N.eqb c 79); [reflexivity|exact Hc].
  - vm_compute. reflexivity.
  - intros sortBy items pageNum v Hv. unfold votersOfItems in Hv. cbv zeta in Hv.
    apply in_map_iff in Hv as (a & <- & Ha).
    unfold epicItems in Ha. apply filter_In in Ha as [Hin Htest].
    exists a. split; [exact Hin|]. split; [exact Htest|]. apply voterOfCard_names.
  - intros sortBy cropImage base64Image words pageNumber includePhotos v Hv.
    unfold votersOfWords in Hv. cbv zeta in Hv.
    apply in_flat_map in Hv as (a & Ha & Hv).
    unfold epics in Ha. apply filter_In in Ha as [Hin Htest].
    exists a. split; [exact Hin|]. split; [exact Htest|].
    destruct (epicOf (wtext a)) as [|c r] eqn:E; [contradiction|].
    destruct Hv as [<-|[]]. rewrite <- E. apply voterOfCard_names.
Qed.

End Names.

(* ================================================================== *)
(** * The search window *)
(* ================================================================== *)

Section Window.

Import OcrService.

Lemma digitalOffsets_values (epicItem : Item) :
  (toLeft (digitalOffsets epicItem) == 200 /\
   toRight (digitalOffsets epicItem) == 200 /\
   above (digitalOffsets epicItem) == 60 /\
   below (digitalOffsets epicItem) == 120)%Q.
Proof.
  unfold digitalOffsets, regionOf; cbn [toLeft toRight above below xMin xMax yMin yMax].
  repeat split; ring.
Qed.

Lemma ocrOffsets_values (epicWord : Word) :
  (toLeft (ocrOffsets epicWord) == 250 /\
   toRight (ocrOffsets epicWord) == 100 /\
   above (ocrOffsets epicWord) == 20 /\
   below (ocrOffsets epicWord) == 140)%Q.
Proof.
  unfold ocrOffsets, cardRegion; cbn [toLeft toRight above below x0 x1 y0 y1].
  repeat split; ring.
Qed.

(** C6, as it is stated, fails: the window of the text-layer strategy
    around an anchor at the origin reaches 200 to either side and only
    60 above and 120 below, so neither vertical reach exceeds a
    horizontal one. *)
Lemma window_is_not_deeper_than_wide :
  ~ (forall (epicItem : Item) (epicWord : Word),
        deeperThanWide (digitalOffsets epicItem) /\ deeperThanWide (ocrOffsets epicWord)).
Proof.
  intro H.
  destruct (H (mkItem [] 0 0 0 0) (mkWord [] (mkBBox 0 0 0 0))) as [Hd _].
  unfold deeperThanWide in Hd.
  destruct Hd as [Hd|[Hd|[Hd|Hd]]]; vm_compute in Hd; discriminate.
Qed.

(** C6, as the code has it.  For every anchor the window is offset from
    the anchor by fixed amounts, in the text-layer strategy 200 to the
    left and to the right, 60 above and 120 below, in the OCR strategy
    250 to the left of the anchor box, 100 to its right, 20 above and
    140 below.  In both strategies the window is asymmetric top to
    bottom, deeper below the anchor than above it, and in both it
    reaches further sideways than up and down. *)
Theorem window_offsets_are_asymmetric (epicItem : Item) (epicWord : Word) :
  ((toLeft (digitalOffsets epicItem) == 200 /\ toRight (digitalOffsets epicItem) == 200 /\
    above (digitalOffsets epicItem) == 60 /\ below (digitalOffsets epicItem) == 120) /\
   (toLeft (ocrOffsets epicWord) == 250 /\ toRight (ocrOffsets epicWord) == 100 /\
    above (ocrOffsets epicWord) == 20 /\ below (ocrOffsets epicWord) == 140) /\
   (above (digitalOffsets epicItem) < below (digitalOffsets epicItem) /\
    above (ocrOffsets epicWord) < below (ocrOffsets epicWord)) /\
   (above (digitalOffsets epicItem) + below (digitalOffsets epicItem)
    < toLeft (digitalOffsets epicItem) + toRight (digitalOffsets epicItem) /\
    above (ocrOffsets epicWord) + below (ocrOffsets epicWord)
    < toLeft (ocrOffsets epicWord) + toRight (ocrOffsets epicWord)))%Q.
Proof.
  pose proof (digitalOffsets_values epicItem) as (D1 & D2 & D3 & D4).
  pose proof (ocrOffsets_values epicWord) as (O1 & O2 & O3 & O4).
  repeat split; try assumption; lra.
Qed.

End Window.

(* ================================================================== *)
(** * The region clusterer *)
(* ================================================================== *)

Lemma insertBy_perm (A : Type) (cmp : A -> A -> Q) (a : A) (l : list A) :
  Permutation (insertBy cmp a l) (a :: l).
Proof.
  induction l as [|b r IH]; simpl; [apply Permutation_refl|].
  destruct (Qltb 0 (cmp a b)); [|apply Permutation_refl].
  eapply Permutation_trans; [apply perm_skip; exact IH|apply perm_swap].
Qed.

Lemma insertionSort_perm (A : Type) (cmp : A -> A -> Q) (l : list A) :
  Permutation (insertionSort cmp l) l.
Proof.
  induction l as [|a l IH]; simpl; [constructor|].
  eapply Permutation_trans; [apply insertBy_perm|apply perm_skip; exact IH].
Qed.

Lemma ordPairs_apart (A : Type) (R : A -> A -> Prop) (l : list A) :
  (forall a b, R a b -> R b a) ->
  ForallOrdPairs R l ->
  forall a b, In a l -> In b l -> a = b \/ R a b.
Proof.
  intros Hsym H. induction H as [|x l Hx _ IH]; intros a b Ha Hb; [contradiction|].
  rewrite Forall_forall in Hx.
  destruct Ha as [<-|Ha], Hb as [<-|Hb]; auto.
Qed.

Lemma apart_sym (r1 r2 : OcrService.Region) : apart r1 r2 -> apart r2 r1.
Proof. unfold apart. tauto. Qed.

Lemma apartBoxes_sym (r1 r2 : OcrService.BBox) : apartBoxes r1 r2 -> apartBoxes r2 r1.
Proof. unfold apartBoxes. tauto. Qed.

Section Clusterer.

Import Regex OcrService.

Variable sortBy : forall A : Type, (A -> A -> Q) -> list A -> list A.
Hypothesis sortBy_perm : forall (A : Type) (cmp : A -> A -> Q) (l : list A),
    Permutation (sortBy cmp l) l.
Variable cropImage : jsstring -> list Q -> jsstring.

Lemma inRegion_true (r : Region) (i : Item) :
  inRegion r i = true <->
  (xMin r <= x i /\ x i <= xMax r /\ yMin r <= y i /\ y i <= yMax r)%Q.
Proof.
  unfold inRegion. rewrite !andb_true_iff, !Qle_bool_iff. tauto.
Qed.

Lemma inCard_true (r : BBox) (wd : Word) :
  inCard r wd = true <-> wordWithin r wd.
Proof.
  unfold inCard, wordWithin. cbv zeta. rewrite !andb_true_iff, !Qle_bool_iff. tauto.
Qed.

(** A token clearly inside one window is outside every window apart
    from it. *)
Lemma clearlyInside_excludes (r r' : Region) (i : Item) :
  clearlyInside r i -> apart r r' -> inRegion r' i = false.
Proof.
  intros (Hw & Hh & H1 & H2 & H3 & H4) Ha.
  destruct (inRegion r' i) eqn:E; [|reflexivity].
  apply inRegion_true in E. destruct E as (E1 & E2 & E3 & E4).
  unfold apart in Ha. exfalso. destruct Ha as [Ha|[Ha|[Ha|Ha]]]; lra.
Qed.

Lemma wordClearlyInside_excludes (r r' : BBox) (wd : Word) :
  wordClearlyInside r wd -> apartBoxes r r' -> inCard r' wd = false.
Proof.
  unfold wordClearlyInside. cbv zeta. intros (Hw & Hh & H1 & H2 & H3 & H4) Ha.
  destruct (inCard r' wd) eqn:E; [|reflexivity].
  apply inCard_true in E. unfold wordWithin in E. cbv zeta in E.
  destruct E as (E1 & E2 & E3 & E4).
  unfold apartBoxes in Ha. exfalso. destruct Ha as [Ha|[Ha|[Ha|Ha]]]; lra.
Qed.

Lemma sortedCardItems_In (items : list Item) (epicItem i : Item) :
  In i (sortedCardItems sortBy items epicItem) <->
  In i items /\ inRegion (regionOf epicItem) i = true.
Proof.
  unfold sortedCardItems, cardItems. rewrite <- filter_In. split; intro H.
  - eapply Permutation_in; [apply sortBy_perm|exact H].
  - eapply Permutation_in; [apply Permutation_sym, sortBy_perm|exact H].
Qed.

Lemma sortedCardWords_In (words : list Word) (epicWord wd : Word) :
  In wd (sortedCardWords sortBy words epicWord) <->
  In wd words /\ inCard (cardRegion epicWord) wd = true.
Proof.
  unfold sortedCardWords, cardWords. rewrite <- filter_In. split; intro H.
  - eapply Permutation_in; [apply sortBy_perm|exact H].
  - eapply Permutation_in; [apply Permutation_sym, sortBy_perm|exact H].
Qed.

Lemma votersOfItems_length (items : list Item) (pageNum : number) :
  length (votersOfItems sortBy items pageNum) = length (epicItems items).
Proof. unfold votersOfItems. apply length_map. Qed.

Lemma votersOfWords_length (base64Image : jsstring) (words : list Word)
      (pageNumber : number) (includePhotos : bool) :
  length (votersOfWords sortBy cropImage base64Image words pageNumber includePhotos)
  = length (epics words).
Proof.
  unfold votersOfWords. cbv zeta.
  assert (Hall : Forall (fun wd => test PATTERNS.EPIC (wtext wd) = true) (epics words)).
  { apply Forall_forall. intros wd Hwd. unfold epics in Hwd.
    apply filter_In in Hwd. tauto. }
  induction Hall as [|wd l Hwd _ IH]; [reflexivity|].
  cbn [flat_map]. rewrite length_app, IH.
  pose proof (epicOf_nonempty _ Hwd) as Hne.
  destruct (epicOf (wtext wd)); [congruence|reflexivity].
Qed.

(** The clusterer of the text-layer strategy on a well-separated page. *)
Lemma digital_regions (items : list Item) :
  ForallOrdPairs (fun a b => apart (regionOf a) (regionOf b)) (epicItems items) ->
  (forall i, In i items ->
             exists a, In a (epicItems items) /\ clearlyInside (regionOf a) i) ->
  forall a i, In a (epicItems items) -> In i (sortedCardItems sortBy items a) ->
              clearlyInside (regionOf a) i /\
              (forall b, In b (epicItems items) -> b <> a ->
                         ~ In i (sortedCardItems sortBy items b)).
Proof.
  intros Hsep Hclu a i Ha Hi.
  assert (Hpair : forall u v, In u (epicItems items) -> In v (epicItems items) ->
                              u = v \/ apart (regionOf u) (regionOf v)).
  { apply (ordPairs_apart (R := fun u v => apart (regionOf u) (regionOf v)));
      [intros u v; apply apart_sym|exact Hsep]. }
  apply sortedCardItems_In in Hi as [Hin Hreg].
  destruct (Hclu i Hin) as (o & Ho & Hclear).
  assert (Hoa : o = a).
  { destruct (Hpair o a Ho Ha) as [E|Hap]; [exact E|].
    rewrite (clearlyInside_excludes Hclear Hap) in Hreg. discriminate. }
  subst o. split; [exact Hclear|].
  intros b Hb Hne Hib. apply sortedCardItems_In in Hib as [_ Hregb].
  destruct (Hpair a b Ha Hb) as [E|Hap]; [congruence|].
  rewrite (clearlyInside_excludes Hclear Hap) in Hregb. discriminate.
Qed.

(** The clusterer of the OCR strategy on a well-separated page. *)
Lemma ocr_regions (words : list Word) :
  ForallOrdPairs (fun a b => apartBoxes (cardRegion a) (cardRegion b)) (epics words) ->
  (forall wd, In wd words ->
              exists a, In a (epics words) /\ wordClearlyInside (cardRegion a) wd) ->
  forall a wd, In a (epics words) -> In wd (sortedCardWords sortBy words a) ->
               wordClearlyInside (cardRegion a) wd /\
               (forall b, In b (epics words) -> b <> a ->
                          ~ In wd (sortedCardWords sortBy words b)).
Proof.
  intros Hsep Hclu a wd Ha Hi.
  assert (Hpair : forall u v, In u (epics words) -> In v (epics words) ->
                              u = v \/ apartBoxes (cardRegion u) (cardRegion v)).
  { apply (ordPairs_apart (R := fun u v => apartBoxes (cardRegion u) (cardRegion v)));
      [intros u v; apply apartBoxes_sym|exact Hsep]. }
  apply sortedCardWords_In in Hi as [Hin Hreg].
  destruct (Hclu wd Hin) as (o & Ho & Hclear).
  assert (Hoa : o = a).
  { destruct (Hpair o a Ho Ha) as [E|Hap]; [exact E|].
    rewrite (wordClearlyInside_excludes Hclear Hap) in Hreg. discriminate. }
  subst o. split; [exact Hclear|].
  intros b Hb Hne Hib. apply sortedCardWords_In in Hib as [_ Hregb].
  destruct (Hpair a b Ha Hb) as [E|Hap]; [congruence|].
  rewrite (wordClearlyInside_excludes Hclear Hap) in Hregb. discriminate.
Qed.

Lemma clearlyInside_boxWithin (r : Region) (i : Item) : clearlyInside r i -> boxWithin r i.
Proof. unfold clearlyInside, boxWithin. intros (? & ? & ? & ? & ? & ?). repeat split; lra. Qed.

Lemma wordClearlyInside_within (r : BBox) (wd : Word) :
  wordClearlyInside r wd -> wordWithin r wd.
Proof.
  unfold wordClearlyInside, wordWithin. cbv zeta.
  intros (? & ? & ? & ? & ? & ?). repeat split; lra.
Qed.

(** C8.  On a page with exactly three id anchors whose windows are
    apart (the anchors are at least a window width, or a window height,
    from one another) and whose tokens each lie clearly inside the
    window of an anchor, both strategies produce exactly three regions
    and three records, one per anchor; every token of a region has its
    box within the window of that region's anchor, and it is in the
    region of no other anchor. *)
Theorem three_anchors_three_clean_regions
        (items : list Item) (words : list Word)
        (pageNum : number) (base64Image : jsstring) (includePhotos : bool) :
  (length (epicItems items) = 3%nat ->
   ForallOrdPairs (fun a b => apart (regionOf a) (regionOf b)) (epicItems items) ->
   (forall i, In i items ->
              exists a, In a (epicItems items) /\ clearlyInside (regionOf a) i) ->
   length (map (sortedCardItems sortBy items) (epicItems items)) = 3%nat /\
   length (votersOfItems sortBy items pageNum) = 3%nat /\
   forall a i, In a (epicItems items) -> In i (sortedCardItems sortBy items a) ->
               boxWithin (regionOf a) i /\
               (forall b, In b (epicItems items) -> b <> a ->
                          ~ In i (sortedCardItems sortBy items b))) /\
  (length (epics words) = 3%nat ->
   ForallOrdPairs (fun a b => apartBoxes (cardRegion a) (cardRegion b)) (epics words) ->
   (forall wd, In wd words ->
               exists a, In a (epics words) /\ wordClearlyInside (cardRegion a) wd) ->
   length (map (sortedCardWords sortBy words) (epics words)) = 3%nat /\
   length (votersOfWords sortBy cropImage base64Image words pageNum includePhotos) = 3%nat /\
   forall a wd, In a (epics words) -> In wd (sortedCardWords sortBy words a) ->
                wordWithin (cardRegion a) wd /\
                (forall b, In b (epics words) -> b <> a ->
                           ~ In wd (sortedCardWords sortBy words b))).
Proof.
  split.
  - intros H3 Hsep Hclu. split; [|split].
    + rewrite length_map. exact H3.
    + rewrite votersOfItems_length. exact H3.
    + intros a i Ha Hi. destruct (@digital_regions items Hsep Hclu a i Ha Hi) as [Hc Hx].
      split; [apply clearlyInside_boxWithin; exact Hc|exact Hx].
  - intros W3 Wsep Wclu. split; [|split].
    + rewrite length_map. exact W3.
    + rewrite votersOfWords_length. exact W3.
    + intros a wd Ha Hi. destruct (@ocr_regions words Wsep Wclu a wd Ha Hi) as [Hc Hx].
      split; [apply wordClearlyInside_within; exact Hc|exact Hx].
Qed.

End Clusterer.

(* ================================================================== *)
(** * The local fallback *)
(* ================================================================== *)

Lemma list_sum_perm (l l' : list nat) : Permutation l l' -> list_sum l = list_sum l'.
Proof.
  induction 1; simpl; lia.
Qed.

Lemma length_flat_map_sum (A B : Type) (f : A -> list B) (l : list A) :
  length (flat_map f l) = list_sum (map (fun a => length (f a)) l).
Proof.
  induction l as [|a l IH]; [reflexivity|]. simpl. rewrite length_app, IH. reflexivity.
Qed.

Section Coordinator.

Import LocalFallback.

Variable getPdfPageAsBase64 : nat -> outcome jsstring.
Variable extractVotersFromImage : jsstring -> number -> bool -> outcome (list Voter).
Variable completion : list nat -> list nat.
Hypothesis completion_perm : forall b, Permutation (completion b) b.

Local Abbreviation pageVoters :=
  (pageVoters getPdfPageAsBase64 extractVotersFromImage).
Local Abbreviation finishTask :=
  (finishTask getPdfPageAsBase64 extractVotersFromImage).
Local Abbreviation processBatch :=
  (processBatch getPdfPageAsBase64 extractVotersFromImage completion).

Lemma finishTask_fold (order : list nat) (r : Run) :
  fold_left finishTask order r
  = mkRun (allVoters r ++ flat_map pageVoters order)
          (votersState r ++ flat_map pageVoters order)
          (trace r ++ map Done order)
          (batches r).
Proof.
  revert r. induction order as [|p order IH]; intro r.
  - simpl. rewrite !app_nil_r. destruct r; reflexivity.
  - cbn [fold_left]. rewrite IH. unfold LocalFallback.finishTask.
    destruct (pageVoters p) as [|v vs] eqn:E; cbn [length Nat.ltb Nat.leb flat_map map
      allVoters votersState trace batches]; rewrite E.
    + rewrite <- !app_assoc. reflexivity.
    + rewrite <- !app_assoc. reflexivity.
Qed.

Lemma skipn_shorter (c : nat) (l : list nat) :
  (1 <= c)%nat -> l <> [] -> (length (skipn c l) < length l)%nat.
Proof.
  intros Hc Hl. rewrite length_skipn. destruct l; [congruence|]. cbn [length]. lia.
Qed.

(** The loop ends when the batch size is at least one, and this is the
    run it ends with. *)
Lemma processBatch_run (fuel c : nat) :
  (1 <= c)%nat ->
  forall (queue : list nat) (r : Run),
    (length queue <= fuel)%nat ->
    processBatch fuel c queue r
    = Some (mkRun
              (allVoters r ++ flat_map pageVoters (flat_map completion (chunks fuel c queue)))
              (votersState r ++ flat_map pageVoters (flat_map completion (chunks fuel c queue)))
              (trace r ++ flat_map (batchTrace completion) (chunks fuel c queue))
              (batches r ++ chunks fuel c queue)).
Proof.
  intro Hc. induction fuel as [|f IH]; intros queue r Hlen.
  - destruct queue; [|simpl in Hlen; lia]. simpl. rewrite !app_nil_r. destruct r; reflexivity.
  - destruct queue as [|q qs].
    + simpl. rewrite !app_nil_r. destruct r; reflexivity.
    + cbn [LocalFallback.processBatch chunks].
      rewrite finishTask_fold. cbn [allVoters votersState trace batches].
      rewrite IH.
      * cbn [allVoters votersState trace batches flat_map]. unfold batchTrace at 2.
        rewrite !flat_map_app, <- !app_assoc. reflexivity.
      * pose proof (@skipn_shorter c (q :: qs) Hc ltac:(discriminate)). simpl in *. lia.
Qed.

Lemma chunks_concat (fuel c : nat) :
  (1 <= c)%nat ->
  forall queue, (length queue <= fuel)%nat -> concat (chunks fuel c queue) = queue.
Proof.
  intro Hc. induction fuel as [|f IH]; intros queue Hlen.
  - destruct queue; [reflexivity|simpl in Hlen; lia].
  - destruct queue as [|q qs]; [reflexivity|].
    cbn [chunks concat]. rewrite IH; [apply firstn_skipn|].
    pose proof (@skipn_shorter c (q :: qs) Hc ltac:(discriminate)). simpl in *. lia.
Qed.

Lemma chunks_sizes (fuel c : nat) (queue : list nat) :
  Forall (fun b => (length b <= c)%nat) (chunks fuel c queue).
Proof.
  revert queue. induction fuel as [|f IH]; intros [|q qs]; cbn [chunks]; try constructor.
  - apply firstn_le_length.
  - apply IH.
Qed.

(** Whatever the order of completion inside the batches, the number of
    records appended is the sum of what the pages yield. *)
Lemma yields_sum (bs : list (list nat)) :
  length (flat_map pageVoters (flat_map completion bs))
  = list_sum (map (fun p => length (pageVoters p)) (concat bs)).
Proof.
  rewrite length_flat_map_sum. apply list_sum_perm. apply Permutation_map.
  induction bs as [|b bs IH]; [constructor|].
  cbn [flat_map concat]. apply Permutation_app; [apply completion_perm|exact IH].
Qed.

Lemma initialQueue_pages (totalPages : nat) :
  initialQueue totalPages = seq 3 (totalPages - 2).
Proof.
  unfold initialQueue.
  assert (E : forall n s, map (fun i => (i + 1)%nat) (seq s n) = seq (S s) n).
  { induction n as [|n IH]; intro s; [reflexivity|].
    simpl. rewrite IH. f_equal. lia. }
  rewrite E. destruct totalPages as [|[|n]]; try reflexivity.
  simpl. f_equal. lia.
Qed.

(** C3.  The coordinator never processes pages 1 and 2: with any batch
    size of at least one, the pages it starts are exactly 3 to the last
    page, in batches of at most the batch size, and the number of
    records collected is the sum of what these pages yield, in whatever
    order the tasks of a batch come to their end.  For a document of 10
    pages and a batch size of 2 the batches are 3-4, 5-6, 7-8 and 9-10,
    and every task of a batch is over before a task of the next batch
    starts. *)
Theorem local_fallback_batches (voters0 : list Voter) :
  (forall totalPages concurrency : nat,
      (1 <= concurrency)%nat ->
      exists r,
        processPdfLocally getPdfPageAsBase64 extractVotersFromImage completion
                          totalPages totalPages concurrency voters0 = Some r /\
        concat (batches r) = seq 3 (totalPages - 2) /\
        Forall (fun b => (length b <= concurrency)%nat) (batches r) /\
        trace r = flat_map (batchTrace completion) (batches r) /\
        length (allVoters r)
        = list_sum (map (fun p => length (pageVoters p)) (seq 3 (totalPages - 2))) /\
        length (votersState r)
        = (length voters0
           + list_sum (map (fun p => length (pageVoters p)) (seq 3 (totalPages - 2))))%nat) /\
  (exists r,
      processPdfLocally getPdfPageAsBase64 extractVotersFromImage completion
                        10 10 2 voters0 = Some r /\
      batches r = [[3; 4]; [5; 6]; [7; 8]; [9; 10]]%nat /\
      trace r = map Start [3; 4]%nat ++ map Done (completion [3; 4]%nat)
                ++ map Start [5; 6]%nat ++ map Done (completion [5; 6]%nat)
                ++ map Start [7; 8]%nat ++ map Done (completion [7; 8]%nat)
                ++ map Start [9; 10]%nat ++ map Done (completion [9; 10]%nat) /\
      length (allVoters r)
      = list_sum (map (fun p => length (pageVoters p)) [3; 4; 5; 6; 7; 8; 9; 10]%nat)).
Proof.
  assert (General : forall totalPages concurrency : nat,
      (1 <= concurrency)%nat ->
      exists r,
        processPdfLocally getPdfPageAsBase64 extractVotersFromImage completion
                          totalPages totalPages concurrency voters0 = Some r /\
        batches r = chunks totalPages concurrency (seq 3 (totalPages - 2)) /\
        concat (batches r) = seq 3 (totalPages - 2) /\
        Forall (fun b => (length b <= concurrency)%nat) (batches r) /\
        trace r = flat_map (batchTrace completion) (batches r) /\
        length (allVoters r)
        = list_sum (map (fun p => length (pageVoters p)) (seq 3 (totalPages - 2))) /\
        length (votersState r)
        = (length voters0
           + list_sum (map (fun p => length (pageVoters p)) (seq 3 (totalPages - 2))))%nat).
  { intros totalPages c Hc. unfold processPdfLocally.
    rewrite initialQueue_pages.
    assert (Hlen : (length (seq 3 (totalPages - 2)) <= totalPages)%nat)
      by (rewrite length_seq; lia).
    rewrite (processBatch_run Hc _ _ Hlen). eexists. split; [reflexivity|].
    cbn [allVoters votersState trace batches app].
    pose proof (chunks_concat Hc _ Hlen) as Hcat.
    repeat split.
    - exact Hcat.
    - apply chunks_sizes.
    - rewrite yields_sum, Hcat. reflexivity.
    - rewrite length_app, yields_sum, Hcat. reflexivity. }
  split.
  - intros totalPages c Hc.
    destruct (General totalPages c Hc) as (r & H1 & _ & H2 & H3 & H4 & H5 & H6).
    exists r. repeat split; assumption.
  - destruct (General 10%nat 2%nat ltac:(lia)) as (r & H1 & H2 & _ & _ & H4 & H5 & _).
    exists r. split; [exact H1|]. split; [exact H2|]. split; [|exact H5].
    rewrite H4, H2. cbn [chunks seq firstn skipn Nat.sub flat_map]. unfold batchTrace.
    rewrite app_nil_r, <- !app_assoc. reflexivity.
Qed.

End Coordinator.

(* ================================================================== *)
(** * The remote strategy *)
(* ================================================================== *)

Section Remote.

Import GeminiService.

Variable generateContent : nat -> jsstring -> outcome (option jsstring).
Variable JSON_parse : jsstring -> Parsed.
Variable cropImage : jsstring -> list Q -> jsstring.
Variable random : nat -> Q.

Local Abbreviation attemptBody := (attemptBody generateContent JSON_parse cropImage).
Local Abbreviation attemptLoop := (attemptLoop generateContent JSON_parse cropImage random).

Local Abbreviation delayAfter := (delayAfter random).

Lemma attemptLoop_success (fuel : nat) (img : jsstring) (page : number) (photos : bool)
      (attempt : nat) (tr : list Event) (vs : list Voter) :
  (attempt < maxRetries)%nat ->
  attemptBody img page photos attempt (modelOf attempt) = Returned vs ->
  attemptLoop (S fuel) img page photos attempt tr
  = (tr ++ [Request (modelOf attempt)], vs).
Proof.
  intros Hlt Hb. cbn [GeminiService.attemptLoop].
  apply Nat.ltb_lt in Hlt. rewrite Hlt. fold (modelOf attempt). rewrite Hb. reflexivity.
Qed.

Lemma attemptLoop_retry (fuel : nat) (img : jsstring) (page : number) (photos : bool)
      (attempt : nat) (tr : list Event) (e : jsstring) :
  (S attempt < maxRetries)%nat ->
  attemptBody img page photos attempt (modelOf attempt) = Thrown e ->
  attemptLoop (S fuel) img page photos attempt tr
  = attemptLoop fuel img page photos (S attempt)
                (tr ++ [Request (modelOf attempt); Sleep (delayAfter attempt)]).
Proof.
  intros Hlt Hb. cbn [GeminiService.attemptLoop].
  replace (Nat.ltb attempt maxRetries) with true by (symmetry; apply Nat.ltb_lt; lia).
  fold (modelOf attempt). rewrite Hb.
  replace (Nat.leb maxRetries (S attempt)) with false by (symmetry; apply Nat.leb_gt; lia).
  reflexivity.
Qed.

Lemma attemptLoop_give_up (fuel : nat) (img : jsstring) (page : number) (photos : bool)
      (attempt : nat) (tr : list Event) (e : jsstring) :
  S attempt = maxRetries ->
  attemptBody img page photos attempt (modelOf attempt) = Thrown e ->
  attemptLoop (S fuel) img page photos attempt tr
  = (tr ++ [Request (modelOf attempt)], []).
Proof.
  intros Hlast Hb. cbn [GeminiService.attemptLoop].
  replace (Nat.ltb attempt maxRetries) with true by (symmetry; apply Nat.ltb_lt; lia).
  fold (modelOf attempt). rewrite Hb.
  replace (Nat.leb maxRetries (S attempt)) with true by (symmetry; apply Nat.leb_le; lia).
  reflexivity.
Qed.



(** The strategy with a key never throws. *)
Lemma remote_returns (key : jsstring) (img : jsstring) (page : number) (photos : bool) :
  key <> [] ->
  exists tr vs,
    extractVotersFromImage (Some key) generateContent JSON_parse cropImage random
                           img page photos = (tr, Returned vs).
Proof.
  intro Hne. unfold extractVotersFromImage. destruct key; [congruence|].
  eexists. eexists. reflexivity.
Qed.

(** Six failures in a row: six requests, five pauses, no record. *)
Lemma remote_exhausted (key : jsstring) (img : jsstring) (page : number) (photos : bool) :
  key <> [] ->
  (forall attempt model, exists e, attemptBody img page photos attempt model = Thrown e) ->
  extractVotersFromImage (Some key) generateContent JSON_parse cropImage random
                         img page photos
  = ([ Request (modelOf 0); Sleep (delayAfter 0);
       Request (modelOf 1); Sleep (delayAfter 1);
       Request (modelOf 2); Sleep (delayAfter 2);
       Request (modelOf 3); Sleep (delayAfter 3);
       Request (modelOf 4); Sleep (delayAfter 4);
       Request (modelOf 5) ], Returned []).
Proof.
  intros Hne Hfail.
  assert (E : attemptLoop (S maxRetries) img page photos 0 []
              = ([ Request (modelOf 0); Sleep (delayAfter 0);
                   Request (modelOf 1); Sleep (delayAfter 1);
                   Request (modelOf 2); Sleep (delayAfter 2);
                   Request (modelOf 3); Sleep (delayAfter 3);
                   Request (modelOf 4); Sleep (delayAfter 4);
                   Request (modelOf 5) ], [])).
  { unfold maxRetries at 1.
    destruct (Hfail 0%nat (modelOf 0)) as [e0 H0].
    destruct (Hfail 1%nat (modelOf 1)) as [e1 H1].
    destruct (Hfail 2%nat (modelOf 2)) as [e2 H2].
    destruct (Hfail 3%nat (modelOf 3)) as [e3 H3].
    destruct (Hfail 4%nat (modelOf 4)) as [e4 H4].
    destruct (Hfail 5%nat (modelOf 5)) as [e5 H5].
    rewrite (@attemptLoop_retry _ img page photos 0 _ e0); [|unfold maxRetries; lia|exact H0].
    rewrite (@attemptLoop_retry _ img page photos 1 _ e1); [|unfold maxRetries; lia|exact H1].
    rewrite (@attemptLoop_retry _ img page photos 2 _ e2); [|unfold maxRetries; lia|exact H2].
    rewrite (@attemptLoop_retry _ img page photos 3 _ e3); [|unfold maxRetries; lia|exact H3].
    rewrite (@attemptLoop_retry _ img page photos 4 _ e4); [|unfold maxRetries; lia|exact H4].
    rewrite (@attemptLoop_give_up _ img page photos 5 _ e5); [|reflexivity|exact H5].
    reflexivity. }
  unfold extractVotersFromImage. destruct key; [congruence|].
  cbv zeta. rewrite E. reflexivity.
Qed.

End Remote.

(* ================================================================== *)
(** * Failures of the per-page strategies *)
(* ================================================================== *)

(** C5, as it is stated, fails for the remote strategy: without an API
    key in the environment it throws before the first attempt,
    whatever the page. *)
Lemma remote_throws_without_api_key :
  ~ (forall (apiKey : option jsstring)
            (generateContent : nat -> jsstring -> outcome (option jsstring))
            (JSON_parse : jsstring -> GeminiService.Parsed)
            (cropImage : jsstring -> list Q -> jsstring) (random : nat -> Q)
            (img : jsstring) (page : number) (photos : bool),
        exists vs,
          snd (GeminiService.extractVotersFromImage apiKey generateContent JSON_parse
                 cropImage random img page photos) = Returned vs).
Proof.
  intro H.
  destruct (H None (fun _ _ => Returned None) (fun _ => GeminiService.POther)
              (fun _ _ => []) (fun _ => 0%Q) [] (Int 3) false) as [vs Hvs].
  discriminate Hvs.
Qed.

Section NeverThrows.

Variable sortBy : forall A : Type, (A -> A -> Q) -> list A -> list A.
Variable preprocessImage : jsstring -> jsstring.
Variable recognize : jsstring -> outcome (option (list OcrService.Word)).
Variable cropImage : jsstring -> list Q -> jsstring.
Variable generateContent : nat -> jsstring -> outcome (option jsstring).
Variable JSON_parse : jsstring -> GeminiService.Parsed.
Variable random : nat -> Q.

(** C5, as the code has it.  The image-OCR strategy never throws:
    whatever the page and whatever the engine does, it returns a list,
    and when a step of its [try] block throws it returns the empty
    list.  The remote strategy never throws once an API key is present:
    it returns a list, and after six failed attempts it returns the
    empty list, having issued six requests.  Without an API key it
    throws before the first attempt. *)
Theorem strategies_return_lists
        (key img : jsstring) (page : number) (photos : bool) :
  key <> [] ->
  (exists vs,
      OcrService.extractVotersFromImage sortBy preprocessImage recognize cropImage
                                        img page photos = Returned vs) /\
  (forall e,
      OcrService.ocrTryBody sortBy preprocessImage recognize cropImage img page photos
      = Thrown e ->
      OcrService.extractVotersFromImage sortBy preprocessImage recognize cropImage
                                        img page photos = Returned []) /\
  (exists tr vs,
      GeminiService.extractVotersFromImage (Some key) generateContent JSON_parse cropImage
                                           random img page photos = (tr, Returned vs)) /\
  ((forall attempt model,
       exists e, GeminiService.attemptBody generateContent JSON_parse cropImage
                                           img page photos attempt model = Thrown e) ->
   exists tr,
     GeminiService.extractVotersFromImage (Some key) generateContent JSON_parse cropImage
                                          random img page photos = (tr, Returned []) /\
     length (filter (fun ev => match ev with
                               | GeminiService.Request _ => true
                               | GeminiService.Sleep _ => false
                               end) tr) = 6%nat) /\
  (forall apiKey, apiKey = None \/ apiKey = Some [] ->
     GeminiService.extractVotersFromImage apiKey generateContent JSON_parse cropImage
                                          random img page photos
     = ([], Thrown (lit "API Key is missing. Please check your environment configuration."))).
Proof.
  intro Hne. split; [|split; [|split; [|split]]].
  - unfold OcrService.extractVotersFromImage.
    destruct (OcrService.ocrTryBody sortBy preprocessImage recognize cropImage img page photos);
      eexists; reflexivity.
  - intros e He. unfold OcrService.extractVotersFromImage. rewrite He. reflexivity.
  - apply remote_returns. exact Hne.
  - intro Hfail. eexists. split; [apply remote_exhausted; assumption|reflexivity].
  - intros apiKey [-> | ->]; reflexivity.
Qed.

End NeverThrows.

(* ================================================================== *)
(** * The statements at work on the samples *)
(* ================================================================== *)


Lemma updateVoter_overwrites_every_match_witness :
  nth_error (voters (updateVoter markedVoter (mkApp [twinVoter; twinVoter] idleStatus UPLOAD))) 1
  = Some markedVoter.
Proof.
  apply (proj1 (proj2 (updateVoter_overwrites_every_match markedVoter
                         (mkApp [twinVoter; twinVoter] idleStatus UPLOAD)))
               1%nat twinVoter); reflexivity.
Defined.

Lemma import_rejects_header_only_witness :
  Csv.processCSVText (Csv.generateCSVContent []) Csv.FILE emptyApp
  = (emptyApp, Thrown (lit "Data appears to be empty or missing headers.")).
Proof.
  apply (proj2 (proj1 (import_rejects_header_only_and_is_all_or_nothing Csv.FILE emptyApp)
                      (join [Csv.comma] Csv.headers) []
                      (proj1 header_line) (Forall_nil _))).
Defined.

Lemma no_name_label_gives_unknown_witness :
  OcrService.f_name_en (OcrService.extractFields (lit "ABC1234567 12 hello world"))
  = lit "Unknown" /\
  OcrService.f_relative_name (OcrService.extractFields (lit "ABC1234567 12 hello world")) = [].
Proof.
  destruct (@no_name_label_gives_unknown (lit "ABC1234567 12 hello world")
              (or_introl eq_refl))
    as (H1 & H2 & _).
  split; [exact H1|exact H2].
Defined.

Lemma epic_replaces_O_witness :
  OcrService.epicOf (lit "PQR12O4567")
  = map (fun x => if N.eqb x (chr "O") then chr "0" else x) (lit "PQR")
    ++ map (fun x => if N.eqb x (chr "O") then chr "0" else x) (lit "12O4567").
Proof.
  apply (proj1 (proj2 epic_replaces_O_in_id_only) (lit "PQR") (lit "12O4567")).
  - reflexivity.
  - repeat constructor.
  - reflexivity.
  - repeat constructor.
Defined.


Lemma rev_completion (b : list nat) : Permutation (rev b) b.
Proof. apply Permutation_sym, Permutation_rev. Defined.

Lemma local_fallback_batches_witness :
  exists r,
    LocalFallback.processPdfLocally sampleRender sampleExtract (@rev nat) 10 10 2 []
    = Some r /\
    LocalFallback.batches r = [[3; 4]; [5; 6]; [7; 8]; [9; 10]]%nat /\
    length (LocalFallback.allVoters r) = 8%nat.
Proof.
  destruct (proj2 (@local_fallback_batches sampleRender sampleExtract (@rev nat)
                     rev_completion []))
    as (r & H1 & H2 & _ & H4).
  exists r. split; [exact H1|]. split; [exact H2|exact H4].
Defined.

Lemma strategies_return_lists_witness :
  exists tr vs,
    GeminiService.extractVotersFromImage (Some (lit "key")) sampleGenerate sampleParse noCrop
                                         halfJitter [] (Int 3) false = (tr, Returned vs).
Proof.
  apply (proj1 (proj2 (proj2
           (@strategies_return_lists insertionSort (fun s => s)
              (fun _ => Thrown (lit "engine failure")) noCrop
              sampleGenerate sampleParse halfJitter
              (lit "key") [] (Int 3) false ltac:(discriminate))))).
Defined.

Lemma sample_anchors :
  OcrService.epicItems sampleItems = [anchorA; anchorB; anchorC] /\
  OcrService.epics sampleWords = [wordA; wordB; wordC].
Proof. split; vm_compute; reflexivity. Defined.

Lemma three_anchors_three_clean_regions_witness :
  length (OcrService.votersOfItems insertionSort sampleItems (Int 3)) = 3%nat /\
  length (OcrService.votersOfWords insertionSort noCrop [] sampleWords (Int 3) false) = 3%nat.
Proof.
  destruct sample_anchors as [HA HW].
  destruct (@three_anchors_three_clean_regions insertionSort insertionSort_perm noCrop
              sampleItems sampleWords (Int 3) [] false) as [HD HO].
  split.
  - apply HD.
    + rewrite HA. reflexivity.
    + rewrite HA. unfold apart.
      repeat (constructor; try (repeat constructor)); cbn; lra.
    + rewrite HA. intros i Hi. unfold clearlyInside.
      cbn [sampleItems In] in Hi.
      destruct Hi as [<-|[<-|[<-|[<-|[<-|[<-|[]]]]]]];
        [ exists anchorA | exists anchorA | exists anchorB
        | exists anchorB | exists anchorC | exists anchorC ];
        (split; [cbn [In]; tauto|cbn; lra]).
  - apply HO.
    + rewrite HW. reflexivity.
    + rewrite HW. unfold apartBoxes.
      repeat (constructor; try (repeat constructor)); cbn; lra.
    + rewrite HW. intros wd Hwd. unfold wordClearlyInside.
      cbn [sampleWords In] in Hwd.
      destruct Hwd as [<-|[<-|[<-|[<-|[<-|[<-|[]]]]]]];
        [ exists wordA | exists wordA | exists wordB
        | exists wordB | exists wordC | exists wordC ];
        (split; [cbn [In]; tauto|cbn; lra]).
Defined.

(* ================================================================== *)
(** * Poll marks, composed *)
(* ================================================================== *)

Lemma updateVoter_as_map (u : Voter) (st : AppState) :
  updateVoter u st
  = mkApp (map (fun v => if streq (epic_no v) (epic_no u) then u else v) (voters st))
          (status st) (view st).
Proof. reflexivity. Qed.

Lemma streq_refl (a : jsstring) : streq a a = true.
Proof. apply streq_true_iff. reflexivity. Qed.

(** X1.  Updates compose as writes keyed by [epic_no]: the same update
    twice is the update once; of two updates with the same id the later
    one wins; two updates with different ids commute. *)
Theorem updateVoter_composes (u1 u2 : Voter) (st : AppState) :
  updateVoter u1 (updateVoter u1 st) = updateVoter u1 st /\
  (epic_no u1 = epic_no u2 ->
   updateVoter u1 (updateVoter u2 st) = updateVoter u1 st) /\
  (epic_no u1 <> epic_no u2 ->
   updateVoter u1 (updateVoter u2 st) = updateVoter u2 (updateVoter u1 st)).
Proof.
  rewrite !updateVoter_as_map. cbn [voters status view].
  split; [|split].
  - f_equal. rewrite map_map. apply map_ext. intro v.
    destruct (streq (epic_no v) (epic_no u1)) eqn:E; [|rewrite E; reflexivity].
    rewrite streq_refl. reflexivity.
  - intro He. f_equal. rewrite map_map. apply map_ext. intro v. rewrite <- He.
    destruct (streq (epic_no v) (epic_no u1)) eqn:E; [|rewrite E; reflexivity].
    rewrite He, streq_refl. reflexivity.
  - intro Hne. f_equal. rewrite !map_map. apply map_ext. intro v.
    assert (H12 : streq (epic_no u1) (epic_no u2) = false) by (apply streq_false_iff; exact Hne).
    assert (H21 : streq (epic_no u2) (epic_no u1) = false)
      by (apply streq_false_iff; congruence).
    destruct (streq (epic_no v) (epic_no u2)) eqn:E2;
      destruct (streq (epic_no v) (epic_no u1)) eqn:E1;
      rewrite ?H12, ?H21, ?E1, ?E2; try reflexivity.
    apply streq_true_iff in E1, E2. congruence.
Qed.

Lemma updateVoter_composes_witness :
  updateVoter markedVoter (updateVoter otherVoter (mkApp [twinVoter; otherVoter] idleStatus UPLOAD))
  = updateVoter otherVoter (updateVoter markedVoter (mkApp [twinVoter; otherVoter] idleStatus UPLOAD)).
Proof.
  apply (proj2 (proj2 (updateVoter_composes markedVoter otherVoter
                         (mkApp [twinVoter; otherVoter] idleStatus UPLOAD)))).
  discriminate.
Defined.

Section PollMarks.

Import Dashboard.

Lemma updateVoter_In (u : Voter) (st : AppState) (v : Voter) :
  In v (voters (updateVoter u st)) ->
  (v = u /\ exists w, In w (voters st) /\ epic_no w = epic_no u) \/
  (In v (voters st) /\ epic_no v <> epic_no u).
Proof.
  rewrite updateVoter_as_map. cbn [voters]. intro H.
  apply in_map_iff in H as (w & Hw & Hin).
  destruct (streq (epic_no w) (epic_no u)) eqn:E.
  - left. split; [congruence|]. exists w. split; [exact Hin|]. apply streq_true_iff. exact E.
  - right. subst v. split; [exact Hin|]. apply streq_false_iff. exact E.
Qed.

(** X2.  Marking a party sets, on every stored record with the id of
    the record marked, the voted flag, that party and the time of the
    mark.  Toggling the voted flag twice gives the flag back but never
    the party: the record ends without party.  Both handlers keep the
    collection free of un-voted records that carry a party, and neither
    changes the number of records. *)
Theorem poll_marks_keep_party_with_vote
        (now now' : number) (voter : Voter) (party : jsstring) (st : AppState) :
  (forall v, In v (voters (handlePartySelect now voter party st)) ->
             epic_no v = epic_no voter ->
             isVoted v = true /\ votedParty v = Some party /\ timestamp v = Some now) /\
  (isVoted (toggled now' (toggled now voter)) = isVoted voter /\
   votedParty (toggled now' (toggled now voter)) = None /\
   timestamp (toggled now' (toggled now voter)) = Some now') /\
  (partyOnlyWhenVoted st ->
   partyOnlyWhenVoted (handleVoteToggle now voter st) /\
   partyOnlyWhenVoted (handlePartySelect now voter party st)) /\
  length (voters (handleVoteToggle now voter st)) = length (voters st) /\
  length (voters (handlePartySelect now voter party st)) = length (voters st).
Proof.
  split; [|split; [|split; [|split]]].
  - intros v Hv He. unfold handlePartySelect in Hv.
    apply updateVoter_In in Hv as [[-> _]|[_ Hne]]; [|contradiction].
    repeat split.
  - destruct voter as [? ? ? ? ? ? ? ? ? ? ? ? ? b q ?]. destruct b; repeat split.
  - intro Hinv. split; intros v Hv Hnot.
    + unfold handleVoteToggle in Hv.
      apply updateVoter_In in Hv as [[-> _]|[Hin _]]; [|apply Hinv; assumption].
      cbn [toggled isVoted votedParty] in *. rewrite Hnot. reflexivity.
    + unfold handlePartySelect in Hv.
      apply updateVoter_In in Hv as [[-> _]|[Hin _]]; [|apply Hinv; assumption].
      discriminate Hnot.
  - unfold handleVoteToggle. rewrite updateVoter_as_map. apply length_map.
  - unfold handlePartySelect. rewrite updateVoter_as_map. apply length_map.
Qed.

End PollMarks.

Lemma poll_marks_keep_party_with_vote_witness :
  partyOnlyWhenVoted
    (Dashboard.handleVoteToggle (Int 1700000000500) markedVoter
       (mkApp [markedVoter; otherVoter] idleStatus UPLOAD)).
Proof.
  apply (proj1 (proj2 (proj2 (@poll_marks_keep_party_with_vote
           (Int 1700000000500) (Int 1700000000900) markedVoter (lit "BRS")
           (mkApp [markedVoter; otherVoter] idleStatus UPLOAD))))).
  intros v Hv. cbn [voters In] in Hv. destruct Hv as [<-|[<-|[]]]; [discriminate|reflexivity].
Defined.

(* ================================================================== *)
(** * Pages of the voter list *)
(* ================================================================== *)

Section Pages.

Import Dashboard.

Lemma firstn_plus (A : Type) (a b : nat) (l : list A) :
  firstn (a + b) l = firstn a l ++ firstn b (skipn a l).
Proof.
  revert l. induction a as [|a IH]; intro l; [reflexivity|].
  destruct l as [|x l]; [simpl; rewrite firstn_nil; reflexivity|].
  simpl. rewrite IH. reflexivity.
Qed.

Lemma page_as_chunk (l : list Voter) (p : nat) :
  paginatedVoters l (S p) = firstn 20 (skipn (p * 20) l).
Proof.
  unfold paginatedVoters, slice, ITEMS_PER_PAGE.
  replace (S p - 1)%nat with p by lia.
  replace (S p * 20 - p * 20)%nat with 20%nat by lia. reflexivity.
Qed.

Lemma pages_prefix (l : list Voter) (k : nat) :
  concat (map (paginatedVoters l) (seq 1 k)) = firstn (k * 20) l.
Proof.
  induction k as [|k IH]; [reflexivity|].
  rewrite seq_S, map_app, concat_app, IH. cbn [map concat Nat.add].
  rewrite app_nil_r, page_as_chunk.
  replace (S k * 20)%nat with (k * 20 + 20)%nat by lia.
  symmetry. apply firstn_plus.
Qed.

Lemma totalPages_bounds (l : list Voter) :
  (length l <= totalPages l * 20 /\ totalPages l * 20 < length l + 20)%nat.
Proof.
  unfold totalPages, ITEMS_PER_PAGE. cbn [Nat.sub].
  pose proof (Nat.div_mod (length l + 19) 20 ltac:(lia)) as E.
  pose proof (Nat.mod_upper_bound (length l + 19) 20 ltac:(lia)) as B.
  remember ((length l + 19) / 20)%nat as q. remember ((length l + 19) mod 20)%nat as r.
  lia.
Qed.

(** X3.  The pages cut the filtered list without loss or overlap: pages
    1 to [totalPages], one after the other, are the list itself; every
    page before the last holds exactly 20 records and the last holds
    between 1 and 20; page 0 and the pages after the last are empty. *)
Theorem pages_partition_the_list (filteredVoters : list Voter) :
  concat (map (paginatedVoters filteredVoters) (seq 1 (totalPages filteredVoters)))
  = filteredVoters /\
  (forall p, (1 <= p < totalPages filteredVoters)%nat ->
             length (paginatedVoters filteredVoters p) = 20%nat) /\
  (forall p, p = totalPages filteredVoters -> (1 <= p)%nat ->
             (1 <= length (paginatedVoters filteredVoters p) <= 20)%nat) /\
  (forall p, p = 0%nat \/ (totalPages filteredVoters < p)%nat ->
             paginatedVoters filteredVoters p = []) /\
  (totalPages filteredVoters = 0%nat <-> filteredVoters = []).
Proof.
  pose proof (totalPages_bounds filteredVoters) as [B1 B2].
  split; [|split; [|split; [|split]]].
  - rewrite pages_prefix. apply firstn_all2. exact B1.
  - intros [|p] [H1 H2]; [lia|]. rewrite page_as_chunk.
    rewrite length_firstn, length_skipn. lia.
  - intros [|p] Hp H1; [lia|]. rewrite page_as_chunk.
    rewrite length_firstn, length_skipn. lia.
  - intros p [->|Hp]; [reflexivity|]. destruct p as [|p]; [lia|].
    rewrite page_as_chunk. rewrite skipn_all2 by lia. reflexivity.
  - split; intro H.
    + rewrite H in B1. destruct filteredVoters; [reflexivity|simpl in B1; lia].
    + subst. reflexivity.
Qed.

Lemma pages_partition_the_list_witness :
  Dashboard.paginatedVoters [markedVoter; otherVoter] 2 = [].
Proof.
  apply (proj1 (proj2 (proj2 (proj2 (pages_partition_the_list [markedVoter; otherVoter]))))).
  right. vm_compute; lia.
Defined.

End Pages.

(* ================================================================== *)
(** * Age buckets, file names, parties *)
(* ================================================================== *)

Lemma readDigits_some (s : jsstring) (a : N) : exists n, readDigits 10 (Some a) s = Some n.
Proof.
  revert a. induction s as [|c s IH]; intro a; [exists a; reflexivity|].
  cbn [readDigits]. destruct (hexVal c) as [d|]; [|exists a; reflexivity].
  destruct (N.ltb d 10); [apply IH|exists a; reflexivity].
Qed.

(** [parseInt] of a text of decimal digits is a number that is not
    negative. *)
Lemma parseInt_digits (d : jsstring) :
  Forall (fun c => isDigit c = true) d -> d <> [] ->
  exists n, parseInt d = Int (Z.of_N n).
Proof.
  intros Hd Hne. destruct d as [|c s]; [congruence|].
  inversion Hd as [|? ? Hc Hs]; subst.
  unfold parseInt.
  rewrite trimStart_head by (apply digit_not_space; exact Hc).
  pose proof Hc as Hr. apply isDigit_range in Hr.
  replace (N.eqb c 45) with false by (symmetry; apply N.eqb_neq; lia).
  replace (N.eqb c 43) with false by (symmetry; apply N.eqb_neq; lia).
  assert (Hread : forall t, exists n, readDigits 10 None (c :: t) = Some n).
  { intro t. cbn [readDigits]. unfold hexVal. rewrite Hc.
    replace (N.ltb (c - 48) 10) with true by (symmetry; apply N.ltb_lt; lia).
    apply readDigits_some. }
  destruct s as [|x r].
  - destruct (Hread []) as [n ->]. exists n. reflexivity.
  - inversion Hs as [|? ? Hx _]; subst. apply isDigit_range in Hx.
    replace (N.eqb x 120) with false by (symmetry; apply N.eqb_neq; lia).
    replace (N.eqb x 88) with false by (symmetry; apply N.eqb_neq; lia).
    rewrite andb_false_r. destruct (Hread (x :: r)) as [n ->]. exists n. reflexivity.
Qed.

Section Buckets.

Import Dashboard.

(** X4.  An age written in decimal digits is bucketed by the thresholds
    30, 45 and 60 of the code: below 30 (ages under 18 included) it is
    18-29, from 30 to 44 it is 30-45, from 45 to 59 it is 46-60 (so the
    age 45 counts as 46-60), and from 60 on it is 60+.  An empty age is
    Unknown, and any text of digits is bucketed, never Unknown. *)
Theorem ageBucket_thresholds :
  (forall n : N,
      ageBucket (natToString n)
      = if N.ltb n 30 then lit "18-29"
        else if N.ltb n 45 then lit "30-45"
        else if N.ltb n 60 then lit "46-60"
        else lit "60+") /\
  ageBucket [] = lit "Unknown" /\
  (forall d, Forall (fun c => isDigit c = true) d -> d <> [] ->
             ageBucket d <> lit "Unknown").
Proof.
  split; [|split].
  - intro n. unfold ageBucket. rewrite parseInt_natToString.
    destruct (N.ltb_spec n 30), (N.ltb_spec n 45), (N.ltb_spec n 60);
      destruct (Z.ltb_spec (Z.of_N n) 30), (Z.ltb_spec (Z.of_N n) 45),
               (Z.ltb_spec (Z.of_N n) 60); try lia; reflexivity.
  - reflexivity.
  - intros d Hd Hne. unfold ageBucket.
    destruct (parseInt_digits Hd Hne) as [n ->].
    destruct (Z.ltb (Z.of_N n) 30); [discriminate|].
    destruct (Z.ltb (Z.of_N n) 45); [discriminate|].
    destruct (Z.ltb (Z.of_N n) 60); discriminate.
Qed.

Lemma ageBucket_thresholds_witness :
  Dashboard.ageBucket (lit "045") <> lit "Unknown".
Proof.
  apply (proj2 (proj2 ageBucket_thresholds) (lit "045")).
  - repeat constructor.
  - discriminate.
Defined.

(** X5.  Removing the party just added gives the list back; removing at
    an index past the end changes nothing; removing at an index inside
    the list takes exactly one party away and keeps the others in
    order. *)
Theorem removeParty_undoes_addParty (parties : list Party) (index : nat) :
  removeParty (length parties) (addParty parties) = parties /\
  ((length parties <= index)%nat -> removeParty index parties = parties) /\
  ((index < length parties)%nat ->
   S (length (removeParty index parties)) = length parties /\
   (forall i, (i < index)%nat ->
              nth_error (removeParty index parties) i = nth_error parties i) /\
   (forall i, (index <= i)%nat ->
              nth_error (removeParty index parties) i = nth_error parties (S i))).
Proof.
  unfold removeParty, addParty. split; [|split].
  - rewrite firstn_app, Nat.sub_diag, firstn_all. cbn [firstn]. rewrite app_nil_r.
    rewrite skipn_all2 by (rewrite length_app; simpl; lia). apply app_nil_r.
  - intro H. rewrite firstn_all2 by exact H. rewrite skipn_all2 by lia. apply app_nil_r.
  - intro H. split; [|split].
    + rewrite length_app, length_firstn, length_skipn. lia.
    + intros i Hi. rewrite nth_error_app1 by (rewrite length_firstn; lia).
      rewrite nth_error_firstn.
      replace (Nat.ltb i index) with true by (symmetry; apply Nat.ltb_lt; exact Hi).
      reflexivity.
    + intros i Hi. rewrite nth_error_app2 by (rewrite length_firstn; lia).
      rewrite length_firstn, nth_error_skipn.
      f_equal. lia.
Qed.

Lemma removeParty_undoes_addParty_witness :
  S (length (Dashboard.removeParty 0 (Dashboard.addParty []))) = 1%nat.
Proof.
  apply (proj2 (proj2 (removeParty_undoes_addParty (Dashboard.addParty []) 0))).
  vm_compute; lia.
Defined.

End Buckets.

Section FileNames.

Import StorageService.

Lemma safeFileName_map (name : jsstring) :
  safeFileName name = map (fun c => if isSafeChar c then c else 95%N) name.
Proof.
  unfold safeFileName. induction name as [|c r IH]; [reflexivity|].
  simpl. rewrite IH. destruct (isSafeChar c); reflexivity.
Qed.

(** X6.  The sanitised file name has the length of the name; each of
    its characters is an ASCII letter, a digit, a period, a hyphen or
    an underscore, so it holds no path separator and no white space;
    sanitising twice is sanitising once; and a name of safe characters
    is left as it is. *)
Theorem safeFileName_is_safe (name : jsstring) :
  length (safeFileName name) = length name /\
  Forall (fun c => isSafeChar c = true \/ c = 95%N) (safeFileName name) /\
  ~ In 47%N (safeFileName name) /\
  Forall (fun c => isWhiteSpace c = false) (safeFileName name) /\
  safeFileName (safeFileName name) = safeFileName name /\
  (Forall (fun c => isSafeChar c = true) name -> safeFileName name = name).
Proof.
  rewrite !safeFileName_map.
  assert (Hall : Forall (fun c => isSafeChar c = true \/ c = 95%N)
                        (map (fun c => if isSafeChar c then c else 95%N) name)).
  { apply Forall_map. apply Forall_forall. intros c _.
    destruct (isSafeChar c) eqn:E; [left; exact E|right; reflexivity]. }
  assert (Hrange : forall c, isSafeChar c = true \/ c = 95%N ->
                             c <> 47%N /\ isWhiteSpace c = false).
  { intros c [H| ->]; [|split; [discriminate|reflexivity]].
    unfold isSafeChar, Regex.isLetter, Regex.isUpperAZ, Regex.isLowerAZ, isDigit in H.
    assert (R : (65 <= c <= 90 \/ 97 <= c <= 122 \/ 48 <= c <= 57 \/ c = 46 \/ c = 45)%N).
    { repeat (apply orb_true_iff in H; destruct H as [H|H]);
        try (apply andb_true_iff in H as [H1 H2]; apply N.leb_le in H1, H2; lia);
        apply N.eqb_eq in H; lia. }
    split; [lia|]. unfold isWhiteSpace. char_cases; reflexivity. }
  split; [apply length_map|]. split; [exact Hall|]. split; [|split; [|split]].
  - intro Hin. rewrite Forall_forall in Hall. destruct (Hrange _ (Hall _ Hin)). congruence.
  - eapply Forall_impl; [|exact Hall]. intros c Hc. apply Hrange. exact Hc.
  - rewrite map_map. apply map_ext. intro c.
    destruct (isSafeChar c) eqn:E; [rewrite E; reflexivity|reflexivity].
  - clear Hall. intro H. induction H as [|c r Hc _ IH]; [reflexivity|].
    simpl. rewrite Hc, IH. reflexivity.
Qed.

Lemma safeFileName_is_safe_witness :
  StorageService.safeFileName (lit "roll-17.pdf") = lit "roll-17.pdf".
Proof.
  apply (proj2 (proj2 (proj2 (proj2 (proj2 (safeFileName_is_safe (lit "roll-17.pdf"))))))).
  repeat constructor.
Defined.

End FileNames.

(* ================================================================== *)
(** * The upload handlers *)
(* ================================================================== *)

Section Uploads.

Variable File : Type.
Variable fetchUpload : File -> outcome CloudService.Response.
Variable fileText : File -> outcome jsstring.

Local Abbreviation upload := (App.handleFileUpload fetchUpload) (only parsing).
Local Abbreviation selectData := (App.handleDataFileSelect fileText) (only parsing).

(** The import reads the state only to write it: its result is the same
    from any two states. *)
Lemma processCSVText_result (text : jsstring) (source : Csv.Source) (st st' : AppState) :
  snd (Csv.processCSVText text source st) = snd (Csv.processCSVText text source st').
Proof.
  unfold Csv.processCSVText.
  match goal with |- context [Nat.ltb ?n 2] => destruct (Nat.ltb n 2) end; [reflexivity|].
  match goal with |- context [Nat.eqb ?n 0] => destruct (Nat.eqb n 0) end; reflexivity.
Qed.

(** X7.  The upload of a PDF ends in one of two states.  Either the
    endpoint answered OK with a body whose import gave rows: these rows
    are the list, the status is Extraction Complete, and no timer is
    set.  Or the list is empty, whatever it held before, the status says
    Switching to Local Engine with the processing flag still on, and the
    local engine is set to start after 1500 ms.  A response that is not
    OK gives the second state even when its body is a good table, and a
    missing file changes nothing.  The view is never changed. *)
Theorem upload_shows_cloud_rows_or_switches_to_local (f : File) (st : AppState) :
  ((exists resp csv vs,
       fetchUpload f = Returned resp /\ CloudService.ok resp = true /\
       CloudService.text resp = Returned csv /\
       snd (Csv.processCSVText csv Csv.API st) = Returned vs /\ vs <> [] /\
       upload (Some f) st
       = (mkApp vs (mkStatus (Int 0) (Int 0) (lit "Extraction Complete!") false) (view st),
          None)) \/
   upload (Some f) st
   = (mkApp [] (mkStatus (Int 0) (Int 0) (lit "Switching to Local Engine...") true) (view st),
      Some 1500%nat)) /\
  (forall resp, fetchUpload f = Returned resp -> CloudService.ok resp = false ->
                upload (Some f) st
                = (mkApp [] (mkStatus (Int 0) (Int 0) (lit "Switching to Local Engine...") true)
                         (view st),
                   Some 1500%nat)) /\
  upload None st = (st, None).
Proof.
  split; [|split]; [| |reflexivity].
  - unfold App.handleFileUpload, CloudService.uploadPdfToCloud.
    destruct (fetchUpload f) as [resp|e]; [|right; reflexivity].
    destruct (CloudService.ok resp) eqn:Hok; cbn [negb]; [|right; reflexivity].
    destruct (CloudService.text resp) as [csv|e] eqn:Ht; [|right; reflexivity].
    match goal with |- context [Csv.processCSVText csv Csv.API ?s] => set (st3 := s) end.
    pose proof (processCSVText_result csv Csv.API st st3) as Hsame.
    destruct (processCSVText_cases csv Csv.API st3) as [(vs & Hne & E)|[E|E]];
      rewrite E in *; cbn [snd] in Hsame.
    + left. exists resp, csv, vs. repeat (split; [first [reflexivity|assumption]|]).
      reflexivity.
    + right. reflexivity.
    + right. reflexivity.
  - intros resp E Hok. unfold App.handleFileUpload, CloudService.uploadPdfToCloud.
    rewrite E, Hok. reflexivity.
Qed.

(** X8.  Loading a table from a file always ends with the processing
    flag off.  Either the file was read and its import gave rows: these
    rows are the list, the status is Data Loaded Successfully and the
    view is the dashboard.  Or the list and the view are as they were
    and the status carries the error message after the words Error
    loading CSV.  A missing file changes nothing. *)
Theorem data_file_loads_or_reports (f : File) (st : AppState) :
  ((exists text vs,
       fileText f = Returned text /\
       snd (Csv.processCSVText text Csv.FILE st) = Returned vs /\ vs <> [] /\
       selectData (Some f) st
       = mkApp vs (mkStatus (Int 0) (Int 0) (lit "Data Loaded Successfully") false) DASHBOARD) \/
   (exists message,
       (fileText f = Thrown message \/
        exists text, fileText f = Returned text /\
                     snd (Csv.processCSVText text Csv.FILE st) = Thrown message) /\
       selectData (Some f) st
       = mkApp (voters st)
               (mkStatus (Int 0) (Int 0) (lit "Error loading CSV: " ++ message) false)
               (view st))) /\
  isProcessing (status (selectData (Some f) st)) = false /\
  selectData None st = st.
Proof.
  assert (D : (exists text vs,
       fileText f = Returned text /\
       snd (Csv.processCSVText text Csv.FILE st) = Returned vs /\ vs <> [] /\
       selectData (Some f) st
       = mkApp vs (mkStatus (Int 0) (Int 0) (lit "Data Loaded Successfully") false) DASHBOARD) \/
   (exists message,
       (fileText f = Thrown message \/
        exists text, fileText f = Returned text /\
                     snd (Csv.processCSVText text Csv.FILE st) = Thrown message) /\
       selectData (Some f) st
       = mkApp (voters st)
               (mkStatus (Int 0) (Int 0) (lit "Error loading CSV: " ++ message) false)
               (view st))).
  { unfold App.handleDataFileSelect.
    destruct (fileText f) as [text|e].
    - match goal with |- context [Csv.processCSVText text Csv.FILE ?s] => set (st1 := s) end.
      pose proof (processCSVText_result text Csv.FILE st st1) as Hsame.
      destruct (processCSVText_cases text Csv.FILE st1) as [(vs & Hne & E)|[E|E]];
        rewrite E in *; cbn [snd] in Hsame.
      + left. exists text, vs. repeat (split; [first [reflexivity|assumption]|]).
        reflexivity.
      + right. eexists. split; [right; exists text; split; [reflexivity|exact Hsame]|].
        reflexivity.
      + right. eexists. split; [right; exists text; split; [reflexivity|exact Hsame]|].
        reflexivity.
    - right. exists e. split; [left; reflexivity|reflexivity]. }
  split; [exact D|]. split; [|reflexivity].
  destruct D as [(text & vs & _ & _ & _ & ->)|(message & _ & ->)]; reflexivity.
Qed.

End Uploads.

Lemma upload_shows_cloud_rows_or_switches_to_local_witness :
  App.handleFileUpload (fun _ : unit => Returned refusal) (Some tt)
                       (mkApp [markedVoter] idleStatus UPLOAD)
  = (mkApp [] (mkStatus (Int 0) (Int 0) (lit "Switching to Local Engine...") true) UPLOAD,
     Some 1500%nat).
Proof.
  apply (proj1 (proj2 (@upload_shows_cloud_rows_or_switches_to_local
                         unit (fun _ => Returned refusal) tt
                         (mkApp [markedVoter] idleStatus UPLOAD))) refusal);
    reflexivity.
Defined.

(* ================================================================== *)
(** * Columns of an imported line *)
(* ================================================================== *)

Section Columns.

Lemma trimStart_head_kept (s : jsstring) :
  match trimStart s with
  | [] => True
  | c :: _ => isWhiteSpace c = false
  end.
Proof.
  induction s as [|c r IH]; simpl; [exact I|].
  destruct (isWhiteSpace c) eqn:E; [exact IH|exact E].
Qed.

Lemma trimStart_fixed (s : jsstring) :
  match s with
  | [] => True
  | c :: _ => isWhiteSpace c = false
  end -> trimStart s = s.
Proof.
  destruct s as [|c r]; [reflexivity|]. intro H. apply trimStart_head. exact H.
Qed.

Lemma trim_idem (s : jsstring) : trim (trim s) = trim s.
Proof.
  unfold trim, trimEnd.
  pose proof (trimStart_head_kept s) as Hu.
  pose proof (trimStart_head_kept (rev (trimStart s))) as Hw.
  destruct (trimStart_suffix (rev (trimStart s))) as [p Hp].
  set (u := trimStart s) in *. set (w := trimStart (rev u)) in *.
  assert (E : trimStart (rev w) = rev w).
  { apply trimStart_fixed.
    apply (f_equal (@rev N)) in Hp. rewrite rev_involutive, rev_app_distr in Hp.
    destruct (rev w) as [|c r]; [exact I|].
    rewrite Hp in Hu. exact Hu. }
  rewrite E, rev_involutive. f_equal. apply trimStart_fixed. exact Hw.
Qed.

Lemma infixOf_Forall (P : char -> Prop) (a b : jsstring) :
  infixOf a b -> Forall P b -> Forall P a.
Proof.
  intros (l & r & ->) H. apply Forall_app in H as [_ H]. apply Forall_app in H as [H _].
  exact H.
Qed.

Lemma finishField_noQuote (cur : jsstring) :
  noQuote cur -> Csv.finishField cur = trim cur /\ cleanColumn (Csv.finishField cur).
Proof.
  intro H. unfold Csv.finishField.
  rewrite stripOuterQuotes_noQuote, unescapeQuotes_noQuote by assumption.
  split; [reflexivity|]. split; [|apply trim_idem].
  eapply infixOf_Forall; [apply trim_infix|exact H].
Qed.

Lemma parseCSVLoop_clean (d : char) (str : jsstring) :
  forall res cur inQ,
    noQuote cur -> Forall cleanColumn res ->
    Forall cleanColumn (Csv.parseCSVLoop d str res cur inQ).
Proof.
  induction str as [|c rest IH]; intros res cur inQ Hcur Hres; cbn [Csv.parseCSVLoop].
  - apply Forall_app. split; [exact Hres|].
    constructor; [apply finishField_noQuote; exact Hcur|constructor].
  - destruct (N.eqb c Csv.quote) eqn:Eq; [apply IH; assumption|].
    destruct (N.eqb c d && negb inQ).
    + apply IH; [constructor|]. apply Forall_app. split; [exact Hres|].
      constructor; [apply finishField_noQuote; exact Hcur|constructor].
    + apply IH; [|exact Hres]. apply Forall_app. split; [exact Hcur|].
      constructor; [apply N.eqb_neq; exact Eq|constructor].
Qed.

Lemma parseCSVLoop_length (d : char) (str : jsstring) :
  forall res cur inQ,
    (S (length res) <= length (Csv.parseCSVLoop d str res cur inQ)
     <= S (length res) + count_occ N.eq_dec str d)%nat.
Proof.
  induction str as [|c rest IH]; intros res cur inQ; cbn [Csv.parseCSVLoop count_occ].
  - rewrite length_app. simpl. lia.
  - destruct (N.eqb c Csv.quote).
    + specialize (IH res cur (negb inQ)). destruct (N.eq_dec c d); simpl; lia.
    + destruct (N.eqb c d && negb inQ) eqn:E.
      * apply andb_true_iff in E as [E _]. apply N.eqb_eq in E.
        specialize (IH (res ++ [Csv.finishField cur]) [] inQ).
        rewrite length_app in IH. simpl in IH.
        destruct (N.eq_dec c d); [simpl; lia|congruence].
      * specialize (IH res (cur ++ [c]) inQ). destruct (N.eq_dec c d); simpl; lia.
Qed.

Lemma parseCSVLine_clean (str : jsstring) (d : char) :
  Forall cleanColumn (Csv.parseCSVLine str d).
Proof. apply parseCSVLoop_clean; constructor. Qed.

(** X9.  Whatever the line and the separator, the line parser returns
    at least one column and at most one more than the line has
    separators; no column holds a double quote, so a doubled quote
    inside a quoted field is dropped, not read as one quote; every
    column is trimmed.  A line without quote and separator is one
    column, the trimmed line. *)
Theorem parseCSVLine_columns_are_clean (str : jsstring) (d : char) :
  (1 <= length (Csv.parseCSVLine str d) <= S (count_occ N.eq_dec str d))%nat /\
  Forall cleanColumn (Csv.parseCSVLine str d) /\
  (noQuote str -> ~ In d str -> Csv.parseCSVLine str d = [trim str]).
Proof.
  split; [|split].
  - pose proof (parseCSVLoop_length d str [] [] false) as H. simpl in H.
    unfold Csv.parseCSVLine. lia.
  - apply parseCSVLine_clean.
  - intros Hq Hd. unfold Csv.parseCSVLine.
    assert (Hp : Forall (fun c => c <> Csv.quote /\ (false = true \/ c <> d)) str).
    { unfold noQuote in Hq. rewrite Forall_forall in *. intros c Hin.
      split; [apply Hq; exact Hin|right; intros ->; apply Hd; exact Hin]. }
    pose proof (@parseCSVLoop_chars d str [] [] [] false Hp) as E.
    rewrite app_nil_r in E. rewrite E.
    cbn [Csv.parseCSVLoop app]. f_equal. apply finishField_noQuote. exact Hq.
Qed.

Lemma parseCSVLine_columns_are_clean_witness :
  Csv.parseCSVLine (lit "  Kodad ") Csv.comma = [lit "Kodad"].
Proof.
  apply (proj2 (proj2 (parseCSVLine_columns_are_clean (lit "  Kodad ") Csv.comma))).
  - unfold noQuote. repeat constructor; discriminate.
  - vm_compute. intuition discriminate.
Defined.

Lemma col_clean (cols : list jsstring) (i : nat) :
  Forall cleanColumn cols -> cleanColumn (Csv.col cols i).
Proof.
  intro H. unfold Csv.col. destruct (nth_in_or_default i cols []) as [Hin| ->].
  - rewrite Forall_forall in H. apply H. exact Hin.
  - split; [constructor|reflexivity].
Qed.

Lemma voterOfCols_shape (cols : list jsstring) :
  Forall cleanColumn cols ->
  let v := Csv.voterOfCols cols in
  photoBase64 v = None /\ timestamp v = None /\ originalPage v <> None /\
  votedParty v <> Some [] /\ votedParty v <> Some (lit "null") /\
  Forall cleanColumn (textColumns v) /\
  (forall p, votedParty v = Some p -> cleanColumn p).
Proof.
  intros H v. split; [reflexivity|]. split; [reflexivity|]. split.
  { unfold v, Csv.voterOfCols. cbn [originalPage].
    destruct (Csv.col cols 13); discriminate. }
  assert (Hp : forall p, votedParty v = Some p ->
                         p = Csv.col cols 12 /\ p <> [] /\ p <> lit "null").
  { intros p. unfold v, Csv.voterOfCols. cbn [votedParty].
    destruct (streq (Csv.col cols 12) []) eqn:E1; [discriminate|].
    destruct (streq (Csv.col cols 12) (lit "null")) eqn:E2; [discriminate|].
    cbn [negb andb]. intro E. injection E as <-.
    apply streq_false_iff in E1, E2. auto. }
  split; [intro E; apply Hp in E; tauto|]. split; [intro E; apply Hp in E; tauto|].
  split.
  - unfold textColumns, v, Csv.voterOfCols. cbn.
    repeat (constructor; [apply col_clean; exact H|]). constructor.
  - intros p E. apply Hp in E as [-> _]. apply col_clean. exact H.
Qed.

(** X10.  Every record the import returns has no photo and no
    timestamp, has a page number, and has a party that is neither empty
    nor the word null; none of its text columns, and no party, holds a
    double quote or white space at either end.  The import never
    returns an empty list. *)
Theorem imported_records_are_clean (text : jsstring) (source : Csv.Source)
        (st : AppState) (vs : list Voter) :
  snd (Csv.processCSVText text source st) = Returned vs ->
  vs <> [] /\
  voters (fst (Csv.processCSVText text source st)) = vs /\
  Forall (fun v =>
            photoBase64 v = None /\ timestamp v = None /\ originalPage v <> None /\
            votedParty v <> Some [] /\ votedParty v <> Some (lit "null") /\
            Forall cleanColumn (textColumns v) /\
            (forall p, votedParty v = Some p -> cleanColumn p)) vs.
Proof.
  unfold Csv.processCSVText.
  match goal with |- context [Nat.ltb ?n 2] => destruct (Nat.ltb n 2) end;
    [discriminate|].
  match goal with |- context [Nat.eqb (length ?l) 0] => remember l as loaded end.
  destruct loaded as [|v0 l0]; [discriminate|].
  cbn [length Nat.eqb snd fst]. intro E. injection E as <-.
  split; [discriminate|]. split; [destruct source; reflexivity|].
  rewrite Heqloaded. apply Forall_flat_map. apply Forall_forall. intros line _.
  match goal with |- context [Nat.ltb ?n 3] => destruct (Nat.ltb n 3) end;
    [constructor|].
  constructor; [|constructor]. apply voterOfCols_shape. apply parseCSVLine_clean.
Qed.

End Columns.

Lemma imported_records_are_clean_witness :
  voters (fst (Csv.processCSVText (Csv.generateCSVContent [markedVoter]) Csv.FILE emptyApp))
  = [forgetTimestamp (forgetPhoto markedVoter)].
Proof.
  refine (proj1 (proj2 (@imported_records_are_clean
                          (Csv.generateCSVContent [markedVoter]) Csv.FILE emptyApp
                          [forgetTimestamp (forgetPhoto markedVoter)] _))).
  vm_compute. reflexivity.
Defined.

(* ================================================================== *)
(** * Line endings, blank lines and the byte-order mark *)
(* ================================================================== *)

Section Lines.

Lemma splitLines_crlf (a b : jsstring) :
  noLineBreak a -> splitLines (a ++ 13%N :: 10%N :: b) = a :: splitLines b.
Proof.
  induction 1 as [|c r [H10 H13] _ IH]; [reflexivity|].
  rewrite <- app_comm_cons. rewrite splitLines_cons by assumption.
  rewrite IH. reflexivity.
Qed.

Lemma splitLines_cr (a b : jsstring) :
  noLineBreak a -> hd 0%N b <> 10%N -> splitLines (a ++ 13%N :: b) = a :: splitLines b.
Proof.
  intros Ha Hb. induction Ha as [|c r [H10 H13] _ IH].
  - destruct b as [|d b']; [reflexivity|].
    simpl in Hb. apply N.eqb_neq in Hb.
    change (splitLines ([] ++ 13%N :: d :: b'))
      with (if N.eqb d 10 then [] :: splitLines b' else [] :: splitLines (d :: b')).
    rewrite Hb. reflexivity.
  - rewrite <- app_comm_cons. rewrite splitLines_cons by assumption.
    rewrite IH. reflexivity.
Qed.

Lemma join_cons (sep l : jsstring) (l' : jsstring) (ls : list jsstring) :
  join sep (l :: l' :: ls) = l ++ sep ++ join sep (l' :: ls).
Proof. reflexivity. Qed.

Lemma join_head (ls : list jsstring) :
  Forall noLineBreak ls -> hd 0%N (join [13%N] ls) <> 10%N.
Proof.
  intros Hall. destruct Hall as [|l ls Hl Hls]; [simpl; lia|].
  destruct l as [|c r].
  - destruct ls as [|l' ls']; [simpl; lia|].
    rewrite join_cons. simpl. lia.
  - inversion Hl as [|? ? [H10 _] _]; subst.
    destruct ls as [|l' ls']; [exact H10|]. rewrite join_cons. exact H10.
Qed.

Lemma splitLines_join_any (sep : jsstring) (ls : list jsstring) :
  lineEnding sep -> ls <> [] -> Forall noLineBreak ls -> splitLines (join sep ls) = ls.
Proof.
  intros Hsep Hne Hall. induction Hall as [|l ls Hl Hls IH]; [congruence|].
  destruct ls as [|l' ls'].
  - simpl. apply splitLines_single. exact Hl.
  - rewrite join_cons.
    assert (IH' : splitLines (join sep (l' :: ls')) = l' :: ls') by (apply IH; discriminate).
    destruct Hsep as [-> |[-> | ->]].
    + change ([10%N] ++ join [10%N] (l' :: ls')) with (10%N :: join [10%N] (l' :: ls')).
      rewrite splitLines_line by exact Hl. rewrite IH'. reflexivity.
    + change ([13%N] ++ join [13%N] (l' :: ls')) with (13%N :: join [13%N] (l' :: ls')).
      rewrite splitLines_cr; [rewrite IH'; reflexivity|exact Hl|].
      apply join_head. exact Hls.
    + change ([13%N; 10%N] ++ join [13%N; 10%N] (l' :: ls'))
        with (13%N :: 10%N :: join [13%N; 10%N] (l' :: ls')).
      rewrite splitLines_crlf by exact Hl. rewrite IH'. reflexivity.
Qed.

(** The leading mark of a joined text is that of its first line. *)
Lemma withoutBOM_join (sep l : jsstring) (ls : list jsstring) :
  lineEnding sep -> withoutBOM (join sep (l :: ls)) = join sep (withoutBOM l :: ls).
Proof.
  intro Hsep. destruct l as [|c r].
  - destruct ls as [|l' ls']; [reflexivity|].
    rewrite !join_cons. destruct Hsep as [-> |[-> | ->]]; reflexivity.
  - assert (E : forall t, join sep ((c :: t) :: ls) = c :: join sep (t :: ls)).
    { intro t. destruct ls; reflexivity. }
    unfold withoutBOM at 1. rewrite E. unfold withoutBOM.
    destruct (N.eqb c 65279); [reflexivity|]. rewrite E. reflexivity.
Qed.

Lemma withoutBOM_noLineBreak (l : jsstring) : noLineBreak l -> noLineBreak (withoutBOM l).
Proof.
  intro H. destruct H as [|c r Hc Hr]; [constructor|].
  unfold withoutBOM. destruct (N.eqb c 65279); [exact Hr|constructor; assumption].
Qed.

Lemma import_lines (text text' : jsstring) (source : Csv.Source) (st : AppState) :
  filter Csv.nonBlank (splitLines (withoutBOM text))
  = filter Csv.nonBlank (splitLines (withoutBOM text')) ->
  Csv.processCSVText text source st = Csv.processCSVText text' source st.
Proof.
  intro E. unfold Csv.processCSVText.
  change (match text with
          | c :: r => if N.eqb c 65279 then r else text
          | [] => text
          end) with (withoutBOM text).
  change (match text' with
          | c :: r => if N.eqb c 65279 then r else text'
          | [] => text'
          end) with (withoutBOM text').
  rewrite E. reflexivity.
Qed.

Lemma split_joined (sep l : jsstring) (ls : list jsstring) :
  lineEnding sep -> Forall noLineBreak (l :: ls) ->
  splitLines (withoutBOM (join sep (l :: ls))) = withoutBOM l :: ls.
Proof.
  intros Hsep Hall. rewrite withoutBOM_join by exact Hsep.
  apply splitLines_join_any; [exact Hsep|discriminate|].
  inversion Hall; subst. constructor; [apply withoutBOM_noLineBreak|]; assumption.
Qed.

(** X11.  The import reads the same from lines ended by LF, by CR or by
    CR LF; a blank line after the first line is ignored; and a
    byte-order mark before the text is ignored. *)
Theorem import_ignores_line_ending_blank_line_and_mark
        (source : Csv.Source) (st : AppState) :
  (forall sep ls,
      lineEnding sep -> Forall noLineBreak ls ->
      Csv.processCSVText (join sep ls) source st
      = Csv.processCSVText (join [10%N] ls) source st) /\
  (forall sep l a blank b,
      lineEnding sep -> Forall noLineBreak (l :: a ++ blank :: b) -> blankText blank ->
      Csv.processCSVText (join sep (l :: a ++ blank :: b)) source st
      = Csv.processCSVText (join sep (l :: a ++ b)) source st) /\
  (forall text,
      hd 0%N text <> 65279%N ->
      Csv.processCSVText (Csv.BOM ++ text) source st = Csv.processCSVText text source st).
Proof.
  split; [|split].
  - intros sep ls Hsep Hall. destruct ls as [|l ls]; [reflexivity|].
    apply import_lines. rewrite !split_joined; try assumption; [reflexivity|].
    left. reflexivity.
  - intros sep l a blank b Hsep Hall Hblank. apply import_lines.
    assert (Hall' : Forall noLineBreak (l :: a ++ b)).
    { inversion Hall as [|? ? Hl Hr]; subst. constructor; [exact Hl|].
      apply Forall_app in Hr as [Ha Hb]. inversion Hb; subst.
      apply Forall_app. split; assumption. }
    rewrite !split_joined by assumption.
    cbn [filter]. f_equal. rewrite !filter_app. f_equal.
    cbn [filter]. rewrite (blank_not_nonBlank Hblank). reflexivity.
  - intros text Hhd. apply import_lines. f_equal.
    destruct text as [|c r]; [reflexivity|].
    simpl in Hhd. apply N.eqb_neq in Hhd.
    unfold withoutBOM, Csv.BOM. cbn [app]. change (N.eqb 65279 65279) with true.
    cbv iota. rewrite Hhd. reflexivity.
Qed.

Lemma import_ignores_line_ending_blank_line_and_mark_witness :
  Csv.processCSVText (join [13%N; 10%N] [lit "a,b,c"; lit "1,2,3"]) Csv.FILE emptyApp
  = Csv.processCSVText (join [10%N] [lit "a,b,c"; lit "1,2,3"]) Csv.FILE emptyApp.
Proof.
  apply (proj1 (import_ignores_line_ending_blank_line_and_mark Csv.FILE emptyApp)
               [13%N; 10%N] [lit "a,b,c"; lit "1,2,3"]).
  - right. right. reflexivity.
  - repeat constructor; discriminate.
Defined.

End Lines.

(* ================================================================== *)
(** * What the capture groups hold *)
(* ================================================================== *)

Section Captures.

Import Regex OcrService.

Lemma allOf_app (p : char -> bool) (a b : jsstring) :
  allOf p a -> allOf p b -> allOf p (a ++ b).
Proof. intros Ha Hb. apply Forall_app. split; assumption. Qed.

(** A pattern without groups leaves the captures as they are, and what
    it reads lies within the classes it is made of. *)
Lemma star_reads (p : char -> bool)
      (step : list jsstring -> jsstring -> list state) (g : bool) :
  (forall c s x, In x (step c s) ->
                 fst x = c /\ exists l, s = l ++ snd x /\ allOf p l) ->
  forall fuel c s x, In x (star step g fuel c s) ->
                     fst x = c /\ exists l, s = l ++ snd x /\ allOf p l.
Proof.
  intros Hstep. induction fuel as [|f IH]; intros c s x Hx.
  - destruct Hx as [<-|[]]. split; [reflexivity|]. exists []. split; [reflexivity|constructor].
  - rewrite star_S in Hx.
    assert (Hcases : x = (c, s) \/
                     In x (flat_map (fun y => if Nat.ltb (length (snd y)) (length s)
                                              then star step g f (fst y) (snd y) else [])
                                    (step c s))).
    { destruct g.
      - apply in_app_or in Hx as [Hx|[<-|[]]]; auto.
      - destruct Hx as [<-|Hx]; auto. }
    destruct Hcases as [->|Hin].
    + split; [reflexivity|]. exists []. split; [reflexivity|constructor].
    + apply in_flat_map in Hin as (y & Hy & Hxy).
      destruct (Nat.ltb (length (snd y)) (length s)); [|contradiction].
      destruct (Hstep _ _ _ Hy) as (E1 & l1 & S1 & A1).
      destruct (IH _ _ _ Hxy) as (E2 & l2 & S2 & A2).
      split; [congruence|]. exists (l1 ++ l2).
      split; [rewrite S1, S2, app_assoc; reflexivity|apply allOf_app; assumption].
Qed.

Lemma run_reads (n : nat) (p : char -> bool) (r : re) :
  groupless r = true -> within p r ->
  forall c s x, In x (run n r c s) ->
                fst x = c /\ exists l, s = l ++ snd x /\ allOf p l.
Proof.
  assert (Hnil : forall (c : list jsstring) (s : jsstring),
             fst (c, s) = c /\ exists l, s = l ++ snd (c, s) /\ allOf p l).
  { intros c s. split; [reflexivity|]. exists []. split; [reflexivity|constructor]. }
  induction r as [|q|a IHa b IHb|a IHa b IHb|g a IHa|a IHa| |];
    intros Hg Hw c s x Hx; cbn [run] in Hx; cbn [groupless] in Hg; cbn [within] in Hw.
  - destruct Hx as [<-|[]]. apply Hnil.
  - destruct s as [|ch t]; [contradiction|]. destruct (q ch) eqn:E; [|contradiction].
    destruct Hx as [<-|[]]. split; [reflexivity|]. exists [ch].
    split; [reflexivity|]. constructor; [apply Hw; exact E|constructor].
  - apply andb_true_iff in Hg as [Hga Hgb]. destruct Hw as [Hwa Hwb].
    apply in_flat_map in Hx as (y & Hy & Hxy).
    destruct (IHa Hga Hwa _ _ _ Hy) as (E1 & l1 & S1 & A1).
    destruct (IHb Hgb Hwb _ _ _ Hxy) as (E2 & l2 & S2 & A2).
    split; [congruence|]. exists (l1 ++ l2).
    split; [rewrite S1, S2, app_assoc; reflexivity|apply allOf_app; assumption].
  - apply andb_true_iff in Hg as [Hga Hgb]. destruct Hw as [Hwa Hwb].
    apply in_app_or in Hx as [Hx|Hx]; [eapply IHa|eapply IHb]; eassumption.
  - eapply star_reads; [|exact Hx]. intros c' s' x' Hx'. eapply IHa; eassumption.
  - discriminate.
  - destruct (Nat.eqb (length s) n); [|contradiction]. destruct Hx as [<-|[]]. apply Hnil.
  - destruct s; [|contradiction]. destruct Hx as [<-|[]]. apply Hnil.
Qed.

Lemma within_any (r : re) : within (fun _ => true) r.
Proof.
  induction r; cbn [within]; auto.
Qed.

(** A pattern without groups leaves the captures as they are. *)
Lemma run_groupless (n : nat) (r : re) (c : list jsstring) (s : jsstring)
      (x : list jsstring * jsstring) :
  groupless r = true -> In x (run n r c s) -> fst x = c.
Proof.
  intros Hg Hx. eapply run_reads; [exact Hg|apply within_any|exact Hx].
Qed.

(** A group around one or more characters of a class captures a text of
    the class that is not empty. *)
Lemma run_Grp_plus (n : nat) (g : bool) (p : char -> bool) (c : list jsstring)
      (s : jsstring) (x : list jsstring * jsstring) :
  In x (run n (Grp (plus g (Cls p))) c s) ->
  exists l, fst x = c ++ [l] /\ l <> [] /\ allOf p l.
Proof.
  intro Hx.
  change (run n (Grp ?a) c s)
    with (map (fun x => (fst x ++ [firstn (length s - length (snd x)) s], snd x))
              (run n a c s)) in Hx.
  apply in_map_iff in Hx as (y & <- & Hy). cbn [fst].
  assert (Hr : fst y = c /\ exists l, s = l ++ snd y /\ allOf p l).
  { eapply (@run_reads n p (plus g (Cls p))); [reflexivity| |exact Hy].
    cbn [plus within]. split; intros ch Hch; exact Hch. }
  destruct Hr as (E & l & S & A).
  exists l. split; [|split; [|exact A]].
  - rewrite E. f_equal. f_equal. rewrite S at 2. rewrite S at 1. rewrite length_app.
    replace (length l + length (snd y) - length (snd y))%nat with (length l + 0)%nat by lia.
    rewrite firstn_app_2. simpl. apply app_nil_r.
  - unfold plus in Hy. apply run_Cls_Seq in Hy as (ch & t' & Hs & _ & Hy).
    apply run_suffix in Hy. apply suffixOf_length in Hy.
    intros ->. simpl in S. apply (f_equal (@length N)) in S, Hs. simpl in Hs. lia.
Qed.

(** The captures of a match are those of a way to match at some
    position. *)
Lemma exec_groups (r : re) (s : jsstring) (m : MatchResult) :
  exec r s = Some m ->
  exists t x, In x (run (length s) r [] t) /\ groups m = fst x.
Proof.
  unfold exec. intro H. apply execFrom_Some in H as (t & x & l & _ & Hr & _ & Hg).
  exists t, x. split; [rewrite Hr; left; reflexivity|exact Hg].
Qed.

Lemma exec_AGE_GENDER (s : jsstring) (m : MatchResult) :
  exec PATTERNS.AGE_GENDER s = Some m ->
  exists a g, groups m = [a; g] /\ a <> [] /\ allOf isDigit a /\
              g <> [] /\ allOf isLetter g.
Proof.
  intro H. apply exec_groups in H as (t & x & Hx & ->).
  unfold PATTERNS.AGE_GENDER in Hx.
  apply run_Seq_In in Hx as (y1 & H1 & Hx). apply run_groupless in H1; [|reflexivity].
  apply run_Seq_In in Hx as (y2 & H2 & Hx). apply run_groupless in H2; [|reflexivity].
  apply run_Seq_In in Hx as (y3 & H3 & Hx).
  apply run_Grp_plus in H3 as (a & E3 & Ha & Da).
  apply run_Seq_In in Hx as (y4 & H4 & Hx). apply run_groupless in H4; [|reflexivity].
  apply run_Seq_In in Hx as (y5 & H5 & Hx). apply run_groupless in H5; [|reflexivity].
  apply run_Seq_In in Hx as (y6 & H6 & Hx). apply run_groupless in H6; [|reflexivity].
  apply run_Grp_plus in Hx as (g & E & Hg & Lg).
  exists a, g. split; [|tauto].
  rewrite E, H6, H5, H4, E3, H2, H1. reflexivity.
Qed.

Lemma exec_SL_NO (s : jsstring) (m : MatchResult) :
  exec SL_NO s = Some m -> exists a, groups m = [a] /\ a <> [] /\ allOf isDigit a.
Proof.
  intro H. apply exec_groups in H as (t & x & Hx & ->).
  unfold SL_NO in Hx.
  apply run_Seq_In in Hx as (y1 & H1 & Hx). apply run_groupless in H1; [|reflexivity].
  apply run_Grp_plus in Hx as (a & E & Ha & Da).
  exists a. split; [|tauto]. rewrite E, H1. reflexivity.
Qed.

Lemma exec_HOUSE (s : jsstring) (m : MatchResult) :
  exec PATTERNS.HOUSE s = Some m ->
  exists a, groups m = [a] /\ a <> [] /\ allOf isHouseChar a.
Proof.
  intro H. apply exec_groups in H as (t & x & Hx & ->).
  unfold PATTERNS.HOUSE in Hx.
  apply run_Seq_In in Hx as (y1 & H1 & Hx). apply run_groupless in H1; [|reflexivity].
  apply run_Seq_In in Hx as (y2 & H2 & Hx). apply run_groupless in H2; [|reflexivity].
  apply run_Seq_In in Hx as (y3 & H3 & Hx).
  apply run_Grp_plus in H3 as (a & E3 & Ha & Da).
  apply run_groupless in Hx; [|reflexivity].
  exists a. split; [|tauto]. rewrite Hx, E3, H2, H1. reflexivity.
Qed.

Lemma exec_NAME (s : jsstring) (m : MatchResult) :
  exec PATTERNS.NAME s = Some m ->
  exists a, groups m = [a] /\ a <> [] /\ allOf (fun c => negb (isLineTerminator c)) a.
Proof.
  intro H. apply exec_groups in H as (t & x & Hx & ->).
  unfold PATTERNS.NAME in Hx.
  apply run_Seq_In in Hx as (y1 & H1 & Hx). apply run_groupless in H1; [|reflexivity].
  apply run_Seq_In in Hx as (y2 & H2 & Hx). apply run_groupless in H2; [|reflexivity].
  apply run_Seq_In in Hx as (y3 & H3 & Hx).
  apply run_Grp_plus in H3 as (a & E3 & Ha & Da).
  apply run_groupless in Hx; [|reflexivity].
  exists a. split; [|tauto]. rewrite Hx, E3, H2, H1. reflexivity.
Qed.

Lemma exec_RELATIVE (s : jsstring) (m : MatchResult) :
  exec PATTERNS.RELATIVE s = Some m ->
  exists a, groups m = [a] /\ a <> [] /\ allOf (fun c => negb (isLineTerminator c)) a.
Proof.
  intro H. apply exec_groups in H as (t & x & Hx & ->).
  unfold PATTERNS.RELATIVE in Hx.
  apply run_Seq_In in Hx as (y1 & H1 & Hx). apply run_groupless in H1; [|reflexivity].
  apply run_Seq_In in Hx as (y2 & H2 & Hx). apply run_groupless in H2; [|reflexivity].
  apply run_Seq_In in Hx as (y3 & H3 & Hx). apply run_groupless in H3; [|reflexivity].
  apply run_Seq_In in Hx as (y4 & H4 & Hx). apply run_groupless in H4; [|reflexivity].
  apply run_Seq_In in Hx as (y5 & H5 & Hx).
  apply run_Grp_plus in H5 as (a & E5 & Ha & Da).
  apply run_groupless in Hx; [|reflexivity].
  exists a. split; [|tauto]. rewrite Hx, E5, H4, H3, H2, H1. reflexivity.
Qed.

Lemma trim_allOf (p : char -> bool) (s : jsstring) : allOf p s -> allOf p (trim s).
Proof. apply infixOf_Forall. apply trim_infix. Qed.

End Captures.

Section FieldShapes.

Import Regex OcrService.

Lemma ageBucket_digits (d : jsstring) :
  allOf isDigit d -> d <> [] -> Dashboard.ageBucket d <> lit "Unknown".
Proof.
  intros Hd Hne. unfold Dashboard.ageBucket.
  destruct (parseInt_digits Hd Hne) as [n ->].
  destruct (Z.ltb (Z.of_N n) 30); [discriminate|].
  destruct (Z.ltb (Z.of_N n) 45); [discriminate|].
  destruct (Z.ltb (Z.of_N n) 60); discriminate.
Qed.

Lemma trimmedGroup_shape (p : char -> bool) (r : re) (s dflt : jsstring) :
  (forall m, exec r s = Some m -> exists a, groups m = [a] /\ a <> [] /\ allOf p a) ->
  allOf p dflt -> trim dflt = dflt ->
  allOf p (trimmedGroup 1 dflt (exec r s)) /\
  trim (trimmedGroup 1 dflt (exec r s)) = trimmedGroup 1 dflt (exec r s).
Proof.
  intros H Hd Ht. destruct (exec r s) as [m|]; cbn [trimmedGroup]; [|split; assumption].
  destruct (H m eq_refl) as (a & E & _ & Ha).
  unfold group. rewrite E. cbn [Nat.sub nth].
  split; [apply trim_allOf; exact Ha|apply trim_idem].
Qed.

(** X12.  Whatever the text of a card, the fields read off it have the
    shape of their capture groups: serial number and age are decimal
    digits, the gender is ASCII letters, the house number is made of
    digits, letters, hyphens, slashes and white space, and neither name
    holds a line terminator; the names and the house number are
    trimmed.  Age and gender are empty together, exactly when the
    age-gender pattern does not match, and the age bucket of the
    dashboard is Unknown exactly when the age is empty. *)
Theorem extracted_fields_have_the_shape_of_their_groups (card : jsstring) :
  allOf isDigit (f_sl_no (extractFields card)) /\
  allOf isDigit (f_age (extractFields card)) /\
  allOf isLetter (f_gender (extractFields card)) /\
  (f_age (extractFields card) = [] <-> exec PATTERNS.AGE_GENDER card = None) /\
  (f_gender (extractFields card) = [] <-> exec PATTERNS.AGE_GENDER card = None) /\
  (allOf isHouseChar (f_house_no (extractFields card)) /\
   trim (f_house_no (extractFields card)) = f_house_no (extractFields card)) /\
  (allOf (fun c => negb (isLineTerminator c)) (f_name_en (extractFields card)) /\
   trim (f_name_en (extractFields card)) = f_name_en (extractFields card)) /\
  (allOf (fun c => negb (isLineTerminator c)) (f_relative_name (extractFields card)) /\
   trim (f_relative_name (extractFields card)) = f_relative_name (extractFields card)) /\
  (Dashboard.ageBucket (f_age (extractFields card)) = lit "Unknown"
   <-> f_age (extractFields card) = []).
Proof.
  unfold extractFields.
  cbn [f_sl_no f_age f_gender f_house_no f_name_en f_relative_name].
  assert (HAG : match exec PATTERNS.AGE_GENDER card with
                | Some m => exists a g, groups m = [a; g] /\ a <> [] /\ allOf isDigit a /\
                                        g <> [] /\ allOf isLetter g
                | None => True
                end).
  { destruct (exec PATTERNS.AGE_GENDER card) as [m|] eqn:E; [|exact I].
    eapply exec_AGE_GENDER. exact E. }
  assert (Hage : allOf isDigit (rawGroup 1 [] (exec PATTERNS.AGE_GENDER card)) /\
                 (rawGroup 1 [] (exec PATTERNS.AGE_GENDER card) = []
                  <-> exec PATTERNS.AGE_GENDER card = None)).
  { destruct (exec PATTERNS.AGE_GENDER card) as [m|]; cbn [rawGroup].
    - destruct HAG as (a & g & E & Ha & Da & _). unfold group. rewrite E. cbn [Nat.sub nth].
      split; [exact Da|]. split; [intro; contradiction|discriminate].
    - split; [constructor|]. split; reflexivity. }
  split; [|split; [exact (proj1 Hage)|]].
  { destruct (exec SL_NO card) as [m|] eqn:E; cbn [rawGroup]; [|constructor].
    apply exec_SL_NO in E as (a & E & _ & Da). unfold group. rewrite E. exact Da. }
  split; [|split; [exact (proj2 Hage)|]].
  { destruct (exec PATTERNS.AGE_GENDER card) as [m|]; cbn [rawGroup]; [|constructor].
    destruct HAG as (a & g & E & _ & _ & _ & Lg). unfold group. rewrite E. exact Lg. }
  split.
  { destruct (exec PATTERNS.AGE_GENDER card) as [m|]; cbn [rawGroup].
    - destruct HAG as (a & g & E & _ & _ & Hg & _). unfold group. rewrite E. cbn [Nat.sub nth].
      split; [intro; contradiction|discriminate].
    - split; reflexivity. }
  split; [apply trimmedGroup_shape;
          [intros m Hm; eapply exec_HOUSE; exact Hm|constructor|reflexivity]|].
  split; [apply trimmedGroup_shape;
          [intros m Hm; eapply exec_NAME; exact Hm|repeat constructor|reflexivity]|].
  split; [apply trimmedGroup_shape;
          [intros m Hm; eapply exec_RELATIVE; exact Hm|constructor|reflexivity]|].
  split.
  - intro Hb. destruct (rawGroup 1 [] (exec PATTERNS.AGE_GENDER card)) as [|c r] eqn:E;
      [reflexivity|exfalso].
    revert Hb. apply ageBucket_digits; [exact (proj1 Hage)|discriminate].
  - intros ->. reflexivity.
Qed.

End FieldShapes.

(* ================================================================== *)
(** * The records of the local strategies *)
(* ================================================================== *)

Section LocalRecords.

Import Regex OcrService.

Variable sortBy : forall A : Type, (A -> A -> Q) -> list A -> list A.
Variable decodeURIComponent : jsstring -> outcome jsstring.
Variable cropImage : jsstring -> list Q -> jsstring.

Lemma voterOfCard_fresh (card epic assembly pollingStation : jsstring)
      (photo : option jsstring) (page : number) :
  epic <> [] ->
  freshRecord page (voterOfCard card epic assembly pollingStation photo page).
Proof. intro H. repeat (split; [reflexivity|]). exact H. Qed.

(** X13.  Both local strategies return one record per anchor, in the
    order of the anchors, with the normalised id of its anchor; the
    branch that skips an anchor with an empty id is never taken.  Every
    record is unmarked, carries the page number, and shares the header
    fields of the page with the others.  The text-layer strategy never
    sets a photo; the OCR strategy sets one exactly when photos are
    asked for. *)
Theorem local_records_follow_the_anchors
        (items : list Item) (img : jsstring) (words : list Word)
        (page : number) (photos : bool) :
  (map epic_no (votersOfItems sortBy items page)
   = map (fun i => epicOf (text i)) (epicItems items) /\
   Forall (fun v => freshRecord page v /\ photoBase64 v = None)
          (votersOfItems sortBy items page) /\
   sameHeader (votersOfItems sortBy items page)) /\
  (map epic_no (votersOfWords sortBy cropImage img words page photos)
   = map (fun wd => epicOf (wtext wd)) (epics words) /\
   Forall (fun v => freshRecord page v /\
                    (photoBase64 v = None <-> photos = false))
          (votersOfWords sortBy cropImage img words page photos) /\
   sameHeader (votersOfWords sortBy cropImage img words page photos)).
Proof.
  split.
  - unfold votersOfItems. cbv zeta.
    split; [rewrite map_map; reflexivity|]. split.
    + apply Forall_map. apply Forall_forall. intros i Hi.
      split; [|reflexivity]. apply voterOfCard_fresh.
      apply epicOf_nonempty. unfold epicItems in Hi. apply filter_In in Hi. tauto.
    + intros v v' Hv Hv'.
      apply in_map_iff in Hv as (i & <- & _). apply in_map_iff in Hv' as (i' & <- & _).
      split; reflexivity.
  - unfold votersOfWords. cbv zeta.
    assert (Hall : Forall (fun wd => test PATTERNS.EPIC (wtext wd) = true) (epics words)).
    { apply Forall_forall. intros wd Hwd. unfold epics in Hwd.
      apply filter_In in Hwd. tauto. }
    split; [|split].
    + induction Hall as [|wd l Hwd _ IH]; [reflexivity|].
      cbn [flat_map map]. rewrite map_app, IH.
      pose proof (epicOf_nonempty _ Hwd) as Hne.
      destruct (epicOf (wtext wd)); [congruence|reflexivity].
    + apply Forall_flat_map. eapply Forall_impl; [|exact Hall].
      intros wd Hwd. pose proof (epicOf_nonempty _ Hwd) as Hne.
      destruct (epicOf (wtext wd)) as [|c r] eqn:E; [constructor|].
      constructor; [|constructor]. split; [apply voterOfCard_fresh; discriminate|].
      cbn [voterOfCard photoBase64]. destruct photos; split; congruence.
    + intros v v' Hv Hv'.
      apply in_flat_map in Hv as (wd & _ & Hv). apply in_flat_map in Hv' as (wd' & _ & Hv').
      destruct (epicOf (wtext wd)); [contradiction|].
      destruct (epicOf (wtext wd')); [contradiction|].
      destruct Hv as [<-|[]]. destruct Hv' as [<-|[]]. split; reflexivity.
Qed.

Lemma decodeItems_Returned (textItems : list TextItem) (items : list Item) :
  decodeItems decodeURIComponent textItems = Returned items <->
  Forall2 (fun t i => decodeURIComponent (str t) = Returned (text i) /\
                      x i = transform4 t /\ y i = transform5 t /\
                      w i = width t /\ h i = height t) textItems items.
Proof.
  revert items. induction textItems as [|t r IH]; intros items; cbn [decodeItems].
  - split; [intro H; injection H as <-; constructor|intro H; inversion H; reflexivity].
  - split.
    + destruct (decodeURIComponent (str t)) as [s|e] eqn:E; [|discriminate].
      destruct (decodeItems decodeURIComponent r) as [l|e]; [|discriminate].
      intro H. injection H as <-. constructor; [|apply IH; reflexivity].
      cbn. split; [exact E|repeat split; reflexivity].
    + intro H. inversion H as [|? i ? l (Hd & Hx & Hy & Hw & Hh) Hr]; subst.
      rewrite Hd. apply IH in Hr. rewrite Hr.
      destruct i; cbn in *; subst. reflexivity.
Qed.

Lemma decodeItems_Thrown (textItems : list TextItem) (e : jsstring) :
  decodeItems decodeURIComponent textItems = Thrown e <->
  exists pre t post,
    textItems = pre ++ t :: post /\
    Forall (fun u => exists s, decodeURIComponent (str u) = Returned s) pre /\
    decodeURIComponent (str t) = Thrown e.
Proof.
  induction textItems as [|t r IH]; cbn [decodeItems].
  - split; [discriminate|]. intros ([|? ?] & ? & ? & E & _); discriminate.
  - destruct (decodeURIComponent (str t)) as [s|e'] eqn:E.
    + destruct (decodeItems decodeURIComponent r) as [l|e'].
      * split; [discriminate|]. intros (pre & u & post & Hl & Hpre & Hu).
        destruct pre as [|p pre]; simpl in Hl; injection Hl as -> ->; [congruence|].
        inversion Hpre; subst.
        assert (K : @Returned (list Item) l = Thrown e); [|discriminate].
        apply IH. exists pre, u, post. repeat split; assumption.
      * split.
        -- intro H. apply IH in H as (pre & u & post & -> & Hpre & Hu).
           exists (t :: pre), u, post. split; [reflexivity|]. split; [|exact Hu].
           constructor; [exists s; exact E|exact Hpre].
        -- intros (pre & u & post & Hl & Hpre & Hu).
           destruct pre as [|p pre]; simpl in Hl; injection Hl as -> ->; [congruence|].
           inversion Hpre; subst. apply IH. exists pre, u, post. repeat split; assumption.
    + split.
      * intro H. injection H as <-. exists [], t, r. repeat split; [constructor|exact E].
      * intros (pre & u & post & Hl & Hpre & Hu).
        destruct pre as [|p pre]; simpl in Hl; injection Hl as -> ->; [congruence|].
        inversion Hpre as [|? ? [s Hs] _]; subst. congruence.
Qed.

(** X14.  The text-layer strategy throws exactly when the text of some
    item does not decode, with the error of the first such item; no
    record of the page is returned then.  When every text decodes it
    returns the records of the decoded items, which keep the position
    and the size of the text items. *)
Theorem digital_text_fails_on_the_first_undecodable_item
        (textItems : list TextItem) (page : number) :
  (forall e,
      extractVotersFromDigitalText sortBy decodeURIComponent textItems page = Thrown e <->
      exists pre t post,
        textItems = pre ++ t :: post /\
        Forall (fun u => exists s, decodeURIComponent (str u) = Returned s) pre /\
        decodeURIComponent (str t) = Thrown e) /\
  (forall vs,
      extractVotersFromDigitalText sortBy decodeURIComponent textItems page = Returned vs <->
      exists items,
        Forall2 (fun t i => decodeURIComponent (str t) = Returned (text i) /\
                            x i = transform4 t /\ y i = transform5 t /\
                            w i = width t /\ h i = height t) textItems items /\
        vs = votersOfItems sortBy items page).
Proof.
  unfold extractVotersFromDigitalText. split.
  - intro e. rewrite <- decodeItems_Thrown.
    destruct (decodeItems decodeURIComponent textItems); split; congruence.
  - intro vs. split.
    + destruct (decodeItems decodeURIComponent textItems) as [items|e] eqn:E; [|discriminate].
      intro H. injection H as <-. exists items. split; [|reflexivity].
      apply decodeItems_Returned. exact E.
    + intros (items & H & ->). apply decodeItems_Returned in H. rewrite H. reflexivity.
Qed.

End LocalRecords.

(* ================================================================== *)
(** * An anchor and its own window *)
(* ================================================================== *)

Section OwnWindow.

Import Regex OcrService.

Variable sortBy : forall A : Type, (A -> A -> Q) -> list A -> list A.
Hypothesis sortBy_perm : forall (A : Type) (cmp : A -> A -> Q) (l : list A),
    Permutation (sortBy cmp l) l.

Lemma join_In_infix (sep a : jsstring) (l : list jsstring) :
  In a l -> infixOf a (join sep l).
Proof.
  induction l as [|b l IH]; [contradiction|]. intros [->|Hin].
  - destruct l as [|b' l']; [exists [], []; rewrite app_nil_r; reflexivity|].
    exists [], (sep ++ join sep (b' :: l')). reflexivity.
  - destruct l as [|b' l']; [contradiction|].
    destruct (IH Hin) as (p & q & E).
    exists (b ++ sep ++ p), q.
    change (join sep (b :: b' :: l')) with (b ++ sep ++ join sep (b' :: l')).
    rewrite E, <- !app_assoc. reflexivity.
Qed.

(** X15.  The window of an anchor always holds the anchor itself, in
    the text layer and in the OCR result, whatever its position and
    size; so the card of an anchor is never empty, and the card text of
    the OCR strategy holds the text of the anchor. *)
Theorem anchor_lies_in_its_own_window (items : list Item) (words : list Word) :
  (forall a, In a (epicItems items) -> In a (sortedCardItems sortBy items a)) /\
  (forall a, In a (epics words) ->
             In a (sortedCardWords sortBy words a) /\
             infixOf (wtext a) (join [32%N] (map wtext (sortedCardWords sortBy words a)))).
Proof.
  split.
  - intros a Ha. unfold sortedCardItems, cardItems.
    eapply Permutation_in; [apply Permutation_sym, sortBy_perm|].
    apply filter_In. split; [unfold epicItems in Ha; apply filter_In in Ha; tauto|].
    unfold inRegion, regionOf. cbn [xMin xMax yMin yMax].
    rewrite !andb_true_iff, !Qle_bool_iff. repeat split; lra.
  - intros a Ha.
    assert (Hin : In a (sortedCardWords sortBy words a)).
    { unfold sortedCardWords, cardWords.
      eapply Permutation_in; [apply Permutation_sym, sortBy_perm|].
      apply filter_In. split; [unfold epics in Ha; apply filter_In in Ha; tauto|].
      unfold inCard, cardRegion. cbn [x0 x1 y0 y1].
      rewrite !andb_true_iff, !Qle_bool_iff. repeat split; lra. }
    split; [exact Hin|]. apply join_In_infix. apply in_map. exact Hin.
Qed.

End OwnWindow.

Lemma anchor_lies_in_its_own_window_witness :
  In anchorA (OcrService.sortedCardItems insertionSort sampleItems anchorA).
Proof.
  apply (proj1 (@anchor_lies_in_its_own_window insertionSort insertionSort_perm
                  sampleItems sampleWords) anchorA).
  rewrite (proj1 sample_anchors). left. reflexivity.
Defined.

(* ================================================================== *)
(** * The schedule of the remote strategy *)
(* ================================================================== *)

Section Schedule.

Import GeminiService.

Variable generateContent : nat -> jsstring -> outcome (option jsstring).
Variable JSON_parse : jsstring -> Parsed.
Variable cropImage : jsstring -> list Q -> jsstring.
Variable random : nat -> Q.

Local Abbreviation body :=
  (fun img page photos i =>
     attemptBody generateContent JSON_parse cropImage img page photos i (modelOf i))
  (only parsing).
Local Abbreviation loop := (attemptLoop generateContent JSON_parse cropImage random)
  (only parsing).
Local Abbreviation remote :=
  (fun key => extractVotersFromImage (Some key) generateContent JSON_parse cropImage random)
  (only parsing).

Lemma attemptLoop_rounds (img : jsstring) (page : number) (photos : bool) (n : nat) :
  forall fuel attempt tr,
    (attempt + n < maxRetries)%nat -> (n < fuel)%nat ->
    (forall i, (attempt <= i < attempt + n)%nat ->
               exists e, body img page photos i = Thrown e) ->
    loop fuel img page photos attempt tr
    = loop (fuel - n)%nat img page photos (attempt + n)%nat
           (tr ++ failedRounds random attempt n).
Proof.
  induction n as [|n IH]; intros fuel attempt tr Hlt Hfuel Hfail.
  - rewrite Nat.sub_0_r, Nat.add_0_r. unfold failedRounds. simpl. rewrite app_nil_r.
    reflexivity.
  - destruct fuel as [|f]; [lia|].
    destruct (Hfail attempt ltac:(lia)) as [e He].
    rewrite (@attemptLoop_retry generateContent JSON_parse cropImage random
               f img page photos attempt tr e); [|lia|exact He].
    rewrite IH; [|lia|lia|intros i Hi; apply Hfail; lia].
    replace (S f - S n)%nat with (f - n)%nat by lia.
    replace (S attempt + n)%nat with (attempt + S n)%nat by lia.
    f_equal. rewrite <- app_assoc. reflexivity.
Qed.

Lemma first_success (img : jsstring) (page : number) (photos : bool) (n : nat) :
  (forall i, (i < n)%nat -> exists e, body img page photos i = Thrown e) \/
  (exists k vs, (k < n)%nat /\
                (forall i, (i < k)%nat -> exists e, body img page photos i = Thrown e) /\
                body img page photos k = Returned vs).
Proof.
  induction n as [|n [IH|IH]].
  - left. intros i Hi. lia.
  - destruct (body img page photos n) as [vs|e] eqn:E.
    + right. exists n, vs. split; [lia|]. split; [intros i Hi; apply IH; lia|exact E].
    + left. intros i Hi. destruct (Nat.eq_dec i n) as [->|Hne]; [exists e; exact E|].
      apply IH. lia.
  - right. destruct IH as (k & vs & Hk & Hf & Hs). exists k, vs. split; [lia|]. tauto.
Qed.

Lemma requests_rounds (a k : nat) (tail : list Event) :
  requests (failedRounds random a k ++ tail) = (k + requests tail)%nat.
Proof.
  revert a. induction k as [|k IH]; intro a; [reflexivity|].
  unfold failedRounds in *. cbn [seq flat_map app requests]. rewrite IH. reflexivity.
Qed.

Lemma failedRounds_S (a k : nat) :
  failedRounds random a (S k)
  = Request (modelOf a) :: Sleep (delayAfter random a) :: failedRounds random (S a) k.
Proof. reflexivity. Qed.

(** The pauses of [k] failed attempts from attempt [a] on add up to at
    most 1500 (a+1) + ... + 1500 (a+k) plus [k] jitters of 500. *)
Lemma totalSleep_rounds (a k : nat) (m : jsstring) :
  (forall i, 0 <= random i /\ random i < 1)%Q ->
  (totalSleep (failedRounds random a k ++ [Request m])
   <= 750 * inject_Z (Z.of_nat k)
          * (2 * inject_Z (Z.of_nat a) + inject_Z (Z.of_nat k) + 1)
      + 500 * inject_Z (Z.of_nat k))%Q.
Proof.
  intro Hr. revert a. induction k as [|k IH]; intro a.
  - unfold failedRounds. cbn [seq flat_map app totalSleep].
    change (inject_Z (Z.of_nat 0)) with 0%Q. lra.
  - rewrite failedRounds_S. cbn [app totalSleep].
    specialize (IH (S a)). destruct (Hr a) as [R0 R1].
    match type of IH with (?t <= _)%Q => remember t as T end.
    unfold delayAfter, baseDelay.
    rewrite !Nat2Z.inj_succ, <- !Z.add_1_r, !inject_Z_plus in *.
    change (inject_Z 1) with 1%Q in *.
    remember (inject_Z (Z.of_nat a)) as A. remember (inject_Z (Z.of_nat k)) as K.
    remember (random a) as r.
    lra.
Qed.

Lemma totalSleep_rounds_strict (a k : nat) (m : jsstring) :
  (forall i, 0 <= random i /\ random i < 1)%Q ->
  (totalSleep (failedRounds random a (S k) ++ [Request m])
   < 750 * inject_Z (Z.of_nat (S k))
         * (2 * inject_Z (Z.of_nat a) + inject_Z (Z.of_nat (S k)) + 1)
     + 500 * inject_Z (Z.of_nat (S k)))%Q.
Proof.
  intro Hr. rewrite failedRounds_S. cbn [app totalSleep].
  pose proof (@totalSleep_rounds (S a) k m Hr) as IH. destruct (Hr a) as [R0 R1].
  match type of IH with (?t <= _)%Q => remember t as T end.
  unfold delayAfter, baseDelay.
  rewrite !Nat2Z.inj_succ, <- !Z.add_1_r, !inject_Z_plus in *.
  change (inject_Z 1) with 1%Q in *.
  remember (inject_Z (Z.of_nat a)) as A. remember (inject_Z (Z.of_nat k)) as K.
  remember (random a) as r.
  lra.
Qed.

(** X16.  With an API key present the remote strategy makes the
    attempts 0 to 5 in order until one returns: its result is that of
    the first attempt that returns, after one request and one pause for
    each attempt that failed before it; when all six fail the result is
    the empty list, after six requests and five pauses.  Attempt i goes
    to model i modulo 3.  So there are never more than six requests,
    and with jitters below 500 ms the pauses add up to less than 25
    seconds. *)
Theorem remote_attempts_follow_the_schedule
        (key img : jsstring) (page : number) (photos : bool) :
  key <> [] ->
  (forall k vs,
      (k < maxRetries)%nat ->
      (forall i, (i < k)%nat -> exists e, body img page photos i = Thrown e) ->
      body img page photos k = Returned vs ->
      remote key img page photos
      = (failedRounds random 0 k ++ [Request (modelOf k)], Returned vs)) /\
  ((forall i, (i < maxRetries)%nat -> exists e, body img page photos i = Thrown e) ->
   remote key img page photos
   = (failedRounds random 0 5 ++ [Request (modelOf 5)], Returned [])) /\
  (exists k vs,
      (k < maxRetries)%nat /\
      remote key img page photos
      = (failedRounds random 0 k ++ [Request (modelOf k)], Returned vs)) /\
  (requests (fst (remote key img page photos)) <= 6)%nat /\
  ((forall i, 0 <= random i /\ random i < 1)%Q ->
   (totalSleep (fst (remote key img page photos)) < 25000)%Q).
Proof.
  intro Hkey. destruct key as [|c key]; [congruence|].
  assert (Hok : forall k vs,
      (k < maxRetries)%nat ->
      (forall i, (i < k)%nat -> exists e, body img page photos i = Thrown e) ->
      body img page photos k = Returned vs ->
      remote (c :: key) img page photos
      = (failedRounds random 0 k ++ [Request (modelOf k)], Returned vs)).
  { intros k vs Hk Hfail Hs.
    assert (E : loop (S maxRetries) img page photos 0%nat []
                = (failedRounds random 0 k ++ [Request (modelOf k)], vs)).
    { rewrite (@attemptLoop_rounds img page photos k); [|lia|unfold maxRetries in *; lia|].
      - destruct (S maxRetries - k)%nat as [|f] eqn:Ef; [unfold maxRetries in *; lia|].
        rewrite (@attemptLoop_success generateContent JSON_parse cropImage random
                   f img page photos (0 + k) _ vs); [reflexivity|exact Hk|exact Hs].
      - intros i Hi. apply Hfail. lia. }
    unfold extractVotersFromImage. cbv zeta. rewrite E. reflexivity. }
  assert (Hall :
    (forall i, (i < maxRetries)%nat -> exists e, body img page photos i = Thrown e) ->
    remote (c :: key) img page photos
    = (failedRounds random 0 5 ++ [Request (modelOf 5)], Returned [])).
  { intro Hfail.
    assert (E : loop (S maxRetries) img page photos 0%nat []
                = (failedRounds random 0 5 ++ [Request (modelOf 5)], [])).
    { rewrite (@attemptLoop_rounds img page photos 5);
        [|unfold maxRetries; lia|unfold maxRetries; lia|].
      - destruct (Hfail 5%nat ltac:(unfold maxRetries; lia)) as [e He].
        change (S maxRetries - 5)%nat with 2%nat.
        rewrite (@attemptLoop_give_up generateContent JSON_parse cropImage random
                   1 img page photos (0 + 5) _ e); [reflexivity|reflexivity|exact He].
      - intros i Hi. apply Hfail. unfold maxRetries. lia. }
    unfold extractVotersFromImage. cbv zeta. rewrite E. reflexivity. }
  assert (Hex : exists k vs,
      (k < maxRetries)%nat /\
      remote (c :: key) img page photos
      = (failedRounds random 0 k ++ [Request (modelOf k)], Returned vs)).
  { destruct (first_success img page photos maxRetries) as [Hfail|(k & vs & Hk & Hf & Hs)].
    - exists 5%nat, []. split; [unfold maxRetries; lia|apply Hall; exact Hfail].
    - exists k, vs. split; [exact Hk|apply Hok; assumption]. }
  split; [exact Hok|]. split; [exact Hall|]. split; [exact Hex|].
  destruct Hex as (k & vs & Hk & E). rewrite E. cbn [fst]. split.
  - rewrite requests_rounds. simpl. unfold maxRetries in Hk. lia.
  - intro Hr. unfold maxRetries in Hk. destruct k as [|k]; [reflexivity|].
    eapply Qlt_le_trans; [apply totalSleep_rounds_strict; exact Hr|].
    assert (K : (k = 0 \/ k = 1 \/ k = 2 \/ k = 3 \/ k = 4)%nat) by lia.
    destruct K as [->|[->|[->|[->| ->]]]]; vm_compute; discriminate.
Qed.

End Schedule.

Lemma remote_attempts_follow_the_schedule_witness :
  (requests (fst (GeminiService.extractVotersFromImage
                    (Some (lit "key")) sampleGenerate sampleParse noCrop halfJitter
                    [] (Int 3) false)) <= 6)%nat.
Proof.
  refine (proj1 (proj2 (proj2 (proj2
            (@remote_attempts_follow_the_schedule sampleGenerate sampleParse noCrop
               halfJitter (lit "key") [] (Int 3) false _))))).
  discriminate.
Defined.

(* ================================================================== *)
(** * What the local fallback collects *)
(* ================================================================== *)

Section Collected.

Import LocalFallback.

Variable getPdfPageAsBase64 : nat -> outcome jsstring.
Variable extractVotersFromImage : jsstring -> number -> bool -> outcome (list Voter).
Variable completion : list nat -> list nat.
Hypothesis completion_perm : forall b, Permutation (completion b) b.

Local Abbreviation pageVoters :=
  (pageVoters getPdfPageAsBase64 extractVotersFromImage) (only parsing).
Local Abbreviation processBatch :=
  (processBatch getPdfPageAsBase64 extractVotersFromImage completion) (only parsing).
Local Abbreviation processPdfLocally :=
  (processPdfLocally getPdfPageAsBase64 extractVotersFromImage completion) (only parsing).

Lemma completion_concat (bs : list (list nat)) :
  Permutation (flat_map completion bs) (concat bs).
Proof.
  induction bs as [|b bs IH]; [constructor|].
  cbn [flat_map concat]. apply Permutation_app; [apply completion_perm|exact IH].
Qed.

(** With a batch size of zero the loop takes nothing off the queue. *)
Lemma processBatch_stuck (fuel : nat) (q : nat) (qs : list nat) :
  forall r, processBatch fuel 0 (q :: qs) r = None.
Proof.
  induction fuel as [|f IH]; intro r; [reflexivity|].
  cbn [LocalFallback.processBatch firstn skipn]. apply IH.
Qed.

(** X17.  With a batch size of at least one the local fallback ends,
    and what it has collected is, up to the order in which the tasks of
    a batch end, the records of the pages 3 to the last, each page
    contributing what its extraction returned and nothing when its
    rendering or its extraction failed; the list shown is the list
    before the run followed by the records collected.  A document of at
    most two pages starts no task at all.  With a batch size of zero and
    a third page the loop never ends. *)
Theorem local_fallback_collects_pages_from_the_third (voters0 : list Voter) :
  (forall totalPages concurrency : nat,
      (1 <= concurrency)%nat ->
      exists r,
        processPdfLocally totalPages totalPages concurrency voters0 = Some r /\
        allVoters r = flat_map pageVoters (flat_map completion (batches r)) /\
        Permutation (allVoters r) (flat_map pageVoters (seq 3 (totalPages - 2))) /\
        votersState r = voters0 ++ allVoters r) /\
  (forall fuel totalPages concurrency : nat,
      (totalPages <= 2)%nat ->
      processPdfLocally fuel totalPages concurrency voters0 = Some (mkRun [] voters0 [] [])) /\
  (forall fuel totalPages : nat,
      (3 <= totalPages)%nat ->
      processPdfLocally fuel totalPages 0 voters0 = None).
Proof.
  split; [|split].
  - intros totalPages c Hc. unfold LocalFallback.processPdfLocally.
    assert (Hlen : (length (initialQueue totalPages) <= totalPages)%nat).
    { rewrite initialQueue_pages, length_seq. lia. }
    rewrite (@processBatch_run getPdfPageAsBase64 extractVotersFromImage completion
               totalPages c Hc _ _ Hlen).
    eexists. split; [reflexivity|]. cbn [allVoters votersState batches app].
    split; [reflexivity|]. split; [|reflexivity].
    apply Permutation_flat_map.
    eapply Permutation_trans; [apply completion_concat|].
    rewrite chunks_concat by assumption. rewrite initialQueue_pages. apply Permutation_refl.
  - intros fuel totalPages c Hle. unfold LocalFallback.processPdfLocally.
    rewrite initialQueue_pages. replace (totalPages - 2)%nat with 0%nat by lia.
    destruct fuel; reflexivity.
  - intros fuel totalPages Hge. unfold LocalFallback.processPdfLocally.
    rewrite initialQueue_pages.
    destruct (totalPages - 2)%nat as [|n] eqn:E; [lia|].
    cbn [seq]. apply processBatch_stuck.
Qed.

End Collected.

Lemma local_fallback_collects_pages_from_the_third_witness :
  exists r,
    LocalFallback.processPdfLocally sampleRender sampleExtract (@rev nat) 5 5 2 [] = Some r /\
    Permutation (LocalFallback.allVoters r) [markedVoter; markedVoter; markedVoter].
Proof.
  destruct (proj1 (@local_fallback_collects_pages_from_the_third
                     sampleRender sampleExtract (@rev nat) rev_completion []) 5%nat 2%nat)
    as (r & Hr & _ & Hp & _); [lia|].
  exists r. split; [exact Hr|exact Hp].
Defined.

(* ================================================================== *)
(** * Storage paths *)
(* ================================================================== *)

Section Paths.

Import StorageService.

Lemma count_occ_absent (s : jsstring) (c : char) :
  Forall (fun x => x <> c) s -> count_occ N.eq_dec s c = 0%nat.
Proof.
  intro H. apply count_occ_not_In. rewrite Forall_forall in H.
  intro Hin. exact (H c Hin eq_refl).
Qed.

Lemma numberToString_no_slash (x : number) : Forall (fun c => c <> 47%N) (numberToString x).
Proof.
  assert (D : forall n, Forall (fun c => c <> 47%N) (natToString n)).
  { intro n. eapply Forall_impl; [|apply natToString_digits].
    intros c Hc. apply isDigit_range in Hc. lia. }
  destruct x as [|z]; simpl.
  - repeat constructor; lia.
  - destruct (Z.ltb z 0); [constructor; [lia|]|]; apply D.
Qed.

(** X18.  The two storage paths of an upload differ by the suffix .csv,
    and the file name adds no path separator to them, whatever it is:
    the part after the user id and its separator holds none, so the
    path has two separators more than the user id. *)
Theorem upload_paths_stay_in_the_user_folder
        (userId name : jsstring) (timestamp : number) :
  csvPath userId timestamp name = pdfPath userId timestamp name ++ lit ".csv" /\
  (exists file,
      pdfPath userId timestamp name = lit "user_uploads/" ++ userId ++ lit "/" ++ file /\
      ~ In 47%N file /\ ~ In 47%N (file ++ lit ".csv")) /\
  count_occ N.eq_dec (pdfPath userId timestamp name) 47%N
  = (2 + count_occ N.eq_dec userId 47%N)%nat /\
  count_occ N.eq_dec (csvPath userId timestamp name) 47%N
  = (2 + count_occ N.eq_dec userId 47%N)%nat.
Proof.
  assert (Hfile : Forall (fun c => c <> 47%N)
                         (numberToString timestamp ++ lit "_" ++ safeFileName name)).
  { apply Forall_app. split; [apply numberToString_no_slash|].
    apply Forall_app. split; [repeat constructor; discriminate|].
    rewrite safeFileName_map. apply Forall_map. apply Forall_forall. intros c _.
    destruct (isSafeChar c) eqn:E; [|discriminate].
    intros ->. vm_compute in E. discriminate. }
  assert (Hcsv : Forall (fun c => c <> 47%N)
                        ((numberToString timestamp ++ lit "_" ++ safeFileName name)
                         ++ lit ".csv")).
  { apply Forall_app. split; [exact Hfile|repeat constructor; discriminate]. }
  split; [unfold csvPath, pdfPath; rewrite <- !app_assoc; reflexivity|].
  split.
  - exists (numberToString timestamp ++ lit "_" ++ safeFileName name).
    split; [reflexivity|]. rewrite Forall_forall in Hfile, Hcsv.
    split; intro Hin; [exact (Hfile _ Hin eq_refl)|exact (Hcsv _ Hin eq_refl)].
  - assert (Hhead : forall tail,
               Forall (fun c => c <> 47%N) tail ->
               count_occ N.eq_dec (lit "user_uploads/" ++ userId ++ lit "/" ++ tail) 47%N
               = (2 + count_occ N.eq_dec userId 47%N)%nat).
    { intros tail Ht. rewrite !count_occ_app. rewrite (count_occ_absent Ht).
      change (count_occ N.eq_dec (lit "user_uploads/") 47%N) with 1%nat.
      change (count_occ N.eq_dec (lit "/") 47%N) with 1%nat. lia. }
    split; [apply Hhead; exact Hfile|].
    unfold csvPath.
    replace (lit "user_uploads/" ++ userId ++ lit "/" ++ numberToString timestamp
             ++ lit "_" ++ safeFileName name ++ lit ".csv")
      with (lit "user_uploads/" ++ userId ++ lit "/"
            ++ (numberToString timestamp ++ lit "_" ++ safeFileName name) ++ lit ".csv")
      by (rewrite <- !app_assoc; reflexivity).
    apply Hhead. exact Hcsv.
Qed.

End Paths.

(* ================================================================== *)
(** * Quoted columns read back *)
(* ================================================================== *)

Section Quoted.

Lemma withoutQuotes_noQuote (s : jsstring) : noQuote (withoutQuotes s).
Proof.
  unfold noQuote, withoutQuotes. apply Forall_forall. intros c Hc.
  apply filter_In in Hc as [_ Hc]. apply negb_true_iff in Hc. apply N.eqb_neq. exact Hc.
Qed.

Lemma withoutQuotes_id (s : jsstring) : noQuote s -> withoutQuotes s = s.
Proof.
  unfold withoutQuotes. induction 1 as [|c r Hc _ IH]; [reflexivity|].
  cbn [filter]. apply N.eqb_neq in Hc. rewrite Hc. cbn [negb]. rewrite IH. reflexivity.
Qed.

(** Inside quotes the loop keeps every character but the quotes, and a
    doubled quote leaves it inside quotes. *)
Lemma parseCSVLoop_quoted (d : char) (s rest : jsstring) (res : list jsstring) :
  forall cur,
    Csv.parseCSVLoop d (replaceChar Csv.quote [Csv.quote; Csv.quote] s ++ rest) res cur true
    = Csv.parseCSVLoop d rest res (cur ++ withoutQuotes s) true.
Proof.
  induction s as [|c s IH]; intro cur.
  - simpl. rewrite app_nil_r. reflexivity.
  - unfold replaceChar, withoutQuotes in *. cbn [flat_map filter].
    destruct (N.eqb c Csv.quote) eqn:E; cbn [negb].
    + cbn [app Csv.parseCSVLoop]. change (N.eqb Csv.quote Csv.quote) with true.
      cbv iota. cbn [negb]. apply IH.
    + cbn [app Csv.parseCSVLoop]. rewrite E. rewrite andb_false_r.
      rewrite IH. rewrite <- app_assoc. reflexivity.
Qed.

(** X19.  A column written by the export template, the value with
    every double quote doubled between two double quotes, is read back
    as one column whatever the value and the separator: the value
    without its double quotes, trimmed.  So the value comes back as it
    was exactly when it holds no double quote and no white space at
    either end. *)
Theorem quoted_column_reads_back_without_quotes (s : jsstring) (d : char) :
  Csv.parseCSVLine (Csv.quoted s) d = [trim (withoutQuotes s)] /\
  (Csv.parseCSVLine (Csv.quoted s) d = [s] <-> noQuote s /\ trim s = s).
Proof.
  assert (E : Csv.parseCSVLine (Csv.quoted s) d = [trim (withoutQuotes s)]).
  { unfold Csv.parseCSVLine, Csv.quoted.
    cbn [app Csv.parseCSVLoop]. change (N.eqb Csv.quote Csv.quote) with true.
    cbv iota. cbn [negb]. rewrite parseCSVLoop_quoted.
    cbn [app Csv.parseCSVLoop]. change (N.eqb Csv.quote Csv.quote) with true.
    cbv iota. cbn [negb Csv.parseCSVLoop app]. f_equal.
    apply finishField_noQuote. apply withoutQuotes_noQuote. }
  split; [exact E|]. rewrite E. split.
  - intro H. injection H as H.
    assert (Hq : noQuote s).
    { rewrite <- H. eapply infixOf_Forall; [apply trim_infix|apply withoutQuotes_noQuote]. }
    split; [exact Hq|]. rewrite <- H. apply trim_idem.
  - intros [Hq Ht]. f_equal. rewrite (withoutQuotes_id Hq). exact Ht.
Qed.

End Quoted.

(* ================================================================== *)
(** * The text handed to the JSON parser *)
(* ================================================================== *)

Section JsonText.

Import Regex GeminiService.

Lemma indexOf_first (c : char) (pre rest : jsstring) :
  Forall (fun x => x <> c) pre -> indexOf c (pre ++ c :: rest) = Some (length pre).
Proof.
  induction 1 as [|x pre Hx _ IH]; simpl.
  - rewrite N.eqb_refl. reflexivity.
  - apply N.eqb_neq in Hx. rewrite Hx, IH. reflexivity.
Qed.

Lemma indexOf_absent (c : char) (s : jsstring) :
  Forall (fun x => x <> c) s -> indexOf c s = None.
Proof.
  induction 1 as [|x s Hx _ IH]; simpl; [reflexivity|].
  apply N.eqb_neq in Hx. rewrite Hx, IH. reflexivity.
Qed.

Lemma lastIndexOf_last (c : char) (a post : jsstring) :
  Forall (fun x => x <> c) post -> lastIndexOf c (a ++ c :: post) = Some (length a).
Proof.
  intro H. unfold lastIndexOf.
  rewrite rev_app_distr. cbn [rev]. rewrite <- app_assoc. cbn [app].
  rewrite indexOf_first by (apply Forall_rev; exact H).
  rewrite length_rev, length_app. cbn [length]. f_equal. lia.
Qed.

(** A pattern that begins, after what [a] reads, with a character of
    [p] matches nowhere in a text without such a character. *)
Lemma exec_needs_char (p : char -> bool) (a w rest : re) (s : jsstring) :
  Forall (fun c => p c = false) s ->
  exec (Seq a (Seq (Seq (Cls p) w) rest)) s = None.
Proof.
  intro H. unfold exec. apply execFrom_None. intros t Ht.
  destruct (run (length s) (Seq a (Seq (Seq (Cls p) w) rest)) [] t) as [|x l] eqn:E;
    [reflexivity|exfalso].
  assert (Hx : In x (run (length s) (Seq a (Seq (Seq (Cls p) w) rest)) [] t))
    by (rewrite E; left; reflexivity).
  apply run_Seq_In in Hx as (y & Hy & Hx).
  apply run_suffix in Hy.
  apply run_Seq_In in Hx as (z & Hz & _).
  apply run_Cls_Seq in Hz as (ch & t' & Hs & Hp & _).
  assert (Hsuf : suffixOf (ch :: t') s).
  { rewrite <- Hs. eapply suffixOf_trans; [exact Hy|exact Ht]. }
  destruct Hsuf as [pre ->]. apply Forall_app in H as [_ H].
  inversion H; subst. congruence.
Qed.

Lemma fences_absent (s : jsstring) :
  Forall (fun c => c <> chr "`") s ->
  removeFirst FENCE_CLOSE (removeFirst FENCE_OPEN (removeFirst FENCE_JSON s)) = s.
Proof.
  intro H.
  assert (Hp : Forall (fun c => N.eqb c (chr "`") = false) s).
  { eapply Forall_impl; [|exact H]. intros c Hc. apply N.eqb_neq. exact Hc. }
  assert (E1 : exec FENCE_JSON s = None)
    by (apply (@exec_needs_char (fun c => N.eqb c (chr "`")) Bos _ _ s Hp)).
  assert (E2 : exec FENCE_OPEN s = None)
    by (apply (@exec_needs_char (fun c => N.eqb c (chr "`")) Bos _ _ s Hp)).
  assert (E3 : exec FENCE_CLOSE s = None)
    by (apply (@exec_needs_char (fun c => N.eqb c (chr "`"))
                 (Star true (Cls isWhiteSpace)) _ _ s Hp)).
  unfold removeFirst. rewrite E1, E2, E3. reflexivity.
Qed.

(** X20.  When the reply holds an opening bracket and, after it, a
    closing bracket, the text handed to the parser is the reply from its
    first opening bracket to its last closing bracket, whatever stands
    before and after.  A reply without an opening bracket and without a
    backtick is handed over as it is, and a missing or empty reply is
    read as the empty array. *)
Theorem extractJson_keeps_the_outer_brackets :
  (forall pre body post,
      Forall (fun c => c <> chr "[") pre ->
      Forall (fun c => c <> chr "]") post ->
      extractJson (Some (pre ++ [chr "["] ++ body ++ [chr "]"] ++ post))
      = [chr "["] ++ body ++ [chr "]"]) /\
  (forall s,
      s <> [] ->
      Forall (fun c => c <> chr "[") s -> Forall (fun c => c <> chr "`") s ->
      extractJson (Some s) = s) /\
  extractJson None = lit "[]" /\
  extractJson (Some []) = lit "[]".
Proof.
  split; [|split; [|split; reflexivity]].
  - intros pre body post Hpre Hpost.
    set (s := pre ++ [chr "["] ++ body ++ [chr "]"] ++ post).
    assert (Hne : exists c r, s = c :: r).
    { unfold s. destruct pre as [|c r]; [exists (chr "["); eexists|exists c; eexists];
        reflexivity. }
    assert (E : extractJson (Some s)
                = match indexOf (chr "[") s, lastIndexOf (chr "]") s with
                  | Some firstBracket, Some lastBracket =>
                      if Nat.ltb firstBracket lastBracket
                      then substring firstBracket (lastBracket + 1) s
                      else removeFirst FENCE_CLOSE
                             (removeFirst FENCE_OPEN (removeFirst FENCE_JSON s))
                  | _, _ =>
                      removeFirst FENCE_CLOSE
                        (removeFirst FENCE_OPEN (removeFirst FENCE_JSON s))
                  end).
    { destruct Hne as (c & r & ->). reflexivity. }
    rewrite E. clear E Hne.
    assert (I1 : indexOf (chr "[") s = Some (length pre)).
    { unfold s. cbn [app]. apply indexOf_first. exact Hpre. }
    assert (I2 : lastIndexOf (chr "]") s = Some (length pre + 1 + length body)%nat).
    { unfold s.
      replace (pre ++ [chr "["] ++ body ++ [chr "]"] ++ post)
        with ((pre ++ [chr "["] ++ body) ++ chr "]" :: post)
        by (rewrite <- !app_assoc; reflexivity).
      rewrite lastIndexOf_last by exact Hpost.
      rewrite !length_app. cbn [length]. f_equal. lia. }
    rewrite I1, I2.
    replace (Nat.ltb (length pre) (length pre + 1 + length body)) with true
      by (symmetry; apply Nat.ltb_lt; lia).
    unfold substring, s. rewrite skipn_app, skipn_all, Nat.sub_diag. cbn [app skipn].
    replace (length pre + 1 + length body + 1 - length pre)%nat
      with (length (chr "[" :: body ++ [chr "]"]) + 0)%nat
      by (cbn [length]; rewrite length_app; cbn [length]; lia).
    replace (chr "[" :: body ++ chr "]" :: post)
      with ((chr "[" :: body ++ [chr "]"]) ++ post)
      by (cbn [app]; rewrite <- app_assoc; reflexivity).
    rewrite firstn_app_2. cbn [firstn]. rewrite app_nil_r. reflexivity.
  - intros s Hne Hb Hf. destruct s as [|c r]; [congruence|].
    unfold extractJson. rewrite (indexOf_absent Hb). apply fences_absent. exact Hf.
Qed.

Lemma extractJson_keeps_the_outer_brackets_witness :
  GeminiService.extractJson (Some (lit "Here it is: [{}] done")) = lit "[{}]".
Proof.
  apply (proj1 extractJson_keeps_the_outer_brackets (lit "Here it is: ") (lit "{}")
               (lit " done")); repeat constructor; discriminate.
Defined.

End JsonText.

(* ================================================================== *)
(** * The photo box of an OCR card *)
(* ================================================================== *)

Section PhotoBox.

Import OcrService.

(** X21.  For an anchor word whose box is well formed, the photo box
    the OCR strategy hands to the crop is the right-hand 35 percent of
    the card window, from 30 below its top to 10 above its bottom: it
    lies inside the window, its width is 35 percent of the width of the
    word plus 350, and its height is the height of the word plus 120.
    Both are positive, so the crop is never asked for an empty box. *)
Theorem photo_box_is_a_positive_part_of_the_window (wd : Word) :
  (x0 (bbox wd) <= x1 (bbox wd))%Q -> (y0 (bbox wd) <= y1 (bbox wd))%Q ->
  exists ymin xmin ymax xmax,
    photoBox (cardRegion wd) = [ymin; xmin; ymax; xmax] /\
    (xmax - xmin == (35 # 100) * (x1 (bbox wd) - x0 (bbox wd) + 350))%Q /\
    (ymax - ymin == y1 (bbox wd) - y0 (bbox wd) + 120)%Q /\
    (0 < xmax - xmin)%Q /\ (0 < ymax - ymin)%Q /\
    (x0 (cardRegion wd) <= xmin)%Q /\ (xmax <= x1 (cardRegion wd))%Q /\
    (y0 (cardRegion wd) <= ymin)%Q /\ (ymax <= y1 (cardRegion wd))%Q.
Proof.
  intros Hx Hy. unfold photoBox, cardRegion. cbn [x0 x1 y0 y1].
  do 4 eexists. split; [reflexivity|].
  repeat split; try lra.
Qed.

Lemma photo_box_is_a_positive_part_of_the_window_witness :
  exists ymin xmin ymax xmax,
    OcrService.photoBox (OcrService.cardRegion wordA) = [ymin; xmin; ymax; xmax] /\
    (0 < xmax - xmin)%Q /\ (0 < ymax - ymin)%Q.
Proof.
  destruct (@photo_box_is_a_positive_part_of_the_window wordA)
    as (a & b & c & d & E & _ & _ & Hw & Hh & _); [cbn; lra|cbn; lra|].
  exists a, b, c, d. repeat split; assumption.
Defined.

End PhotoBox.

(* ================================================================== *)
(** * The records of a remote attempt *)
(* ================================================================== *)

Section RemoteRecords.

Import GeminiService.

Variable generateContent : nat -> jsstring -> outcome (option jsstring).
Variable JSON_parse : jsstring -> Parsed.
Variable cropImage : jsstring -> list Q -> jsstring.

Local Abbreviation processRaw := (processRaw cropImage) (only parsing).
Local Abbreviation voterOfRaw := (voterOfRaw cropImage) (only parsing).

Lemma processRaw_Returned (img : jsstring) (page : number) (photos : bool)
      (l : list RawElem) (vs : list Voter) :
  processRaw img page photos l = Returned vs <->
  exists raws, l = map RObj raws /\ vs = map (voterOfRaw img page photos) raws.
Proof.
  revert vs. induction l as [|x l IH]; intro vs; cbn [GeminiService.processRaw].
  - split.
    + intro H. injection H as <-. exists []. split; reflexivity.
    + intros ([|? ?] & E & ->); [reflexivity|discriminate].
  - destruct x as [|raw].
    + split; [discriminate|]. intros ([|? ?] & E & _); discriminate.
    + destruct (processRaw img page photos l) as [ws|e].
      * split.
        -- intro H. injection H as <-. destruct (proj1 (IH ws) eq_refl) as (raws & -> & ->).
           exists (raw :: raws). split; reflexivity.
        -- intros ([|r raws] & E & ->); [discriminate|]. injection E as -> ->.
           f_equal. f_equal.
           assert (K : Returned ws = Returned (map (voterOfRaw img page photos) raws))
             by (apply IH; exists raws; split; reflexivity).
           injection K as ->. reflexivity.
      * split; [discriminate|]. intros ([|r raws] & E & ->); [discriminate|].
        injection E as -> ->.
        assert (K : @Thrown (list Voter) e
                    = Returned (map (voterOfRaw img page photos) raws))
          by (apply IH; exists raws; split; reflexivity).
        discriminate.
Qed.

(** X22.  An attempt of the remote strategy returns records exactly
    when the call returned, the text parsed, and no element of the
    array is null; it then returns one record per element, in order.
    Every record is unmarked and carries the page number, and it has a
    photo only if photos were asked for and the element has a box of
    four numbers.  One null element fails the whole attempt. *)
Theorem remote_attempt_returns_one_record_per_element
        (img : jsstring) (page : number) (photos : bool) (attempt : nat) (model : jsstring) :
  (forall vs,
      attemptBody generateContent JSON_parse cropImage img page photos attempt model
      = Returned vs ->
      exists responseText,
        generateContent attempt model = Returned responseText /\
        JSON_parse (extractJson responseText) <> SyntaxError /\
        Forall (fun v => isVoted v = false /\ votedParty v = None /\ timestamp v = None /\
                         originalPage v = Some page /\
                         (photos = false -> photoBase64 v = None)) vs) /\
  (forall responseText raws,
      generateContent attempt model = Returned responseText ->
      JSON_parse (extractJson responseText) = PArray (map RObj raws) ->
      attemptBody generateContent JSON_parse cropImage img page photos attempt model
      = Returned (map (voterOfRaw img page photos) raws)) /\
  (forall responseText a b,
      generateContent attempt model = Returned responseText ->
      JSON_parse (extractJson responseText) = PArray (a ++ RNull :: b) ->
      exists e,
        attemptBody generateContent JSON_parse cropImage img page photos attempt model
        = Thrown e) /\
  (forall raw,
      photoBase64 (voterOfRaw img page photos raw) <> None <->
      photos = true /\ exists box, photo_box_2d raw = Some box /\ length box = 4%nat).
Proof.
  assert (Hfresh : forall l vs,
             processRaw img page photos l = Returned vs ->
             Forall (fun v => isVoted v = false /\ votedParty v = None /\ timestamp v = None /\
                              originalPage v = Some page /\
                              (photos = false -> photoBase64 v = None)) vs).
  { intros l vs H. apply processRaw_Returned in H as (raws & _ & ->).
    apply Forall_map. apply Forall_forall. intros raw _.
    repeat (split; [reflexivity|]). intros ->.
    cbn [GeminiService.voterOfRaw photoBase64]. destruct (photo_box_2d raw); reflexivity. }
  split; [|split; [|split]].
  - intros vs. unfold attemptBody.
    destruct (generateContent attempt model) as [responseText|e]; [|discriminate].
    intro H. exists responseText. split; [reflexivity|].
    destruct (JSON_parse (extractJson responseText)) as [|l|l|r|];
      try discriminate; (split; [discriminate|]).
    + eapply Hfresh; exact H.
    + eapply Hfresh; exact H.
    + eapply Hfresh; exact H.
    + injection H as <-. constructor.
  - intros responseText raws Hg Hp. unfold attemptBody. rewrite Hg, Hp.
    apply processRaw_Returned. exists raws. split; reflexivity.
  - intros responseText a b Hg Hp. unfold attemptBody. rewrite Hg, Hp.
    destruct (processRaw img page photos (a ++ RNull :: b)) as [vs|e] eqn:E;
      [exfalso|exists e; reflexivity].
    apply processRaw_Returned in E as (raws & E & _).
    assert (Hin : In RNull (map RObj raws)) by (rewrite <- E; apply in_elt).
    apply in_map_iff in Hin as (r & Hr & _). discriminate.
  - intro raw. cbn [GeminiService.voterOfRaw photoBase64].
    destruct (photo_box_2d raw) as [box|].
    + destruct photos; cbn [andb].
      * destruct (Nat.eqb (length box) 4) eqn:E.
        -- split; [intros _|discriminate]. split; [reflexivity|].
           exists box. split; [reflexivity|apply Nat.eqb_eq; exact E].
        -- split; [congruence|]. intros (_ & box' & Hb & Hl). injection Hb as <-.
           apply Nat.eqb_neq in E. contradiction.
      * split; [congruence|]. intros [H _]. discriminate.
    + split; [congruence|]. intros (_ & box & Hb & _). discriminate.
Qed.

End RemoteRecords.

Lemma remote_attempt_returns_one_record_per_element_witness :
  GeminiService.attemptBody sampleGenerate sampleParse noCrop [] (Int 3) false 2
                            (modelOf 2)
  = Returned [GeminiService.voterOfRaw noCrop [] (Int 3) false emptyRaw].
Proof.
  apply (proj1 (proj2 (@remote_attempt_returns_one_record_per_element
                         sampleGenerate sampleParse noCrop [] (Int 3) false 2 (modelOf 2)))
               (Some (lit "Here it is: [{}] done")) [emptyRaw]); reflexivity.
Defined.
